(** * Dropship payout engine: payouts, returns, configuration and upload

    A shallow embedding of the server's storage layer and upload route:
    [DatabaseStorage.calculatePayouts],
    [DatabaseStorage.autoDetectRtsRtoReconciliations] and
    [DatabaseStorage.processRtsRtoReconciliation], with the properties
    of the payout specification proved or refuted on them; and, with
    further properties of the code,
    [getMissingPricesAndRates], the product price table
    ([getProductPrice], [upsertProductPrice], [bulkUpsertProductPrices],
    [deleteProductPrice]), [getCodBreakdownForRange], the session store
    [MySQLSessionStore], and [mapColumns] with the row conversion of the
    upload route.

    Modelling conventions.
    - JavaScript numbers are exact rationals ([Q]); [Math.round] is
      [Qfloor (x + 1/2)].  No amount of the modelled code is [NaN] or
      infinite: every [decimal(10,2)] column is [NOT NULL] and is read
      with [parseFloat]/[Number].  The program's numbers are binary64
      values, and a sum of amounts can differ from the exact sum in
      its last bits; where a property depends on that, the running
      money totals of [calculatePayouts] and the summary rounded from
      them, it is stated on [Binary64], which has them as IEEE 754
      values.
    - A [decimal(10,2)] column holds a whole number of hundredths
      ([Decimal2]); a [decimal(8,3)] weight column is only ever spliced
      into a lookup key, so it is kept as the text the driver returns.
    - Strings hold ASCII text; [toLowerCase], [toUpperCase] and [trim]
      are the ASCII parts of the JavaScript functions.
    - [Map<string, number>] objects that are iterated are association
      lists in insertion order; maps that are only read with [get] are
      [gmap]s; [Set<string>] is [gset string].
    - The persistent store is an explicit [Database] value; the result
      of a query is the list of rows it returns, in the order returned.
    - In the queries on [order_data] and on the reconciliation ledger
      the comparison of two texts is equality of strings.  The price
      table and the session store take the comparison of their key
      columns as a parameter [sqlEq], of which the properties need
      only that it is an equivalence.
    - The clock ([Date.now()], [new Date()]), fresh identifiers
      ([randomUUID()]) and the parsing and printing of dates and
      numbers that the code leaves to the platform are parameters; so
      are [Number] on a row identifier, [JSON.stringify] and
      [JSON.parse], and the two file parsers of the upload route. *)

From Stdlib Require Import ZArith QArith Qround Qabs Ascii String List Bool Lia Sorted.
From Stdlib Require Floats Uint63 DecimalString.
From stdpp Require Import gmap strings list.

Local Open Scope Z_scope.
Local Open Scope string_scope.

(** ** JavaScript primitives *)

Module Js.

(** [String.prototype.toLowerCase], ASCII range. *)
Definition lowerAscii (c : ascii) : ascii :=
  let n := nat_of_ascii c in
  if ((65 <=? n)%nat && (n <=? 90)%nat)%bool then ascii_of_nat (n + 32) else c.

Fixpoint toLowerCase (s : string) : string :=
  match s with
  | EmptyString => EmptyString
  | String c r => String (lowerAscii c) (toLowerCase r)
  end.

(** [s.startsWith(p)]. *)
Fixpoint startsWith (p s : string) : bool :=
  match p, s with
  | EmptyString, _ => true
  | String _ _, EmptyString => false
  | String a p', String b s' => (Ascii.eqb a b && startsWith p' s')%bool
  end.

(** [s.includes(p)]. *)
Fixpoint includes (s p : string) : bool :=
  (startsWith p s ||
   match s with
   | EmptyString => false
   | String _ r => includes r p
   end)%bool.

(** [s.endsWith(p)]. *)
Definition endsWith (s p : string) : bool :=
  ((String.length p <=? String.length s)%nat &&
   String.eqb (substring (String.length s - String.length p) (String.length p) s) p)%bool.

(** White space removed by [String.prototype.trim], ASCII range:
    TAB, LF, VT, FF, CR and SPACE. *)
Definition isWhiteSpace (c : ascii) : bool :=
  let n := nat_of_ascii c in
  (((9 <=? n)%nat && (n <=? 13)%nat) || (n =? 32)%nat)%bool.

Fixpoint trimStart (s : string) : string :=
  match s with
  | EmptyString => EmptyString
  | String c r => if isWhiteSpace c then trimStart r else s
  end.

(** Drops trailing white space: a character is kept when it is not
    white space or when something is kept after it. *)
Fixpoint trimEnd (s : string) : string :=
  match s with
  | EmptyString => EmptyString
  | String c r =>
      match trimEnd r with
      | EmptyString => if isWhiteSpace c then EmptyString else String c EmptyString
      | r' => String c r'
      end
  end.

Definition trim (s : string) : string := trimEnd (trimStart s).

(** A string of white space only, the empty string included. *)
Fixpoint isBlank (s : string) : bool :=
  match s with
  | EmptyString => true
  | String c r => isWhiteSpace c && isBlank r
  end.

(** [s.split('|')]. *)
Fixpoint splitPipe (s : string) : list string :=
  match s with
  | EmptyString => [EmptyString]
  | String c r =>
      if Ascii.eqb c "|"%char then EmptyString :: splitPipe r
      else match splitPipe r with
           | [] => [String c EmptyString]
           | h :: t => String c h :: t
           end
  end.

(** [Math.round]: nearest integer, halves towards plus infinity. *)
Definition Math_round (x : Q) : Z := Qfloor (x + (1 # 2)).

(** [Math.round(x * 100) / 100]. *)
Definition round2 (x : Q) : Q := (inject_Z (Math_round (x * 100)) / 100)%Q.

(** [x || d] on numbers: [d] replaces [0] (and [NaN], which does not
    occur). *)
Definition orElse (x d : Q) : Q := if Qeq_bool x 0 then d else x.

(** [m.get(k) || d] where a missing key gives [undefined]. *)
Definition getOrElse (x : option Q) (d : Q) : Q :=
  match x with
  | Some v => orElse v d
  | None => d
  end.

(** [Math.max(a, b)]. *)
Definition Math_max (a b : Q) : Q := if Qle_bool a b then b else a.

(** [x > 0]. *)
Definition positive (x : Q) : bool :=
  match (0 ?= x)%Q with Lt => true | _ => false end.

(** A [Map<string, V>] whose iteration order is observed: entries in
    insertion order; [set] on a present key replaces the value in
    place. *)
Section OrderedMap.
Context {V : Type}.

Fixpoint mapGet (m : list (string * V)) (k : string) : option V :=
  match m with
  | [] => None
  | (k', v) :: r => if String.eqb k' k then Some v else mapGet r k
  end.

Fixpoint mapSet (m : list (string * V)) (k : string) (v : V) : list (string * V) :=
  match m with
  | [] => [(k, v)]
  | (k', v') :: r =>
      if String.eqb k' k then (k', v) :: r else (k', v') :: mapSet r k v
  end.
End OrderedMap.

(** [Array.prototype.sort(cmp)]: a stable sort; [a] is placed before
    [b] when [cmp a b <= 0] and [a] came first.  This is the result
    the standard fixes when [cmp] is a consistent order; for another
    comparator the standard leaves the result to the engine. *)
Section Sort.
Context {A : Type} (cmp : A -> A -> Q).

Fixpoint insertSorted (x : A) (l : list A) : list A :=
  match l with
  | [] => [x]
  | y :: r =>
      if Qle_bool (cmp x y) 0 then x :: l else y :: insertSorted x r
  end.

Definition sort (l : list A) : list A := foldr insertSorted [] l.
End Sort.

End Js.

(** ** Schema (shared/schema.ts) *)

(** A [decimal(10,2)] column, counted in hundredths. *)
Definition Decimal2 := Z.

(** [parseFloat] / [Number] of a [decimal(10,2)] column. *)
Definition parseFloat (d : Decimal2) : Q := Qmake d 100.

(** A [timestamp] column or a JavaScript [Date]: milliseconds since the
    epoch. *)
Definition Timestamp := Z.

Module OrderData.
Record t := mk {
  id : string;
  dropshipperEmail : string;
  orderId : string;
  orderDate : Timestamp;
  waybill : option string;
  productName : string;
  sku : option string;
  productUid : string;
  qty : Z;
  productValue : Decimal2;
  mode : option string;
  status : string;
  deliveredDate : option Timestamp;
  rtsDate : option Timestamp;
  shippingProvider : string
}.
End OrderData.

Module ProductPrice.
Record t := mk {
  dropshipperEmail : string;
  productUid : string;
  productWeight : option string;
  productCostPerUnit : Decimal2
}.
End ProductPrice.

Module ShippingRate.
Record t := mk {
  productUid : string;
  productWeight : string;
  shippingProvider : string;
  shippingRatePerKg : Decimal2
}.
End ShippingRate.

Module PayoutLog.
Record t := mk {
  id : string;
  orderId : string;
  waybill : option string;
  dropshipperEmail : string;
  productUid : string;
  paidAmount : Decimal2
}.
End PayoutLog.

Module RtsRtoReconciliation.
Record t := mk {
  id : string;
  orderId : string;
  waybill : option string;
  dropshipperEmail : string;
  productUid : string;
  originalPaidAmount : Decimal2;
  reversalAmount : Decimal2;
  rtsRtoStatus : string;
  notes : option string;
  status : string
}.
End RtsRtoReconciliation.

(** [InsertRtsRtoReconciliation]: the row without its [id]; [status]
    may be left to the column default. *)
Module InsertRtsRtoReconciliation.
Record t := mk {
  orderId : string;
  waybill : option string;
  dropshipperEmail : string;
  productUid : string;
  originalPaidAmount : Decimal2;
  reversalAmount : Decimal2;
  rtsRtoStatus : string;
  notes : option string;
  status : option string
}.
End InsertRtsRtoReconciliation.

(** The tables the two operations read and write.  [productPrices] and
    [shippingRates] are listed as [getProductPrices] and
    [getShippingRates] return them. *)
Record Database := mkDatabase {
  orderData : list OrderData.t;
  productPrices : list ProductPrice.t;
  shippingRates : list ShippingRate.t;
  payoutLog : list PayoutLog.t;
  rtsRtoReconciliation : list RtsRtoReconciliation.t
}.

Module PayoutCalculationRequest.
Record t := mk {
  orderDateFrom : string;
  orderDateTo : string;
  deliveredDateFrom : string;
  deliveredDateTo : string;
  dropshipperEmail : option string
}.
End PayoutCalculationRequest.

Module PayoutSummary.
Record t := mk {
  shippingTotal : Z;
  codTotal : Z;
  productCostTotal : Z;
  rtsRtoReversalTotal : Z;
  finalPayable : Z;
  ordersWithShippingCharges : nat;
  ordersWithProductAmount : nat;
  ordersWithCodAmount : nat;
  totalOrdersProcessed : nat
}.
End PayoutSummary.

(** What the row shows as [shippingRate]: a number, or, when the
    carrier name is the name of a member that every object inherits
    ([defaultRates[provider]] is then that member, a function or the
    prototype object, and it is truthy), that member. *)
Inductive RateShown :=
  | RateNumber (rate : Q)
  | InheritedMember (name : string).

(** The money and identity fields of [PayoutRow]; the remaining fields
    repeat these or reformat dates. *)
Module PayoutRow.
Record t := mk {
  orderId : string;
  waybill : option string;
  productUid : string;
  dropshipperEmail : string;
  shippingProvider : string;
  qty : Z;
  status : string;
  codAmountRupees : Q;
  productCostPerUnit : Q;
  shippingRate : RateShown;
  shippingCost : Q;
  productCost : Q;
  payable : Q;
  deliveredQty : Z;
  codReceived : Q
}.
End PayoutRow.

Module Adjustment.
Record t := mk {
  orderId : string;
  reason : string;
  amount : Q;
  reference : string
}.
End Adjustment.


(** ** The payout aggregation engine *)

(** The running totals, the three [Set]s of order identifiers and the
    rows pushed so far: the mutable locals of [calculatePayouts]. *)
Record Acc := mkAcc {
  shippingTotal : Q;
  codTotal : Q;
  productCostTotal : Q;
  rtsRtoReversalTotal : Q;
  uniqueShippingOrders : gset string;
  uniqueProductAmountOrders : gset string;
  uniqueCodOrders : gset string;
  rows : list PayoutRow.t
}.

Definition initAcc : Acc := mkAcc 0%Q 0%Q 0%Q 0%Q ∅ ∅ ∅ [].

Record PayoutResult := mkPayoutResult {
  summary : PayoutSummary.t;
  resultRows : list PayoutRow.t;
  adjustments : list Adjustment.t
}.

(** The system accounts every payout query leaves out. *)
Definition excludedEmails : list string :=
  ["akash@shopperskart.shop"; "buzwidetechnologypvtltd@gmail.com"].

(** A string used as a condition: [undefined] and the empty string are
    falsy. *)
Definition truthy (s : option string) : option string :=
  match s with
  | Some EmptyString => None
  | _ => s
  end.

(** The [where] clause of the order query: [lower(email) NOT IN (...)]
    and, with a dropshipper given, [lower(email) = lower(dropshipper)]. *)
Definition selectOrders (dropshipperEmail : option string)
    (tbl : list OrderData.t) : list OrderData.t :=
  List.filter
    (fun o =>
       let e := Js.toLowerCase (OrderData.dropshipperEmail o) in
       negb (existsb (String.eqb e) excludedEmails) &&
       match truthy dropshipperEmail with
       | Some d => String.eqb e (Js.toLowerCase d)
       | None => true
       end)
    tbl.

Definition filterPrices (dropshipperEmail : option string)
    (prices : list ProductPrice.t) : list ProductPrice.t :=
  match truthy dropshipperEmail with
  | Some d =>
      List.filter
        (fun p => String.eqb (Js.toLowerCase (ProductPrice.dropshipperEmail p))
                             (Js.toLowerCase d))
        prices
  | None => prices
  end.

(** [priceMap]: key [email|productUid]; a later row overwrites an
    earlier one. *)
Definition priceKey (email uid : string) : string := email ++ "|" ++ uid.

Definition buildPriceMap (prices : list ProductPrice.t) : gmap string Q :=
  foldl
    (fun m p =>
       <[priceKey (ProductPrice.dropshipperEmail p) (ProductPrice.productUid p)
         := parseFloat (ProductPrice.productCostPerUnit p)]> m)
    ∅ prices.

(** [rateMap]: key [productUid|productWeight|shippingProvider]. *)
Definition rateKey (uid weight provider : string) : string :=
  uid ++ "|" ++ weight ++ "|" ++ provider.

Definition buildRateMap (rates : list ShippingRate.t) : list (string * Q) :=
  foldl
    (fun m r =>
       Js.mapSet m
         (rateKey (ShippingRate.productUid r) (ShippingRate.productWeight r)
                  (ShippingRate.shippingProvider r))
         (parseFloat (ShippingRate.shippingRatePerKg r)))
    [] rates.

(** [orderGroups]: line items grouped by order identifier, groups in
    order of first appearance. *)
Definition groupOrders (orders : list OrderData.t) : list (string * list OrderData.t) :=
  foldl
    (fun g o =>
       match Js.mapGet g (OrderData.orderId o) with
       | Some items => Js.mapSet g (OrderData.orderId o) (items ++ [o])%list
       | None => Js.mapSet g (OrderData.orderId o) [o]
       end)
    [] orders.

(** The line items in the order the two nested loops visit them. *)
Definition visitOrder (orders : list OrderData.t) : list OrderData.t :=
  concat (map snd (groupOrders orders)).

(** *** Status and payment-mode tests *)

Definition isDelivered (o : OrderData.t) : bool :=
  Js.includes (Js.toLowerCase (OrderData.status o)) "delivered".


Definition isCancelled (o : OrderData.t) : bool :=
  String.eqb (Js.toLowerCase (OrderData.status o)) "cancelled" ||
  Js.includes (Js.toLowerCase (OrderData.status o)) "cancel".

(** [String(order.mode || '').toLowerCase().trim()]. *)
Definition paymentMode (o : OrderData.t) : string :=
  Js.trim (Js.toLowerCase (default EmptyString (OrderData.mode o))).

(** [paymentMode === 'cod' || paymentMode === '']; the third test of
    the source, [paymentMode === null], is never true of a string. *)
Definition isCodOrder (o : OrderData.t) : bool :=
  String.eqb (paymentMode o) "cod" || String.eqb (paymentMode o) EmptyString.

(** *** Price and rate resolution *)

(** [prices.find(...)?.productWeight || 0.5], as it prints inside a
    key. *)
Definition productWeight (prices : list ProductPrice.t) (o : OrderData.t) : string :=
  match
    List.find
      (fun p =>
         String.eqb (ProductPrice.dropshipperEmail p) (OrderData.dropshipperEmail o) &&
         String.eqb (ProductPrice.productUid p) (OrderData.productUid o))
      prices
  with
  | Some p =>
      match truthy (ProductPrice.productWeight p) with
      | Some w => w
      | None => "0.5"
      end
  | None => "0.5"
  end.

(** Tier one: the rate stored under the exact key, when positive. *)
Definition exactRate (prices : list ProductPrice.t) (rateMap : list (string * Q))
    (o : OrderData.t) : Q :=
  let exactKey :=
    rateKey (OrderData.productUid o) (productWeight prices o)
            (OrderData.shippingProvider o) in
  let r := Js.getOrElse (Js.mapGet rateMap exactKey) 0 in
  if Js.positive r then r else 0.

(** Tier two: the first positive rate, in iteration order, whose key
    splits into this product and this carrier. *)
Fixpoint anyWeightRate (entries : list (string * Q)) (o : OrderData.t) : option Q :=
  match entries with
  | [] => None
  | (key, rate) :: rest =>
      match Js.splitPipe key with
      | uid :: _ :: provider :: _ =>
          if String.eqb uid (OrderData.productUid o) &&
             String.eqb provider (OrderData.shippingProvider o) &&
             Js.positive rate
          then Some rate
          else anyWeightRate rest o
      | _ => anyWeightRate rest o
      end
  end.

(** The rate after tiers one and two: [flatShippingRate]. *)
Definition flatShippingRate (prices : list ProductPrice.t)
    (rateMap : list (string * Q)) (o : OrderData.t) : Q :=
  let r := exactRate prices rateMap o in
  if Qeq_bool r 0 then default 0%Q (anyWeightRate rateMap o) else r.

(** The table [defaultRates]. *)
Definition defaultRates : list (string * Q) :=
  [("Delhivery", 25%Q); ("Bluedart", 30%Q); ("Ekart", 20%Q); ("Ekart-Px", 20%Q);
   ("DTDC", 25%Q); ("Ecom Express", 22%Q); ("Shadowfax", 20%Q); ("Trackon", 25%Q)].

(** The names of the members an object literal inherits from
    [Object.prototype]. *)
Definition objectMembers : list string :=
  ["constructor"; "__defineGetter__"; "__defineSetter__"; "hasOwnProperty";
   "__lookupGetter__"; "__lookupSetter__"; "isPrototypeOf"; "propertyIsEnumerable";
   "toString"; "valueOf"; "__proto__"; "toLocaleString"].

(** [defaultRates[provider] || 25]: the entry of the table; for a name
    outside the table the inherited member of that name, if there is
    one, and [25] otherwise. *)
Definition defaultRate (provider : string) : RateShown :=
  match Js.mapGet defaultRates provider with
  | Some rate => RateNumber (Js.orElse rate 25)
  | None =>
      if existsb (String.eqb provider) objectMembers
      then InheritedMember provider
      else RateNumber 25
  end.

(** The rate shown on the row, [shippingRate]: tiers one and two, then
    the carrier default. *)
Definition displayShippingRate (prices : list ProductPrice.t)
    (rateMap : list (string * Q)) (o : OrderData.t) : RateShown :=
  let r := flatShippingRate prices rateMap o in
  if Qeq_bool r 0 then defaultRate (OrderData.shippingProvider o) else RateNumber r.

(** The test of tier two on one key of the rate map: split at "|", the
    key names this product first and this carrier third. *)
Definition sameProductAndCarrier (key : string) (o : OrderData.t) : bool :=
  match Js.splitPipe key with
  | uid :: _ :: provider :: _ =>
      String.eqb uid (OrderData.productUid o) &&
      String.eqb provider (OrderData.shippingProvider o)
  | _ => false
  end.

Definition resolveUnitCost (priceMap : gmap string Q) (o : OrderData.t) : Q :=
  Js.getOrElse
    (priceMap !! priceKey (OrderData.dropshipperEmail o) (OrderData.productUid o)) 0.

Section Engine.

(** [new Date(s).getTime()] for a date given as text; [None] stands for
    an invalid date, against which every comparison is false. *)
Variable parseDate : string -> option Timestamp.

Definition notBefore (d : Timestamp) (bound : option Timestamp) : bool :=
  match bound with
  | Some b => (b <=? d)%Z
  | None => false
  end.

Definition notAfter (d : Timestamp) (bound : option Timestamp) : bool :=
  match bound with
  | Some b => (d <=? b)%Z
  | None => false
  end.

Section Item.

Variable req : PayoutCalculationRequest.t.
Variable prices : list ProductPrice.t.
Variable priceMap : gmap string Q.
Variable rateMap : list (string * Q).

Definition inOrderDateRange (o : OrderData.t) : bool :=
  notBefore (OrderData.orderDate o)
            (parseDate (PayoutCalculationRequest.orderDateFrom req)) &&
  notAfter (OrderData.orderDate o)
           (parseDate (PayoutCalculationRequest.orderDateTo req)).

Definition inDeliveredDateRange (o : OrderData.t) : bool :=
  match OrderData.deliveredDate o with
  | Some d =>
      notBefore d (parseDate (PayoutCalculationRequest.deliveredDateFrom req)) &&
      notAfter d (parseDate (PayoutCalculationRequest.deliveredDateTo req ++ " 23:59:59"))
  | None => false
  end.

(** The line items the loop leaves with [continue]. *)
Definition skipped (o : OrderData.t) : bool :=
  isCancelled o && inOrderDateRange o.

Definition addShipping (st : Acc) (shippingCost : Q) (orderId : string) : Acc :=
  mkAcc (shippingTotal st + shippingCost)%Q (codTotal st) (productCostTotal st)
        (rtsRtoReversalTotal st)
        (if Js.positive shippingCost
         then {[orderId]} ∪ uniqueShippingOrders st
         else uniqueShippingOrders st)
        (uniqueProductAmountOrders st) (uniqueCodOrders st) (rows st).

Definition addCod (st : Acc) (codReceived : Q) (orderId : string) : Acc :=
  mkAcc (shippingTotal st) (codTotal st + codReceived)%Q (productCostTotal st)
        (rtsRtoReversalTotal st) (uniqueShippingOrders st)
        (uniqueProductAmountOrders st) ({[orderId]} ∪ uniqueCodOrders st) (rows st).

Definition addProductCost (st : Acc) (productCost : Q) (orderId : string) : Acc :=
  mkAcc (shippingTotal st) (codTotal st) (productCostTotal st + productCost)%Q
        (rtsRtoReversalTotal st) (uniqueShippingOrders st)
        ({[orderId]} ∪ uniqueProductAmountOrders st) (uniqueCodOrders st) (rows st).

Definition pushRow (st : Acc) (r : PayoutRow.t) : Acc :=
  mkAcc (shippingTotal st) (codTotal st) (productCostTotal st)
        (rtsRtoReversalTotal st) (uniqueShippingOrders st)
        (uniqueProductAmountOrders st) (uniqueCodOrders st) (rows st ++ [r])%list.

(** [shippingCost] of a line that is not skipped. *)
Definition shippingCostOf (o : OrderData.t) : Q :=
  if inOrderDateRange o && negb (isCancelled o)
  then Js.round2 (inject_Z (OrderData.qty o) * flatShippingRate prices rateMap o)%Q
  else 0%Q.

(** [codReceived] of a line that is not skipped. *)
Definition codReceivedOf (o : OrderData.t) : Q :=
  if isDelivered o && inDeliveredDateRange o
  then if isCodOrder o then Js.orElse (parseFloat (OrderData.productValue o)) 0%Q else 0%Q
  else 0%Q.

(** [productCost] of a line that is not skipped. *)
Definition productCostOf (o : OrderData.t) : Q :=
  if isDelivered o && inDeliveredDateRange o
  then (inject_Z (OrderData.qty o) * resolveUnitCost priceMap o)%Q
  else 0%Q.

Definition deliveredQtyOf (o : OrderData.t) : Z :=
  if isDelivered o && inDeliveredDateRange o then OrderData.qty o else 0.

(** [adjustmentAmount]: the reconciliation branch of the loop body is
    empty, so it stays [0]. *)
Definition adjustmentAmount : Q := 0%Q.

(** [codReceived / (order.qty || 1)], rounded to two places; the
    quotient is exact here and a binary64 value in the program. *)
Definition perUnit (codReceived : Q) (qty : Z) : Q :=
  Js.round2 (codReceived / inject_Z (if (qty =? 0)%Z then 1 else qty))%Q.

(** The object pushed onto [rows]. *)
Definition payoutRow (o : OrderData.t) : PayoutRow.t :=
  let shippingCost := shippingCostOf o in
  let codReceived := codReceivedOf o in
  let productCost := productCostOf o in
  PayoutRow.mk
    (OrderData.orderId o) (OrderData.waybill o) (OrderData.productUid o)
    (OrderData.dropshipperEmail o) (OrderData.shippingProvider o)
    (OrderData.qty o) (OrderData.status o)
    (perUnit codReceived (OrderData.qty o))
    (resolveUnitCost priceMap o)
    (displayShippingRate prices rateMap o)
    shippingCost
    productCost
    (codReceived - shippingCost - productCost + adjustmentAmount)%Q
    (deliveredQtyOf o)
    (Js.round2 codReceived).

(** One turn of the inner loop. *)
Definition processItem (st : Acc) (o : OrderData.t) : Acc :=
  if isCancelled o && inOrderDateRange o then st
  else
    let st1 :=
      if inOrderDateRange o && negb (isCancelled o)
      then addShipping st (shippingCostOf o) (OrderData.orderId o)
      else st in
    let st2 :=
      if isDelivered o && inDeliveredDateRange o
      then
        let st' :=
          if isCodOrder o
          then addCod st1 (codReceivedOf o) (OrderData.orderId o)
          else st1 in
        addProductCost st' (productCostOf o) (OrderData.orderId o)
      else st1 in
    pushRow st2 (payoutRow o).

End Item.

(** The state after both loops. *)
Definition runPayouts (db : Database) (req : PayoutCalculationRequest.t) : Acc :=
  let orders :=
    selectOrders (PayoutCalculationRequest.dropshipperEmail req) (orderData db) in
  let prices :=
    filterPrices (PayoutCalculationRequest.dropshipperEmail req) (productPrices db) in
  let priceMap := buildPriceMap prices in
  let rateMap := buildRateMap (shippingRates db) in
  foldl (processItem req prices priceMap rateMap) initAcc (visitOrder orders).

(** The summary.  The money fields round the exact totals; the
    program rounds its binary64 totals, which [Binary64.summarize]
    below has. *)
Definition summarize (st : Acc) : PayoutSummary.t :=
  let finalPayable :=
    Js.Math_round
      (codTotal st - shippingTotal st - productCostTotal st + rtsRtoReversalTotal st)%Q in
  PayoutSummary.mk
    (Js.Math_round (shippingTotal st))
    (Js.Math_round (codTotal st))
    (Js.Math_round (productCostTotal st))
    (Js.Math_round (rtsRtoReversalTotal st))
    finalPayable
    (size (uniqueShippingOrders st))
    (size (uniqueProductAmountOrders st))
    (size (uniqueCodOrders st))
    (length (rows st)).

Definition calculatePayouts (db : Database) (req : PayoutCalculationRequest.t)
    : PayoutResult :=
  let st := runPayouts db req in
  mkPayoutResult (summarize st) (rows st) [].

End Engine.

(** *** Notions used to state what the loops compute *)

Fixpoint sumQ (l : list Q) : Q :=
  match l with
  | [] => 0%Q
  | x :: r => (x + sumQ r)%Q
  end.

Section Contributions.

Variable parseDate : string -> option Timestamp.
Variable req : PayoutCalculationRequest.t.
Variable prices : list ProductPrice.t.
Variable rateMap : list (string * Q).

(** The line items that are not left with [continue]. *)
Definition kept (items : list OrderData.t) : list OrderData.t :=
  List.filter (fun o => negb (skipped parseDate req o)) items.

(** The line items that put their order into [uniqueShippingOrders]. *)
Definition chargesShipping (o : OrderData.t) : bool :=
  negb (isCancelled o) && inOrderDateRange parseDate req o &&
  Js.positive (shippingCostOf parseDate req prices rateMap o).

(** The line items that put their order into
    [uniqueProductAmountOrders]. *)
Definition countsProduct (o : OrderData.t) : bool :=
  negb (skipped parseDate req o) && isDelivered o &&
  inDeliveredDateRange parseDate req o.

(** The line items that put their order into [uniqueCodOrders]. *)
Definition countsCod (o : OrderData.t) : bool :=
  countsProduct o && isCodOrder o.

End Contributions.

(** ** The money totals in binary64

    The four running totals of [calculatePayouts] and the money fields
    of its summary, on IEEE 754 binary64 numbers, each operation
    rounded as the program rounds it.  The tests on statuses, dates and
    payment modes, the keys of the two maps and the order in which the
    lines are visited are those of the engine above. *)
Module Binary64.

Definition number : Set := PrimFloat.float.

(** An integer as a number: exact below [2^53] in absolute value, which
    covers the [int] columns and the [decimal(10,2)] columns counted in
    hundredths. *)
Definition ofInt (z : Z) : number :=
  if (z <? 0)%Z then PrimFloat.opp (PrimFloat.of_uint63 (Uint63.of_Z (- z)))
  else PrimFloat.of_uint63 (Uint63.of_Z z).

(** [parseFloat(s)] and [Number(s)] on the text of a [decimal(10,2)]
    column: the number nearest to the decimal, which is the correctly
    rounded quotient of its hundredths by 100. *)
Definition parseFloat (d : Decimal2) : number := PrimFloat.div (ofInt d) (ofInt 100).

(** [x || d]: [0], [-0] and [NaN] are falsy. *)
Definition orElse (x d : number) : number :=
  if PrimFloat.is_zero x || PrimFloat.is_nan x then d else x.

(** [m.get(k) || d]. *)
Definition getOrElse (x : option number) (d : number) : number :=
  match x with
  | Some v => orElse v d
  | None => d
  end.

(** [x > 0]. *)
Definition positive (x : number) : bool := PrimFloat.ltb (ofInt 0) x.

(** [x === 0]. *)
Definition isZero (x : number) : bool := PrimFloat.eqb x (ofInt 0).

(** The exact value of a finite number. *)
Definition toQ (x : number) : option Q :=
  match FloatOps.Prim2SF x with
  | SpecFloat.S754_zero _ => Some 0%Q
  | SpecFloat.S754_finite s m e =>
      Some ((if s then -1 else 1) * inject_Z (Z.pos m) * Qpower 2 e)%Q
  | _ => None
  end.

(** [Math.round]: the integer nearest to the exact value, halves
    towards plus infinity; a number of magnitude [2^52] or more is an
    integer already, and [NaN] and the infinities are returned as they
    are. *)
Definition Math_round (x : number) : number :=
  if PrimFloat.leb (ofInt 4503599627370496) (PrimFloat.abs x) then x
  else
    match toQ x with
    | Some q =>
        let n := Qfloor (q + (1 # 2)) in
        if (n =? 0)%Z && PrimFloat.get_sign x then PrimFloat.opp (ofInt 0) else ofInt n
    | None => x
    end.

(** [rateMap] and [priceMap] with the numbers [parseFloat] returns. *)
Definition buildPriceMap (prices : list ProductPrice.t) : gmap string number :=
  foldl
    (fun m p =>
       <[priceKey (ProductPrice.dropshipperEmail p) (ProductPrice.productUid p)
         := parseFloat (ProductPrice.productCostPerUnit p)]> m)
    ∅ prices.

Definition buildRateMap (rates : list ShippingRate.t) : list (string * number) :=
  foldl
    (fun m r =>
       Js.mapSet m
         (rateKey (ShippingRate.productUid r) (ShippingRate.productWeight r)
                  (ShippingRate.shippingProvider r))
         (parseFloat (ShippingRate.shippingRatePerKg r)))
    [] rates.

Definition exactRate (prices : list ProductPrice.t) (rateMap : list (string * number))
    (o : OrderData.t) : number :=
  let exactKey :=
    rateKey (OrderData.productUid o) (productWeight prices o)
            (OrderData.shippingProvider o) in
  let r := getOrElse (Js.mapGet rateMap exactKey) (ofInt 0) in
  if positive r then r else ofInt 0.

Fixpoint anyWeightRate (entries : list (string * number)) (o : OrderData.t)
    : option number :=
  match entries with
  | [] => None
  | (key, rate) :: rest =>
      match Js.splitPipe key with
      | uid :: _ :: provider :: _ =>
          if String.eqb uid (OrderData.productUid o) &&
             String.eqb provider (OrderData.shippingProvider o) &&
             positive rate
          then Some rate
          else anyWeightRate rest o
      | _ => anyWeightRate rest o
      end
  end.

Definition flatShippingRate (prices : list ProductPrice.t)
    (rateMap : list (string * number)) (o : OrderData.t) : number :=
  let r := exactRate prices rateMap o in
  if isZero r then default (ofInt 0) (anyWeightRate rateMap o) else r.

(** The four running totals. *)
Record Totals := mkTotals {
  shippingTotal : number;
  codTotal : number;
  productCostTotal : number;
  rtsRtoReversalTotal : number
}.

Definition initTotals : Totals := mkTotals (ofInt 0) (ofInt 0) (ofInt 0) (ofInt 0).

Module PayoutSummary.
Record t := mk {
  shippingTotal : number;
  codTotal : number;
  productCostTotal : number;
  rtsRtoReversalTotal : number;
  finalPayable : number
}.
End PayoutSummary.

Section Engine.

Variable parseDate : string -> option Timestamp.
Variable req : PayoutCalculationRequest.t.
Variable prices : list ProductPrice.t.
Variable priceMap : gmap string number.
Variable rateMap : list (string * number).

(** [Math.round(order.qty * flatShippingRate * 100) / 100]. *)
Definition shippingCostOf (o : OrderData.t) : number :=
  PrimFloat.div
    (Math_round
       (PrimFloat.mul
          (PrimFloat.mul (ofInt (OrderData.qty o)) (flatShippingRate prices rateMap o))
          (ofInt 100)))
    (ofInt 100).

(** [Number(order.productValue) || 0]. *)
Definition codReceivedOf (o : OrderData.t) : number :=
  orElse (parseFloat (OrderData.productValue o)) (ofInt 0).

(** [order.qty * (priceMap.get(key) || 0)]. *)
Definition productCostOf (o : OrderData.t) : number :=
  PrimFloat.mul
    (ofInt (OrderData.qty o))
    (getOrElse
       (priceMap !! priceKey (OrderData.dropshipperEmail o) (OrderData.productUid o))
       (ofInt 0)).

(** One turn of the inner loop, on the totals. *)
Definition processItem (st : Totals) (o : OrderData.t) : Totals :=
  if isCancelled o && inOrderDateRange parseDate req o then st
  else
    let st1 :=
      if inOrderDateRange parseDate req o && negb (isCancelled o)
      then mkTotals (PrimFloat.add (shippingTotal st) (shippingCostOf o))
                    (codTotal st) (productCostTotal st) (rtsRtoReversalTotal st)
      else st in
    if isDelivered o && inDeliveredDateRange parseDate req o
    then
      let st2 :=
        if isCodOrder o
        then mkTotals (shippingTotal st1)
                      (PrimFloat.add (codTotal st1) (codReceivedOf o))
                      (productCostTotal st1) (rtsRtoReversalTotal st1)
        else st1 in
      mkTotals (shippingTotal st2) (codTotal st2)
               (PrimFloat.add (productCostTotal st2) (productCostOf o))
               (rtsRtoReversalTotal st2)
    else st1.

End Engine.

(** The totals after both loops. *)
Definition runPayouts (parseDate : string -> option Timestamp) (db : Database)
    (req : PayoutCalculationRequest.t) : Totals :=
  let orders :=
    selectOrders (PayoutCalculationRequest.dropshipperEmail req) (orderData db) in
  let prices :=
    filterPrices (PayoutCalculationRequest.dropshipperEmail req) (productPrices db) in
  foldl (processItem parseDate req prices (buildPriceMap prices)
                     (buildRateMap (shippingRates db)))
        initTotals (visitOrder orders).

(** The money fields of the returned summary. *)
Definition summarize (st : Totals) : PayoutSummary.t :=
  let finalPayable :=
    Math_round
      (PrimFloat.add
         (PrimFloat.sub (PrimFloat.sub (codTotal st) (shippingTotal st))
                        (productCostTotal st))
         (rtsRtoReversalTotal st)) in
  PayoutSummary.mk
    (Math_round (shippingTotal st))
    (Math_round (codTotal st))
    (Math_round (productCostTotal st))
    (Math_round (rtsRtoReversalTotal st))
    finalPayable.

(** A total as the loop builds it: from [0], one [+=] per amount, left
    to right. *)
Definition accumulate (start : number) (amounts : list number) : number :=
  foldl PrimFloat.add start amounts.

End Binary64.

(** ** RTS/RTO detection and reconciliation *)

Module DetectParams.
Record t := mk {
  orderDateFrom : string;
  orderDateTo : string;
  dropshipperEmail : option string
}.
End DetectParams.

Inductive Confidence := high | medium | low.

(** A suggestion as returned, without its [reason] text. *)
Module Suggestion.
Record t := mk {
  orderId : string;
  waybill : option string;
  dropshipperEmail : string;
  productUid : string;
  suggestedReversalAmount : Q;
  originalPaidAmount : Q;
  rtsRtoStatus : string;
  confidence : Confidence;
  previousStatus : option string;
  statusChangeDetected : bool
}.
End Suggestion.

(** [['RTS', 'RTO', 'RTO-Dispatched', 'RTO-IT'].includes(status)]. *)
Definition rtsRtoStatuses : list string := ["RTS"; "RTO"; "RTO-Dispatched"; "RTO-IT"].

Definition isRtsRtoStatus (status : string) : bool :=
  existsb (String.eqb status) rtsRtoStatuses.

(** The test on the earlier snapshot of a pair. *)
Definition looksDelivered (status : string) : bool :=
  Js.includes (Js.toLowerCase status) "delivered" ||
  Js.includes (Js.toLowerCase status) "del".

(** The value of a decimal digit, and below of a run of digits. *)
Definition digitValue (c : ascii) : option Z :=
  let n := nat_of_ascii c in
  if ((48 <=? n)%nat && (n <=? 57)%nat)%bool then Some (Z.of_nat (n - 48)) else None.

Fixpoint digitsValue (acc : Z) (s : string) : option Z :=
  match s with
  | EmptyString => Some acc
  | String c r =>
      match digitValue c with
      | Some d => digitsValue (10 * acc + d) r
      | None => None
      end
  end.

(** A number as [Number(text)] gives it. *)
Inductive JsNumber :=
  | NaN
  | Finite (value : Q)
  | PlusInfinity
  | MinusInfinity.

(** [x - y].  The program rounds the difference of two finite numbers;
    its sign, which is all that a sort reads of it, is the sign of the
    exact difference. *)
Definition minus (x y : JsNumber) : JsNumber :=
  match x, y with
  | NaN, _ | _, NaN => NaN
  | Finite a, Finite b => Finite (a - b)
  | PlusInfinity, PlusInfinity | MinusInfinity, MinusInfinity => NaN
  | PlusInfinity, _ | _, MinusInfinity => PlusInfinity
  | MinusInfinity, _ | _, PlusInfinity => MinusInfinity
  end.

(** What [sort] makes of the result of its comparator: [NaN] is read
    as [+0]. *)
Definition sortOrder (v : JsNumber) : Q :=
  match v with
  | NaN => 0
  | Finite q => q
  | PlusInfinity => 1
  | MinusInfinity => -1
  end.

(** The scan over consecutive snapshots: the status of the first
    earlier snapshot whose successor is a return status. *)
Fixpoint detectTransition (orderHistory : list OrderData.t) : option string :=
  match orderHistory with
  | prevOrder :: (nextOrder :: _) as rest =>
      if looksDelivered (OrderData.status prevOrder) &&
         isRtsRtoStatus (OrderData.status nextOrder)
      then Some (OrderData.status prevOrder)
      else detectTransition rest
  | _ => None
  end.

(** [parseFloat(currentOrder.codAmount) || 0]: a row of [order_data]
    has no [codAmount] property, [parseFloat(undefined)] is [NaN], and
    the value is [0]. *)
Definition codAmountOf (o : OrderData.t) : Q := 0%Q.

(** [Math.max(0, codAmount - 25 - codAmount * 0.3)]. *)
Definition estimatedReversal (codAmount : Q) : Q :=
  Js.Math_max 0 (codAmount - 25 - codAmount * (3 # 10))%Q.

Definition confidenceOrder (c : Confidence) : Z :=
  match c with
  | high => 3
  | medium => 2
  | low => 1
  end.

Definition compareSuggestions (a b : Suggestion.t) : Q :=
  if (confidenceOrder (Suggestion.confidence a) =?
      confidenceOrder (Suggestion.confidence b))%Z
  then (Suggestion.suggestedReversalAmount b - Suggestion.suggestedReversalAmount a)%Q
  else inject_Z (confidenceOrder (Suggestion.confidence b) -
                 confidenceOrder (Suggestion.confidence a)).

(** [payoutMap]: for each order identifier the last payout row that
    names it, in the order of the query result. *)
Definition buildPayoutMap (payouts : list PayoutLog.t) : gmap string PayoutLog.t :=
  foldl (fun m p => <[PayoutLog.orderId p := p]> m) ∅ payouts.

Section Detector.

Variable parseDate : string -> option Timestamp.

(** [Number(text)], which [a.id - b.id] applies to the two row
    identifiers.  A row identifier is a UUID ([randomUUID()], in
    [insertOrderData]), and [Number] of a UUID is [NaN]. *)
Variable toNumber : string -> JsNumber.

(** The comparator [(a, b) => a.id - b.id].  It is a consistent order
    when the identifiers are all numbers or none is; [sort] is then
    the stable sort. *)
Definition compareById (a b : OrderData.t) : Q :=
  sortOrder (minus (toNumber (OrderData.id a)) (toNumber (OrderData.id b))).

(** The four-way ladder for one current row.  The source sorts the
    order's history array in place on every turn; sorting a sorted
    array again changes nothing, so the history is sorted from the
    order of the query result each time. *)
Definition suggest (orderStatusHistory : list (string * list OrderData.t))
    (payoutMap : gmap string PayoutLog.t) (currentOrder : OrderData.t)
    : Suggestion.t :=
  let orderHistory :=
    Js.sort compareById
      (default [] (Js.mapGet orderStatusHistory (OrderData.orderId currentOrder))) in
  let previousDeliveredStatus := detectTransition orderHistory in
  let statusChangeDetected := bool_decide (is_Some previousDeliveredStatus) in
  let priorPayout := payoutMap !! OrderData.orderId currentOrder in
  let codAmount := codAmountOf currentOrder in
  let '(conf, suggested, original) :=
    match statusChangeDetected, priorPayout with
    | true, Some p =>
        (high, parseFloat (PayoutLog.paidAmount p), parseFloat (PayoutLog.paidAmount p))
    | true, None => (high, estimatedReversal codAmount, 0%Q)
    | false, Some p =>
        (medium, parseFloat (PayoutLog.paidAmount p), parseFloat (PayoutLog.paidAmount p))
    | false, None => (low, estimatedReversal codAmount, 0%Q)
    end in
  Suggestion.mk
    (OrderData.orderId currentOrder) (OrderData.waybill currentOrder)
    (OrderData.dropshipperEmail currentOrder) (OrderData.productUid currentOrder)
    (Js.round2 suggested) (Js.round2 original)
    (OrderData.status currentOrder) conf previousDeliveredStatus statusChangeDetected.

(** The rows that currently carry a return status, within the order
    window. *)
Definition currentRtsRtoOrders (params : DetectParams.t)
    (allOrders : list OrderData.t) : list OrderData.t :=
  List.filter
    (fun o =>
       isRtsRtoStatus (OrderData.status o) &&
       notBefore (OrderData.orderDate o) (parseDate (DetectParams.orderDateFrom params)) &&
       notAfter (OrderData.orderDate o) (parseDate (DetectParams.orderDateTo params)))
    allOrders.

(** The loop over the current rows: a reconciled order is passed over,
    any other row pushes one suggestion. *)
Definition collectSuggestions (reconciledSet : gset string)
    (orderStatusHistory : list (string * list OrderData.t))
    (payoutMap : gmap string PayoutLog.t)
    (current : list OrderData.t) : list Suggestion.t :=
  foldl
    (fun suggestions currentOrder =>
       if bool_decide (OrderData.orderId currentOrder ∈ reconciledSet)
       then suggestions
       else (suggestions ++ [suggest orderStatusHistory payoutMap currentOrder])%list)
    [] current.

(** The rows the detector reads: the whole table, or the rows of one
    dropshipper. *)
Definition detectScope (db : Database) (params : DetectParams.t) : list OrderData.t :=
  match truthy (DetectParams.dropshipperEmail params) with
  | Some d =>
      List.filter (fun o => String.eqb (OrderData.dropshipperEmail o) d) (orderData db)
  | None => orderData db
  end.

(** [inArray(column, orderIds)]; with no identifier the query is
    replaced by the empty list, which is what the filter gives. *)
Definition inArray (orderIds : list string) (orderId : string) : bool :=
  existsb (String.eqb orderId) orderIds.

Definition reconciledSetFor (db : Database) (orderIds : list string) : gset string :=
  list_to_set
    (map RtsRtoReconciliation.orderId
       (List.filter (fun r => inArray orderIds (RtsRtoReconciliation.orderId r))
                    (rtsRtoReconciliation db))).

Definition payoutMapFor (db : Database) (orderIds : list string)
    : gmap string PayoutLog.t :=
  buildPayoutMap
    (List.filter (fun p => inArray orderIds (PayoutLog.orderId p)) (payoutLog db)).

Definition autoDetectRtsRtoReconciliations (db : Database) (params : DetectParams.t)
    : list Suggestion.t :=
  let allOrders := detectScope db params in
  let orderStatusHistory := groupOrders allOrders in
  let current := currentRtsRtoOrders params allOrders in
  let orderIds := map OrderData.orderId current in
  let reconciledSet := reconciledSetFor db orderIds in
  let payoutMap := payoutMapFor db orderIds in
  Js.sort compareSuggestions
    (collectSuggestions reconciledSet orderStatusHistory payoutMap current).

End Detector.

(** The snapshots of one order as the detector scans them. *)
Definition historyOf (toNumber : string -> JsNumber) (db : Database)
    (params : DetectParams.t) (orderId : string) : list OrderData.t :=
  Js.sort (compareById toNumber)
    (default [] (Js.mapGet (groupOrders (detectScope db params)) orderId)).

(** The rows of one order among those the detector reads, in the order
    in which the query returns them. *)
Definition rowsOf (db : Database) (params : DetectParams.t) (orderId : string)
    : list OrderData.t :=
  List.filter (fun o => String.eqb (OrderData.orderId o) orderId) (detectScope db params).

(** No row identifier of the table reads as a number. *)
Definition idsAreNotNumbers (toNumber : string -> JsNumber) (db : Database) : Prop :=
  forall r, In r (orderData db) -> toNumber (OrderData.id r) = NaN.

(** The payout the detector finds for an order: the last row of the
    payout log, in the order of the query result, that names it. *)
(** The payout the detector finds for an order: the last one logged. *)
Definition priorPayout (db : Database) (orderId : string) : option PayoutLog.t :=
  last (List.filter (fun p => String.eqb (PayoutLog.orderId p) orderId) (payoutLog db)).



(** [processRtsRtoReconciliation]: insert the record under a fresh
    [id] and read it back.  [None] stands for the thrown error: the
    insert is refused when the primary key is taken. *)
Definition processRtsRtoReconciliation (db : Database) (id : string)
    (data : InsertRtsRtoReconciliation.t)
    : Database * option RtsRtoReconciliation.t :=
  if existsb (fun r => String.eqb (RtsRtoReconciliation.id r) id)
             (rtsRtoReconciliation db)
  then (db, None)
  else
    let row :=
      RtsRtoReconciliation.mk id
        (InsertRtsRtoReconciliation.orderId data)
        (InsertRtsRtoReconciliation.waybill data)
        (InsertRtsRtoReconciliation.dropshipperEmail data)
        (InsertRtsRtoReconciliation.productUid data)
        (InsertRtsRtoReconciliation.originalPaidAmount data)
        (InsertRtsRtoReconciliation.reversalAmount data)
        (InsertRtsRtoReconciliation.rtsRtoStatus data)
        (InsertRtsRtoReconciliation.notes data)
        (default "pending" (InsertRtsRtoReconciliation.status data)) in
    let db' :=
      mkDatabase (orderData db) (productPrices db) (shippingRates db) (payoutLog db)
                 (rtsRtoReconciliation db ++ [row])%list in
    (db', List.find (fun r => String.eqb (RtsRtoReconciliation.id r) id)
                    (rtsRtoReconciliation db')).

(** ** A concrete calendar and sample data *)

(** Days between 1970-01-01 and a civil date. *)
Definition daysFromCivil (y m d : Z) : Z :=
  let y' := if (m <=? 2)%Z then y - 1 else y in
  let era := y' / 400 in
  let yoe := y' - era * 400 in
  let mp := if (2 <? m)%Z then m - 3 else m + 9 in
  let doy := (153 * mp + 2) / 5 + d - 1 in
  let doe := yoe * 365 + yoe / 4 - yoe / 100 + doy in
  era * 146097 + doe - 719468.

Definition digitsAt (s : string) (start len : nat) : option Z :=
  let f := substring start len s in
  if (String.length f =? len)%nat then digitsValue 0 f else None.

Definition charAt (s : string) (i : nat) (c : ascii) : bool :=
  match String.get i s with
  | Some c' => Ascii.eqb c c'
  | None => false
  end.

(** An instance of the date reader: [YYYY-MM-DD], optionally followed
    by [ HH:MM:SS], read as UTC. *)
Definition utcDate (s : string) : option Timestamp :=
  y ← digitsAt s 0 4;
  m ← digitsAt s 5 2;
  d ← digitsAt s 8 2;
  if charAt s 4 "-" && charAt s 7 "-" then
    let day := (daysFromCivil y m d * 86400000)%Z in
    if (String.length s =? 10)%nat then Some day
    else if (String.length s =? 19)%nat && charAt s 10 " " &&
            charAt s 13 ":" && charAt s 16 ":" then
      h ← digitsAt s 11 2;
      mi ← digitsAt s 14 2;
      se ← digitsAt s 17 2;
      Some (day + ((h * 60 + mi) * 60 + se) * 1000)%Z
    else None
  else None.

Module Sample.

Definition january : PayoutCalculationRequest.t :=
  PayoutCalculationRequest.mk "2024-01-01" "2024-01-31" "2024-01-01" "2024-01-31" None.

(** Midnight UTC of a day of January 2024. *)
Definition jan (day : Z) : Timestamp := ((19722 + day) * 86400000)%Z.

Definition line (id orderId : string) (qty : Z) (value : Decimal2)
    (mode : option string) (status : string) (delivered : option Timestamp)
    (carrier : string) : OrderData.t :=
  OrderData.mk id "seller@example.com" orderId (jan 10) None "Lamp" None "lamp"
               qty value mode status delivered None carrier.

Definition lampPrice (cost : Decimal2) : ProductPrice.t :=
  ProductPrice.mk "seller@example.com" "lamp" (Some "0.500") cost.

Definition lampPrices : list ProductPrice.t := [lampPrice 5000].

Definition lampCosts : gmap string Q := buildPriceMap lampPrices.

Definition lampRate (carrier : string) (rate : Decimal2) : ShippingRate.t :=
  ShippingRate.mk "lamp" "0.500" carrier rate.

Definition store (orders : list OrderData.t) (prices : list ProductPrice.t)
    (rates : list ShippingRate.t) : Database :=
  mkDatabase orders prices rates [] [].

(** Four lamps shipped with Delhivery, no shipping rate configured. *)
Definition unratedLine : OrderData.t :=
  line "00000000-0000-4000-8000-000000000001" "X1" 4 40000 (Some "COD") "Shipped"
       None "Delhivery".

Definition unratedStore : Database := store [unratedLine] lampPrices [].

(** Three cancelled lamps, with a rate configured for the carrier. *)
Definition cancelledLine : OrderData.t :=
  line "00000000-0000-4000-8000-000000000002" "K1" 3 30000 (Some "COD") "Cancelled"
       None "Delhivery".

Definition cancelledStore : Database :=
  store [cancelledLine] lampPrices [lampRate "Delhivery" 4000].

(** Two lamps, prepaid and delivered, unit cost 50. *)
Definition prepaidLine : OrderData.t :=
  line "00000000-0000-4000-8000-000000000003" "P1" 2 19900 (Some "Prepaid")
       "Delivered" (Some (jan 12)) "Delhivery".

Definition prepaidStore : Database := store [prepaidLine] lampPrices [].

(** Two lamps, cash on delivery, delivered; the line is worth 199.00. *)
Definition codLine : OrderData.t :=
  line "00000000-0000-4000-8000-000000000004" "D1" 2 19900 (Some "COD")
       "Delivered" (Some (jan 12)) "Delhivery".

Definition codStore : Database := store [codLine] lampPrices [].

(** One delivered cash line worth 1000.60, shipped at 200.40, costing
    50.00. *)
Definition roundingLine : OrderData.t :=
  line "00000000-0000-4000-8000-000000000006" "R1" 1 100060 (Some "COD")
       "Delivered" (Some (jan 12)) "Delhivery".

Definition roundingStore : Database :=
  store [roundingLine] lampPrices [lampRate "Delhivery" 20040].

Definition snapshot (id orderId status : string) : OrderData.t :=
  line id orderId 1 30000 (Some "COD") status None "Delhivery".

Definition payout (orderId : string) (amount : Decimal2) : PayoutLog.t :=
  PayoutLog.mk "00000000-0000-4000-8000-0000000000f1" orderId None
               "seller@example.com" "lamp" amount.

Definition window : DetectParams.t := DetectParams.mk "2024-01-01" "2024-01-31" None.

(** [Number] on the row identifiers of the samples: each is a UUID,
    which is no numeric literal. *)
Definition uuidNumber (id : string) : JsNumber := NaN.

(** Order A1 seen delivered, then returned; 300 was paid out. *)
Definition a1Store : Database :=
  mkDatabase
    [snapshot "00000000-0000-4000-8000-0000000000a1" "A1" "Delivered";
     snapshot "00000000-0000-4000-8000-0000000000a2" "A1" "RTO"]
    [] [] [payout "A1" 30000] [].



(** Order A1 as above, and order B1 seen returned only. *)
Definition twoOrderStore : Database :=
  mkDatabase
    [snapshot "00000000-0000-4000-8000-0000000000a1" "A1" "Delivered";
     snapshot "00000000-0000-4000-8000-0000000000a2" "A1" "RTO";
     snapshot "00000000-0000-4000-8000-0000000000b1" "B1" "RTS"]
    [] [] [payout "A1" 30000] [].

Definition a1Confirmation : InsertRtsRtoReconciliation.t :=
  InsertRtsRtoReconciliation.mk "A1" None "seller@example.com" "lamp" 30000 30000
                                "RTO" None None.

(** The store after the reversal for A1 has been confirmed. *)
Definition confirmedStore : Database :=
  fst (processRtsRtoReconciliation twoOrderStore
         "00000000-0000-4000-8000-0000000000c1" a1Confirmation).

End Sample.

(** *** Notions used to state what the detector returns *)

(** [a] may stand before [b] in the sorted answer: higher confidence
    first, then the larger reversal. *)
Definition mayPrecede (a b : Suggestion.t) : Prop :=
  (confidenceOrder (Suggestion.confidence b) < confidenceOrder (Suggestion.confidence a))%Z \/
  (Suggestion.confidence a = Suggestion.confidence b /\
   (Suggestion.suggestedReversalAmount b <= Suggestion.suggestedReversalAmount a)%Q).

(** ** Configuration gaps ([getMissingPricesAndRates]) *)

Module MissingPrice.
Record t := mk {
  dropshipperEmail : string;
  productUid : string;
  productName : string;
  sku : option string
}.
End MissingPrice.

Record MissingReport := mkMissingReport {
  missingPrices : list MissingPrice.t;
  missingRates : list string
}.

(** The key of [existingRates], [productUid + productWeight + "kg" +
    shippingProvider], written without separators. *)
Definition missingRateKey (uid weight provider : string) : string :=
  uid ++ weight ++ "kg" ++ provider.

Definition existingPrices (prices : list ProductPrice.t) : gset string :=
  list_to_set
    (map (fun p => priceKey (ProductPrice.dropshipperEmail p) (ProductPrice.productUid p))
         prices).

Definition existingRates (rates : list ShippingRate.t) : gset string :=
  list_to_set
    (map (fun r => missingRateKey (ShippingRate.productUid r)
                                  (ShippingRate.productWeight r)
                                  (ShippingRate.shippingProvider r))
         rates).

(** [set.add(x)] on a [Set<string>] whose iteration order is observed. *)
Definition setAdd (s : list string) (x : string) : list string :=
  if existsb (String.eqb x) s then s else (s ++ [x])%list.

Definition toMissingPrice (o : OrderData.t) : MissingPrice.t :=
  MissingPrice.mk (OrderData.dropshipperEmail o) (OrderData.productUid o)
                  (OrderData.productName o) (OrderData.sku o).

Definition isExcluded (o : OrderData.t) : bool :=
  existsb (String.eqb (Js.toLowerCase (OrderData.dropshipperEmail o))) excludedEmails.

Definition orderPriceKey (o : OrderData.t) : string :=
  priceKey (OrderData.dropshipperEmail o) (OrderData.productUid o).

Definition orderRateKey (prices : list ProductPrice.t) (o : OrderData.t) : string :=
  missingRateKey (OrderData.productUid o) (productWeight prices o)
                 (OrderData.shippingProvider o).

(** One turn of [orders.forEach]: the state is [uniqueProducts] and
    [uniqueProviders]. *)
Definition noteMissing (prices : list ProductPrice.t) (rates : list ShippingRate.t)
    (st : list (string * MissingPrice.t) * list string) (o : OrderData.t)
    : list (string * MissingPrice.t) * list string :=
  if isExcluded o then st
  else
    let uniqueProducts :=
      if bool_decide (orderPriceKey o ∈ existingPrices prices)
      then fst st
      else Js.mapSet (fst st) (orderPriceKey o) (toMissingPrice o) in
    let uniqueProviders :=
      if bool_decide (orderRateKey prices o ∈ existingRates rates)
      then snd st
      else setAdd (snd st) (orderRateKey prices o) in
    (uniqueProducts, uniqueProviders).

(** [getAllOrderData]: every row of [order_data], by order date, the
    latest first.  SQL leaves the order among rows of one date to the
    server; they are taken in table order here. *)
Definition getAllOrderData (db : Database) : list OrderData.t :=
  Js.sort (fun a b => inject_Z (OrderData.orderDate b - OrderData.orderDate a))
          (orderData db).

Definition getMissingPricesAndRates (db : Database) : MissingReport :=
  let st :=
    foldl (noteMissing (productPrices db) (shippingRates db)) ([], [])
          (getAllOrderData db) in
  mkMissingReport (map snd (fst st)) (snd st).

(** ** The product price table ([getProductPrice], [upsertProductPrice],
    [bulkUpsertProductPrices], [deleteProductPrice]) *)

(** A whole row of [product_prices]. *)
Module ProductPriceRow.
Record t := mk {
  id : string;
  dropshipperEmail : string;
  productUid : string;
  productName : string;
  sku : option string;
  productWeight : option string;
  productCostPerUnit : Decimal2;
  currency : string;
  updatedAt : Timestamp
}.
End ProductPriceRow.

(** [InsertProductPrice] after the insert schema has run: weight and
    cost are numbers, the weight may be null; [sku] may be left out
    ([None]) or be null ([Some None]); [currency] may be left out. *)
Module InsertProductPrice.
Record t := mk {
  dropshipperEmail : string;
  productUid : string;
  productName : string;
  sku : option (option string);
  productWeight : option Q;
  productCostPerUnit : Q;
  currency : option string
}.
End InsertProductPrice.

Section PriceTable.

(** The comparison [=] of the text columns, which the collation of the
    database fixes. *)
Variable sqlEq : string -> string -> bool.

(** What a [decimal(10,2)] and a [decimal(8,3)] column keep of a
    number written to them. *)
Variable toDecimal2 : Q -> Decimal2.
Variable toDecimal3 : Q -> string.

(** [and(eq(dropshipperEmail, e), eq(productUid, u))]. *)
Definition matchesKey (e u : string) (r : ProductPriceRow.t) : bool :=
  sqlEq (ProductPriceRow.dropshipperEmail r) e &&
  sqlEq (ProductPriceRow.productUid r) u.

(** [eq(productPrices.id, id)]. *)
Definition hasId (id : string) (r : ProductPriceRow.t) : bool :=
  sqlEq (ProductPriceRow.id r) id.

(** The first row with the given account and product. *)
Definition getProductPrice (tbl : list ProductPriceRow.t)
    (dropshipperEmail productUid : string) : option ProductPriceRow.t :=
  List.find (matchesKey dropshipperEmail productUid) tbl.

Definition deleteProductPrice (tbl : list ProductPriceRow.t) (id : string)
    : list ProductPriceRow.t :=
  List.filter (fun r => negb (hasId id r)) tbl.

(** [.set({ ...price, updatedAt: new Date() })]: a field left out of
    [price] keeps its value. *)
Definition updatedRow (r : ProductPriceRow.t) (now : Timestamp)
    (price : InsertProductPrice.t) : ProductPriceRow.t :=
  ProductPriceRow.mk
    (ProductPriceRow.id r)
    (InsertProductPrice.dropshipperEmail price)
    (InsertProductPrice.productUid price)
    (InsertProductPrice.productName price)
    (default (ProductPriceRow.sku r) (InsertProductPrice.sku price))
    (toDecimal3 <$> InsertProductPrice.productWeight price)
    (toDecimal2 (InsertProductPrice.productCostPerUnit price))
    (default (ProductPriceRow.currency r) (InsertProductPrice.currency price))
    now.

(** [.values({ ...price, id })]: a field left out takes the column
    default. *)
Definition insertedRow (id : string) (now : Timestamp)
    (price : InsertProductPrice.t) : ProductPriceRow.t :=
  ProductPriceRow.mk
    id
    (InsertProductPrice.dropshipperEmail price)
    (InsertProductPrice.productUid price)
    (InsertProductPrice.productName price)
    (default None (InsertProductPrice.sku price))
    (toDecimal3 <$> InsertProductPrice.productWeight price)
    (toDecimal2 (InsertProductPrice.productCostPerUnit price))
    (default "INR" (InsertProductPrice.currency price))
    now.

(** [update(productPrices).set(...).where(eq(productPrices.id, id))]. *)
Definition updateById (tbl : list ProductPriceRow.t) (id : string) (now : Timestamp)
    (price : InsertProductPrice.t) : list ProductPriceRow.t :=
  map (fun r => if hasId id r then updatedRow r now price else r) tbl.

(** [upsertProductPrice]: [id] is the identifier drawn should a row be
    inserted and [now] the time of the write.  The second component is
    the row read back; [None] stands for a thrown error. *)
Definition upsertProductPrice (tbl : list ProductPriceRow.t) (id : string)
    (now : Timestamp) (price : InsertProductPrice.t)
    : list ProductPriceRow.t * option ProductPriceRow.t :=
  match
    getProductPrice tbl (InsertProductPrice.dropshipperEmail price)
                    (InsertProductPrice.productUid price)
  with
  | Some existing =>
      let tbl' := updateById tbl (ProductPriceRow.id existing) now price in
      (tbl', List.find (hasId (ProductPriceRow.id existing)) tbl')
  | None =>
      if existsb (hasId id) tbl then (tbl, None)
      else
        let tbl' := (tbl ++ [insertedRow id now price])%list in
        (tbl', List.find (hasId id) tbl')
  end.

(** [bulkUpsertProductPrices]: one upsert after the other; an error
    ends the loop.  The flag tells whether the loop ran to its end. *)
Fixpoint bulkUpsertProductPrices (tbl : list ProductPriceRow.t)
    (prices : list (string * Timestamp * InsertProductPrice.t))
    : list ProductPriceRow.t * bool :=
  match prices with
  | [] => (tbl, true)
  | (id, now, price) :: rest =>
      match upsertProductPrice tbl id now price with
      | (tbl', Some _) => bulkUpsertProductPrices tbl' rest
      | (tbl', None) => (tbl', false)
      end
  end.

(** The rows of the table are told apart by [id] (the primary key). *)
Definition uniqueIds (tbl : list ProductPriceRow.t) : Prop :=
  ForallOrdPairs (fun a b => hasId (ProductPriceRow.id a) b = false) tbl.

(** No two rows are for the same account and product. *)
Definition uniqueProducts (tbl : list ProductPriceRow.t) : Prop :=
  ForallOrdPairs
    (fun a b =>
       matchesKey (ProductPriceRow.dropshipperEmail a) (ProductPriceRow.productUid a) b
       = false)
    tbl.

(** The ids handed to a run of upserts are new to the table and
    differ from one another. *)
Definition freshIds (tbl : list ProductPriceRow.t) (ids : list string) : Prop :=
  Forall (fun i => forall r, In r tbl -> hasId i r = false) ids /\
  ForallOrdPairs (fun i j => sqlEq i j = false) ids.

(** The last entry of a batch that is for the given account and
    product. *)
Fixpoint lastWrite (e u : string) (prices : list (string * Timestamp * InsertProductPrice.t))
    : option (string * Timestamp * InsertProductPrice.t) :=
  match prices with
  | [] => None
  | x :: rest =>
      match lastWrite e u rest with
      | Some y => Some y
      | None =>
          if sqlEq (InsertProductPrice.dropshipperEmail (snd x)) e &&
             sqlEq (InsertProductPrice.productUid (snd x)) u
          then Some x else None
      end
  end.

End PriceTable.

(** ** COD breakdown ([getCodBreakdownForRange]) *)

(** [String.prototype.toUpperCase], ASCII range. *)
Definition upperAscii (c : ascii) : ascii :=
  let n := nat_of_ascii c in
  if ((97 <=? n)%nat && (n <=? 122)%nat)%bool then ascii_of_nat (n - 32) else c.

Fixpoint toUpperCase (s : string) : string :=
  match s with
  | EmptyString => EmptyString
  | String c r => String (upperAscii c) (toUpperCase r)
  end.

Module CodDetail.
Record t := mk {
  orderId : string;
  deliveredDate : string;
  codAmount : Q;
  qty : Z;
  productName : string
}.
End CodDetail.

Module CodBreakdown.
Record t := mk {
  totalCod : Q;
  orderCount : nat;
  orders : list CodDetail.t
}.
End CodBreakdown.

Module CodRangeParams.
Record t := mk {
  deliveredDateFrom : string;
  deliveredDateTo : string;
  dropshipperEmail : option string
}.
End CodRangeParams.

(** [String(orderItems[0].mode || '').toUpperCase().trim()]. *)
Definition breakdownMode (o : OrderData.t) : string :=
  Js.trim (toUpperCase (default EmptyString (OrderData.mode o))).

(** [paymentMode === 'COD' || paymentMode === '' || !paymentMode]; the
    last two tests are the same test of a string. *)
Definition isCodMode (paymentMode : string) : bool :=
  String.eqb paymentMode "COD" || String.eqb paymentMode EmptyString.

(** [Number(orderItems[0].productValue) || 0]. *)
Definition rawProductValue (o : OrderData.t) : Q :=
  Js.orElse (parseFloat (OrderData.productValue o)) 0%Q.

Section CodBreakdownQuery.

(** [new Date(text).getTime()]; [None] is an invalid date. *)
Variable parseDate : string -> option Timestamp.

(** [date.toISOString().split('T')[0]]. *)
Variable isoDay : Timestamp -> string.

(** [column >= text] and [column <= text] of a timestamp column, as
    the database evaluates them. *)
Variable atLeast : Timestamp -> string -> bool.
Variable atMost : Timestamp -> string -> bool.

(** The [where] clause; a row without delivery date fails the two
    date tests. *)
Definition codRows (db : Database) (params : CodRangeParams.t) : list OrderData.t :=
  List.filter
    (fun o =>
       String.eqb (Js.toLowerCase (OrderData.status o)) "delivered" &&
       match OrderData.deliveredDate o with
       | Some d =>
           atLeast d (CodRangeParams.deliveredDateFrom params) &&
           atMost d (CodRangeParams.deliveredDateTo params ++ " 23:59:59")
       | None => false
       end &&
       negb (existsb (String.eqb (Js.toLowerCase (OrderData.dropshipperEmail o)))
                     excludedEmails) &&
       match truthy (CodRangeParams.dropshipperEmail params) with
       | Some e => String.eqb (OrderData.dropshipperEmail o) e
       | None => true
       end)
    (orderData db).

(** One entry of [orderDetails]. *)
Definition codDetail (orderProductValue : Q) (order : OrderData.t) : CodDetail.t :=
  CodDetail.mk
    (OrderData.orderId order)
    (match OrderData.deliveredDate order with
     | Some d => isoDay d
     | None => EmptyString
     end)
    (Js.round2 orderProductValue)
    (OrderData.qty order)
    (OrderData.productName order).

(** The body of the inner loop; the state is [totalCod] and
    [orderDetails]. *)
Definition codItem (first : OrderData.t) (acc : Q * list CodDetail.t)
    (order : OrderData.t) : Q * list CodDetail.t :=
  let orderProductValue := rawProductValue first in
  ((fst acc + orderProductValue)%Q,
   (snd acc ++ [codDetail orderProductValue order])%list).

(** The body of the outer loop; [None] is the [TypeError] that reading
    [orderItems[0].mode] of an empty group would throw. *)
Definition codGroup (acc : Q * list CodDetail.t) (g : string * list OrderData.t)
    : option (Q * list CodDetail.t) :=
  match snd g with
  | [] => None
  | first :: _ =>
      if isCodMode (breakdownMode first)
      then Some (foldl (codItem first) acc (snd g))
      else Some acc
  end.

Definition codGroups (groups : list (string * list OrderData.t))
    : option (Q * list CodDetail.t) :=
  foldl (fun acc g => acc ≫= fun a => codGroup a g) (Some (0%Q, [])) groups.

(** The comparison of the final sort; a difference with an invalid
    date is [NaN], which [sort] reads as [0]. *)
Definition compareDetails (a b : CodDetail.t) : Q :=
  match parseDate (CodDetail.deliveredDate a), parseDate (CodDetail.deliveredDate b) with
  | Some x, Some y => inject_Z (x - y)
  | _, _ => 0%Q
  end.

Definition getCodBreakdownForRange (db : Database) (params : CodRangeParams.t)
    : option CodBreakdown.t :=
  codGroups (groupOrders (codRows db params)) ≫= fun acc =>
  Some (CodBreakdown.mk (Js.round2 (fst acc)) (length (snd acc))
                        (Js.sort compareDetails (snd acc))).

End CodBreakdownQuery.

(** The first line of a line's order among the given lines. *)
Definition firstLine (rows : list OrderData.t) (o : OrderData.t) : OrderData.t :=
  default o (List.find (fun x => String.eqb (OrderData.orderId x) (OrderData.orderId o)) rows).

(** The account of a line is listed when the first line of its order
    is a COD line. *)
Definition listed (rows : list OrderData.t) (o : OrderData.t) : bool :=
  isCodMode (breakdownMode (firstLine rows o)).

(** ** The session store ([MySQLSessionStore]) *)

(** A row of the session table; [session_id] is its primary key. *)
Module SessionRow.
Record t := mk {
  session_id : string;
  expires : Z;
  data : option string
}.
End SessionRow.

(** What a method of the store hands to its call-back: the error it
    caught, or its result.  The table itself is always reached; the
    one error is that of [JSON.parse]. *)
Inductive Outcome (A : Type) :=
  | Failed
  | Done (result : A).
Arguments Failed {A}.
Arguments Done {A} result.

Module MySQLSessionStore.
Section Store.

(** The comparison [=] of the [session_id] column, which the
    collation of the table fixes. *)
Variable sqlEq : string -> string -> bool.

(** Session objects, [{}], [JSON.stringify] and [JSON.parse]; [None]
    is the [SyntaxError] that [JSON.parse] throws on a text that is
    not JSON. *)
Context {SessionData : Type}.
Variable emptySession : SessionData.
Variable stringify : SessionData -> string.
Variable parse : string -> option SessionData.

(** [new Date(session.cookie.expires).getTime()] when
    [session.cookie?.expires] is there, a valid date. *)
Variable cookieExpires : SessionData -> option Z.

Definition hasSid (sessionId : string) (r : SessionRow.t) : bool :=
  sqlEq (SessionRow.session_id r) sessionId.

(** [sessionData ? JSON.parse(sessionData) : {}]: a null and an empty
    text both give [{}]; [None] when [JSON.parse] throws. *)
Definition readData (sessionData : option string) : option SessionData :=
  match sessionData with
  | None => Some emptySession
  | Some EmptyString => Some emptySession
  | Some d => parse d
  end.

(** What a read session leads to: [callback(null, session)], or
    [callback(error)] from the [catch] when the text did not parse. *)
Definition parsed (session : option SessionData) : Outcome (option SessionData) :=
  match session with
  | Some s => Done (Some s)
  | None => Failed
  end.

(** [session.cookie?.expires ? ... : Date.now() + 24 h]. *)
Definition expiryOf (session : SessionData) (now : Z) : Z :=
  match cookieExpires session with
  | Some e => e
  | None => now + 24 * 60 * 60 * 1000
  end.

(** [get]: [Done None] is the call-back without a session. *)
Definition get (tbl : list SessionRow.t) (sessionId : string) (now : Z)
    : Outcome (option SessionData) :=
  match
    List.find (fun r => hasSid sessionId r && (now <? SessionRow.expires r)%Z) tbl
  with
  | None => Done None
  | Some r => parsed (readData (SessionRow.data r))
  end.

(** [set]: [insert ... on duplicate key update expires = ?, data = ?]. *)
Definition set (tbl : list SessionRow.t) (sessionId : string) (session : SessionData)
    (now : Z) : list SessionRow.t :=
  let expires := expiryOf session now in
  let data := stringify session in
  if existsb (hasSid sessionId) tbl
  then map (fun r => if hasSid sessionId r
                     then SessionRow.mk (SessionRow.session_id r) expires (Some data)
                     else r) tbl
  else (tbl ++ [SessionRow.mk sessionId expires (Some data)])%list.

Definition destroy (tbl : list SessionRow.t) (sessionId : string) : list SessionRow.t :=
  List.filter (fun r => negb (hasSid sessionId r)) tbl.

(** [sessions[sid] = session] on an object literal: the name
    [__proto__] is the inherited accessor, and assigning to it adds no
    property. *)
Definition setProperty (sessions : gmap string SessionData) (sid : string)
    (session : SessionData) : gmap string SessionData :=
  if String.eqb sid "__proto__" then sessions else <[sid := session]> sessions.

(** [all]: the object built from the rows not yet expired; the loop
    is left at the first row whose text does not parse. *)
Definition all (tbl : list SessionRow.t) (now : Z) : Outcome (gmap string SessionData) :=
  foldl (fun acc row =>
           match acc, readData (SessionRow.data row) with
           | Done sessions, Some session =>
               Done (setProperty sessions (SessionRow.session_id row) session)
           | _, _ => Failed
           end)
        (Done ∅)
        (List.filter (fun r => (now <? SessionRow.expires r)%Z) tbl).

(** [length]: the count of the rows not yet expired. *)
Definition length (tbl : list SessionRow.t) (now : Z) : nat :=
  List.length (List.filter (fun r => (now <? SessionRow.expires r)%Z) tbl).

Definition clear (tbl : list SessionRow.t) : list SessionRow.t := [].

(** [touch]: [update ... set expires = ? where session_id = ?]. *)
Definition touch (tbl : list SessionRow.t) (sessionId : string) (session : SessionData)
    (now : Z) : list SessionRow.t :=
  let expires := expiryOf session now in
  map (fun r => if hasSid sessionId r
                then SessionRow.mk (SessionRow.session_id r) expires (SessionRow.data r)
                else r) tbl.

(** The primary key: no two rows have the same [session_id]. *)
Definition uniqueSessions (tbl : list SessionRow.t) : Prop :=
  ForallOrdPairs (fun a b => hasSid (SessionRow.session_id a) b = false) tbl.

End Store.
End MySQLSessionStore.

(** ** Upload: column detection and row conversion (upload routes) *)

Definition COLUMN_MAPPINGS : list (string * list string) :=
  [ ("dropshipperEmail", ["dropshipper email"; "order account"; "account"; "email"]);
    ("orderId", ["order id"; "orderid"; "channel order number"; "ref"; "invoice #";
                 "invoice number"]);
    ("orderDate", ["order date"; "channel order date"; "date"]);
    ("waybill", ["waybill"; "wayball number"; "tracking number"; "awb"]);
    ("productName", ["product name"; "product"; "item name"]);
    ("sku", ["sku"; "client order id"; "product code"]);
    ("qty", ["product qty"; "qty"; "quantity"]);
    ("productValue", ["product value"; "productvalue"; "product_value"; "cod amount"; "cod";
                      "amount"; "total"; "order total"; "order amount"; "cod amt";
                      "customer amount"; "payment amount"; "final amount"; "bill amount"]);
    ("mode", ["mode"; "payment mode"; "payment type"; "order mode"; "type"; "cod/prepaid"]);
    ("status", ["status"; "order status"]);
    ("deliveredDate", ["delivered date"; "delivery date"]);
    ("rtsDate", ["rts date"; "return date"]);
    ("shippingProvider", ["fulfilled by"; "courier company"; "shipping provider";
                          "provider"]) ].

(** [for (let i = 0; i < l.length; i++) if (p(l[i])) { ... i ...; break }]:
    the index the loop stops at. *)
Fixpoint findIndex {A} (p : A -> bool) (l : list A) : option nat :=
  match l with
  | [] => None
  | x :: r => if p x then Some 0%nat else S <$> findIndex p r
  end.

(** [headers[i].toLowerCase().trim()]. *)
Definition normalHeader (h : string) : string := Js.trim (Js.toLowerCase h).

(** [variations.some(variation => header === variation)]. *)
Definition exactMatch (variations : list string) (h : string) : bool :=
  existsb (fun variation => String.eqb (normalHeader h) variation) variations.

(** [variations.some(variation => header.includes(variation))]. *)
Definition containsMatch (variations : list string) (h : string) : bool :=
  existsb (fun variation => Js.includes (normalHeader h) variation) variations.

(** One turn of the loop over [COLUMN_MAPPINGS]. *)
Definition mapField (headers : list string) (mapping : list (string * nat))
    (entry : string * list string) : list (string * nat) :=
  let field := fst entry in
  let variations := snd entry in
  let mapping :=
    match findIndex (exactMatch variations) headers with
    | Some i => Js.mapSet mapping field i
    | None => mapping
    end in
  if bool_decide (is_Some (Js.mapGet mapping field)) then mapping
  else
    match findIndex (containsMatch variations) headers with
    | Some i => Js.mapSet mapping field i
    | None => mapping
    end.

(** The column of a field: the first header equal to one of its
    variations, or else the first header that contains one. *)
Definition fieldColumn (headers : list string) (variations : list string) : option nat :=
  match findIndex (exactMatch variations) headers with
  | Some i => Some i
  | None => findIndex (containsMatch variations) headers
  end.

Definition mapColumns (headers : list string) : list (string * nat) :=
  foldl (mapField headers) [] COLUMN_MAPPINGS.

Definition requiredFields : list string :=
  ["dropshipperEmail"; "orderId"; "orderDate"; "productName"; "qty"; "productValue";
   "status"; "shippingProvider"].

(** [requiredFields.filter(field => !(field in columnMapping) ||
    columnMapping[field] === -1)]; an index found by [mapColumns] is
    never [-1]. *)
Definition missingFields (columnMapping : list (string * nat)) : list string :=
  List.filter (fun field => negb (bool_decide (is_Some (Js.mapGet columnMapping field))))
              requiredFields.

(** The order built from one data row. *)
Module UploadedOrder.
Record t := mk {
  uploadSessionId : string;
  dropshipperEmail : string;
  orderId : string;
  orderDate : Timestamp;
  waybill : option string;
  productName : string;
  sku : option string;
  productUid : string;
  qty : Z;
  productValue : string;
  mode : option string;
  status : string;
  deliveredDate : option Timestamp;
  rtsDate : option Timestamp;
  shippingProvider : string
}.
End UploadedOrder.

(** [row[columnMapping.field]]: [undefined] when the field is not
    mapped or the row is shorter. *)
Definition cell (columnMapping : list (string * nat)) (field : string)
    (row : list string) : option string :=
  Js.mapGet columnMapping field ≫= fun i => row !! i.

(** [String(c || '')]. *)
Definition cellText (c : option string) : string := default EmptyString c.

(** [s || null]. *)
Definition orNull (s : string) : option string :=
  match s with
  | EmptyString => None
  | _ => Some s
  end.

(** [columnMapping.field ? ... : null]: an index is truthy unless it
    is missing or [0]. *)
Definition mappedPastFirst (columnMapping : list (string * nat)) (field : string) : bool :=
  match Js.mapGet columnMapping field with
  | Some (S _) => true
  | _ => false
  end.

(** [generateProductUid]; the [sku] is not used. *)
Definition generateProductUid (sku : option string) (productName dropshipperEmail : string)
    : string :=
  dropshipperEmail ++ Js.trim productName.

Inductive UploadError :=
  | UnsupportedFileType
  | NoDataRow
  | MissingRequiredColumns (missing : list string).

(** The parser the route picks from the type and the name of the
    file. *)
Inductive Parser :=
  | ReadSpreadsheet
  | ReadCsv.

Definition parserFor (mimetype originalname : string) : option Parser :=
  if Js.includes mimetype "excel" || Js.endsWith originalname ".xlsx" ||
     Js.endsWith originalname ".xls"
  then Some ReadSpreadsheet
  else if Js.includes mimetype "csv" || Js.endsWith originalname ".csv"
  then Some ReadCsv
  else None.

Section Upload.

(** [parseInt] and [parseFloat] of a text ([None] is [NaN]), the text
    of a number, and the route's [parseDate]. *)
Variable parseInt : string -> option Z.
Variable parseNumber : string -> option Q.
Variable numberToString : Q -> string.
Variable parseUploadDate : string -> option Timestamp.

(** The body of the loop over the data rows; [now] is [new Date()].
    Every cell is a text, so nothing in the body throws. *)
Definition toOrder (uploadSessionId : string) (now : Timestamp)
    (columnMapping : list (string * nat)) (row : list string) : UploadedOrder.t :=
  let at_ field := cell columnMapping field row in
  let status := Js.trim (cellText (at_ "status")) in
  let dropshipperEmail := Js.trim (cellText (at_ "dropshipperEmail")) in
  let orderId := Js.trim (cellText (at_ "orderId")) in
  let productName := Js.trim (cellText (at_ "productName")) in
  let sku :=
    match at_ "sku" with
    | None | Some EmptyString => None
    | Some s => Some (Js.trim s)
    end in
  let qty :=
    match parseInt (match at_ "qty" with
                    | None | Some EmptyString => "0"
                    | Some s => s
                    end) with
    | Some n => n
    | None => 0
    end in
  let productValueStr := Js.trim (cellText (at_ "productValue")) in
  let productValue :=
    match productValueStr with
    | EmptyString => 0%Q
    | _ => match parseNumber productValueStr with
           | Some v => Js.orElse v 0%Q
           | None => 0%Q
           end
    end in
  let shippingProvider := Js.trim (cellText (at_ "shippingProvider")) in
  let mode :=
    if mappedPastFirst columnMapping "mode"
    then orNull (Js.trim (cellText (at_ "mode"))) else None in
  let orderDate := default now (parseUploadDate (cellText (at_ "orderDate"))) in
  let deliveredDate :=
    if mappedPastFirst columnMapping "deliveredDate"
    then parseUploadDate (cellText (at_ "deliveredDate")) else None in
  let rtsDate :=
    if mappedPastFirst columnMapping "rtsDate"
    then parseUploadDate (cellText (at_ "rtsDate")) else None in
  let waybill :=
    if mappedPastFirst columnMapping "waybill"
    then orNull (Js.trim (cellText (at_ "waybill"))) else None in
  let productUid := generateProductUid sku productName dropshipperEmail in
  UploadedOrder.mk uploadSessionId dropshipperEmail orderId orderDate waybill productName
                   sku productUid qty (numberToString productValue) mode status
                   deliveredDate rtsDate shippingProvider.

(** The route from [data] on, with no manual mapping: the first row
    of [data] is read as the header row; the result is the orders
    built and the number of rows counted as cancelled.  [now i] is the
    clock when data row [i] is read. *)
Definition processUpload (uploadSessionId : string) (now : nat -> Timestamp)
    (data : list (list string)) : UploadError + list UploadedOrder.t * nat :=
  match data with
  | [] | [_] => inl NoDataRow
  | headerRow :: rows =>
      let headers := map (fun h => cellText (Some h)) headerRow in
      let columnMapping := mapColumns headers in
      match missingFields columnMapping with
      | [] =>
          let orders :=
            imap (fun i row => toOrder uploadSessionId (now i) columnMapping row) rows in
          inr (orders,
               List.length
                 (List.filter
                    (fun o => Js.includes (Js.toLowerCase (UploadedOrder.status o))
                                          "cancelled")
                    orders))
      | missing => inl (MissingRequiredColumns missing)
      end
  end.

(** The two parsers, on the bytes of the file.  [sheetRows] is
    [XLSX.utils.sheet_to_json] with [header: 1] on the first sheet:
    every row of the sheet as texts, the header row first.
    [csvRecords] is what the [data] events of [csv()] leave in
    [csvData]: [csv()] takes the first line of the file as the names
    of the columns and emits one record for each line after it, and
    of each record its [Object.values] are kept; the first line is not
    among them.  A file that its parser cannot read is not
    considered. *)
Context {Buffer : Type}.
Variable sheetRows : Buffer -> list (list string).
Variable csvRecords : Buffer -> list (list string).

(** [data], or nothing for a file of neither kind. *)
Definition parseFile (mimetype originalname : string) (buffer : Buffer)
    : option (list (list string)) :=
  match parserFor mimetype originalname with
  | Some ReadSpreadsheet => Some (sheetRows buffer)
  | Some ReadCsv => Some (csvRecords buffer)
  | None => None
  end.

(** The route on an uploaded file. *)
Definition uploadFile (uploadSessionId : string) (now : nat -> Timestamp)
    (mimetype originalname : string) (buffer : Buffer)
    : UploadError + list UploadedOrder.t * nat :=
  match parseFile mimetype originalname buffer with
  | Some data => processUpload uploadSessionId now data
  | None => inl UnsupportedFileType
  end.

End Upload.

(** ** More sample data *)

Module Fixture.


(** Two delivered cash lines, worth 978.04 and 903.87, shipped at 16.82
    with Delhivery and at 14.59 with Bluedart; no unit cost is
    configured. *)
Definition twoCarrierStore : Database :=
  Sample.store
    [Sample.line "00000000-0000-4000-8000-00000000000a" "F1" 1 97804 (Some "COD")
                 "Delivered" (Some (Sample.jan 12)) "Delhivery";
     Sample.line "00000000-0000-4000-8000-00000000000b" "F2" 1 90387 (Some "COD")
                 "Delivered" (Some (Sample.jan 12)) "Bluedart"]
    [] [Sample.lampRate "Delhivery" 1682; Sample.lampRate "Bluedart" 1459].

(** Order K1 with a cancelled line and a shipped line; the lamp ships
    at 40 with Delhivery. *)
Definition mixedStore : Database :=
  Sample.store
    [Sample.cancelledLine;
     Sample.line "00000000-0000-4000-8000-000000000009" "K1" 1 10000 (Some "COD")
                 "Shipped" None "Delhivery"]
    Sample.lampPrices [Sample.lampRate "Delhivery" 4000].

(** The lamp's rate with Delhivery, stored for a weight of one kilo
    only. *)
Definition heavierRates : list (string * Q) :=
  buildRateMap [ShippingRate.mk "lamp" "1.000" "Delhivery" 4000].



(** A delivered line of a product that has no price. *)
Definition unpricedStore : Database := Sample.store [Sample.codLine] [] [].

(** The price table with the lamp at 50.00. *)
Definition lampRow : ProductPriceRow.t :=
  ProductPriceRow.mk "00000000-0000-4000-8000-0000000000d1" "seller@example.com" "lamp"
                     "Lamp" None (Some "0.500") 5000 "INR" (Sample.jan 1).

Definition priceTable : list ProductPriceRow.t := [lampRow].

Definition lampAt (cost : Q) : InsertProductPrice.t :=
  InsertProductPrice.mk "seller@example.com" "lamp" "Lamp" None (Some (1 # 2)) cost None.

Definition vaseAt (cost : Q) : InsertProductPrice.t :=
  InsertProductPrice.mk "seller@example.com" "vase" "Vase" None None cost None.

(** A [decimal(10,2)] column rounds to hundredths; the weight is
    printed with three decimals. *)
Definition cents (x : Q) : Decimal2 := Js.Math_round (x * 100).

Definition halfKilo (x : Q) : string := "0.500".

(** A batch that names the vase twice. *)
Definition batch : list (string * Timestamp * InsertProductPrice.t) :=
  [("00000000-0000-4000-8000-0000000000d2", Sample.jan 2, vaseAt 80);
   ("00000000-0000-4000-8000-0000000000d3", Sample.jan 3, lampAt 55);
   ("00000000-0000-4000-8000-0000000000d4", Sample.jan 4, vaseAt 90)].

(** The sessions of the samples: an object with at most a user
    number, [{}] or [{"user":7}]. *)
Definition Session : Type := option Z.

Definition quote : string := String (ascii_of_nat 34) EmptyString.

Definition userField : string := "{" ++ quote ++ "user" ++ quote ++ ":".

Definition toJson (session : Session) : string :=
  match session with
  | None => "{}"
  | Some n =>
      userField ++ DecimalString.NilZero.string_of_uint (N.to_uint (Z.to_N n)) ++ "}"
  end.

(** A JSON number without sign, fraction and exponent. *)
Definition jsonNatural (s : string) : option Z :=
  match s with
  | EmptyString => None
  | String "0" (String _ _) => None
  | _ => digitsValue 0 s
  end.

(** [JSON.parse] on the texts of the samples: the two forms above are
    read, and a text of another form, as [user=7], which is not JSON,
    is refused. *)
Definition fromJson (s : string) : option Session :=
  if String.eqb s "{}" then Some None
  else
    let n := String.length userField in
    if Js.startsWith userField s &&
       String.eqb (substring (String.length s - 1) 1 s) "}"
    then Some <$> jsonNatural (substring n (String.length s - n - 1) s)
    else None.

(** One stored session that expired at time 1000. *)
Definition sessionTable : list SessionRow.t :=
  [SessionRow.mk "s1" 1000 (Some (toJson (Some 7)))].

(** A table with a row whose text is not JSON. *)
Definition brokenTable : list SessionRow.t :=
  [SessionRow.mk "s1" 1000 (Some (toJson (Some 7)));
   SessionRow.mk "s3" 1000 (Some "user=7")].

Definition noCookie (session : Session) : option Z := None.

(** A file given by its lines of cells.  A spreadsheet is read as its
    lines; [csv()] on a file whose column names are distinct and are
    not numbers emits the lines after the first, cells in order. *)
Definition linesOf (lines : list (list string)) : list (list string) := lines.

Definition recordsOf (lines : list (list string)) : list (list string) := tl lines.

(** A file with every required column and one data row. *)
Definition oneOrderFile : list (list string) :=
  [["Order Account"; "Order ID"; "Order Date"; "Product Name"; "Qty"; "COD Amount";
    "Status"; "Courier Company"];
   ["seller@example.com"; "P9"; "2024-01-10"; "Lamp"; "2"; "199"; "Delivered";
    "Delhivery"]].

(** The header row of a file whose first column is the payment mode. *)
Definition modeFirst : list string :=
  ["Mode"; "Order Account"; "Order ID"; "Order Date"; "Product Name"; "Qty";
   "COD Amount"; "Status"; "Courier Company"].

Definition modeVariations : list string :=
  ["mode"; "payment mode"; "payment type"; "order mode"; "type"; "cod/prepaid"].

Definition prepaidRow : list string :=
  ["Prepaid"; "seller@example.com"; "P9"; "2024-01-10"; "Lamp"; "2"; "199"; "Delivered";
   "Delhivery"].

End Fixture.

(** * Properties *)

(** ** Numbers *)

Lemma orElse_zero (x : Q) : (Js.orElse x 0 == x)%Q.
Proof.
  unfold Js.orElse. destruct (Qeq_bool x 0) eqn:E; [|reflexivity].
  apply Qeq_bool_iff in E. symmetry. exact E.
Qed.

Lemma positive_iff (x : Q) : Js.positive x = true <-> (0 < x)%Q.
Proof.
  unfold Js.positive. rewrite Qlt_alt.
  destruct (0 ?= x)%Q; split; congruence.
Qed.

Lemma positive_compat (x y : Q) : (x == y)%Q -> Js.positive x = Js.positive y.
Proof.
  intros E. unfold Js.positive. now rewrite E.
Qed.

Lemma Math_round_compat (x y : Q) : (x == y)%Q -> Js.Math_round x = Js.Math_round y.
Proof.
  intros E. unfold Js.Math_round. now rewrite E.
Qed.

Lemma Math_round_integer (z : Z) : Js.Math_round (inject_Z z) = z.
Proof.
  unfold Js.Math_round, Qfloor, inject_Z, Qplus. simpl.
  rewrite Z.mul_1_r. replace (z * 2 + 1)%Z with (1 + z * 2)%Z by lia.
  rewrite Z.div_add by lia. reflexivity.
Qed.

Lemma round2_compat (x y : Q) : (x == y)%Q -> (Js.round2 x == Js.round2 y)%Q.
Proof.
  intros E. unfold Js.round2.
  rewrite (Math_round_compat (x * 100) (y * 100)); [reflexivity | now rewrite E].
Qed.

(** A two-decimal amount is not changed by rounding to two places. *)
Lemma round2_decimal (d : Decimal2) : (Js.round2 (parseFloat d) == parseFloat d)%Q.
Proof.
  unfold Js.round2.
  rewrite (Math_round_compat (parseFloat d * 100) (inject_Z d)).
  - rewrite Math_round_integer. unfold parseFloat, Qeq, Qdiv, Qmult, Qinv, inject_Z.
    simpl. lia.
  - unfold parseFloat, Qeq, Qmult, inject_Z. simpl. lia.
Qed.

Lemma round2_zero (x : Q) : (x == 0)%Q -> (Js.round2 x == 0)%Q.
Proof.
  intros E. rewrite (round2_compat x (parseFloat 0)).
  - rewrite round2_decimal. reflexivity.
  - rewrite E. reflexivity.
Qed.

(** ** Grouping *)

Lemma mapSet_absent {V} (g : list (string * V)) k v :
  Js.mapGet g k = None -> Js.mapSet g k v = (g ++ [(k, v)])%list.
Proof.
  induction g as [|[k' v'] g IH]; simpl; [reflexivity|].
  destruct (String.eqb k' k); [discriminate|].
  intros H. now rewrite IH.
Qed.

Lemma mapSet_present {A} (g : list (string * list A)) k items x :
  Js.mapGet g k = Some items ->
  concat (map snd (Js.mapSet g k (items ++ [x])%list)) ≡ₚ
  (concat (map snd g) ++ [x])%list.
Proof.
  induction g as [|[k' v'] g IH]; simpl; [discriminate|].
  destruct (String.eqb k' k); intros H.
  - injection H as ->. simpl.
    rewrite <- !app_assoc. apply Permutation_app_head, Permutation_app_comm.
  - simpl. rewrite <- app_assoc. apply Permutation_app_head, IH, H.
Qed.

Lemma groupOrders_step (g : list (string * list OrderData.t)) (l : list OrderData.t) :
  concat (map snd
    (foldl
       (fun g o =>
          match Js.mapGet g (OrderData.orderId o) with
          | Some items => Js.mapSet g (OrderData.orderId o) (items ++ [o])%list
          | None => Js.mapSet g (OrderData.orderId o) [o]
          end) g l))
  ≡ₚ (concat (map snd g) ++ l)%list.
Proof.
  revert g. induction l as [|o l IH]; intros g; simpl.
  - now rewrite app_nil_r.
  - rewrite IH. destruct (Js.mapGet g (OrderData.orderId o)) as [items|] eqn:E.
    + rewrite (mapSet_present _ _ _ _ E). now rewrite <- app_assoc.
    + rewrite (mapSet_absent _ _ _ E), map_app, concat_app. simpl.
      now rewrite <- app_assoc.
Qed.

(** The loops visit every selected line item exactly once. *)
Lemma visitOrder_perm (orders : list OrderData.t) : visitOrder orders ≡ₚ orders.
Proof. unfold visitOrder, groupOrders. now rewrite groupOrders_step. Qed.

Lemma visitOrder_In (orders : list OrderData.t) (o : OrderData.t) :
  In o (visitOrder orders) <-> In o orders.
Proof.
  rewrite <- !list_elem_of_In. now rewrite visitOrder_perm.
Qed.

(** ** The inner loop, one line item at a time *)

Lemma sumQ_app (l1 l2 : list Q) : (sumQ (l1 ++ l2) == sumQ l1 + sumQ l2)%Q.
Proof.
  induction l1 as [|x l1 IH]; simpl; [ring|]. rewrite IH. ring.
Qed.

Section Loop.

Variable parseDate : string -> option Timestamp.
Variable req : PayoutCalculationRequest.t.
Variable prices : list ProductPrice.t.
Variable priceMap : gmap string Q.
Variable rateMap : list (string * Q).

Let step := processItem parseDate req prices priceMap rateMap.
Let row := payoutRow parseDate req prices priceMap rateMap.
Let isSkipped := skipped parseDate req.

Let charges := chargesShipping parseDate req prices rateMap.
Let product := countsProduct parseDate req.
Let cod := countsCod parseDate req.
Let keep := kept parseDate req.

Lemma processItem_skipped (st : Acc) (o : OrderData.t) :
  isSkipped o = true -> step st o = st.
Proof.
  unfold isSkipped, skipped, step, processItem. now intros ->.
Qed.

Lemma processItem_rows (st : Acc) (o : OrderData.t) :
  isSkipped o = false -> rows (step st o) = (rows st ++ [row o])%list.
Proof.
  unfold isSkipped, skipped, step, processItem. intros ->.
  destruct (inOrderDateRange parseDate req o && negb (isCancelled o));
    destruct (isDelivered o && inDeliveredDateRange parseDate req o);
    destruct (isCodOrder o); reflexivity.
Qed.

Lemma processItem_shippingTotal (st : Acc) (o : OrderData.t) :
  isSkipped o = false ->
  (shippingTotal (step st o) ==
   shippingTotal st + shippingCostOf parseDate req prices rateMap o)%Q.
Proof.
  unfold isSkipped, skipped, step, processItem, shippingCostOf. intros ->.
  destruct (inOrderDateRange parseDate req o && negb (isCancelled o));
    destruct (isDelivered o && inDeliveredDateRange parseDate req o);
    destruct (isCodOrder o); simpl; ring.
Qed.

Lemma processItem_codTotal (st : Acc) (o : OrderData.t) :
  isSkipped o = false ->
  (codTotal (step st o) == codTotal st + codReceivedOf parseDate req o)%Q.
Proof.
  unfold isSkipped, skipped, step, processItem, codReceivedOf. intros ->.
  destruct (inOrderDateRange parseDate req o && negb (isCancelled o));
    destruct (isDelivered o && inDeliveredDateRange parseDate req o);
    destruct (isCodOrder o); simpl; ring.
Qed.

Lemma processItem_productCostTotal (st : Acc) (o : OrderData.t) :
  isSkipped o = false ->
  (productCostTotal (step st o) ==
   productCostTotal st + productCostOf parseDate req priceMap o)%Q.
Proof.
  unfold isSkipped, skipped, step, processItem, productCostOf. intros ->.
  destruct (inOrderDateRange parseDate req o && negb (isCancelled o));
    destruct (isDelivered o && inDeliveredDateRange parseDate req o);
    destruct (isCodOrder o); simpl; ring.
Qed.

Lemma processItem_reversalTotal (st : Acc) (o : OrderData.t) :
  rtsRtoReversalTotal (step st o) = rtsRtoReversalTotal st.
Proof.
  unfold step, processItem.
  destruct (isCancelled o && inOrderDateRange parseDate req o); [reflexivity|].
  destruct (inOrderDateRange parseDate req o && negb (isCancelled o));
    destruct (isDelivered o && inDeliveredDateRange parseDate req o);
    destruct (isCodOrder o); reflexivity.
Qed.

Lemma processItem_uniqueShippingOrders (st : Acc) (o : OrderData.t) :
  uniqueShippingOrders (step st o) =
  if charges o
  then {[OrderData.orderId o]} ∪ uniqueShippingOrders st
  else uniqueShippingOrders st.
Proof.
  unfold step, processItem, charges, chargesShipping.
  destruct (isCancelled o) eqn:C, (inOrderDateRange parseDate req o) eqn:R; simpl;
    destruct (isDelivered o && inDeliveredDateRange parseDate req o);
    destruct (isCodOrder o); simpl; reflexivity.
Qed.

Lemma processItem_uniqueProductAmountOrders (st : Acc) (o : OrderData.t) :
  uniqueProductAmountOrders (step st o) =
  if product o
  then {[OrderData.orderId o]} ∪ uniqueProductAmountOrders st
  else uniqueProductAmountOrders st.
Proof.
  unfold step, processItem, product, countsProduct, isSkipped, skipped.
  destruct (isCancelled o) eqn:C, (inOrderDateRange parseDate req o) eqn:R; simpl;
    destruct (isDelivered o), (inDeliveredDateRange parseDate req o);
    destruct (isCodOrder o); simpl; reflexivity.
Qed.

Lemma processItem_uniqueCodOrders (st : Acc) (o : OrderData.t) :
  uniqueCodOrders (step st o) =
  if cod o
  then {[OrderData.orderId o]} ∪ uniqueCodOrders st
  else uniqueCodOrders st.
Proof.
  unfold step, processItem, cod, countsCod, countsProduct, isSkipped, skipped.
  destruct (isCancelled o) eqn:C, (inOrderDateRange parseDate req o) eqn:R; simpl;
    destruct (isDelivered o), (inDeliveredDateRange parseDate req o);
    destruct (isCodOrder o); simpl; reflexivity.
Qed.


(** *** The whole loop *)

Lemma run_kept (st : Acc) (items : list OrderData.t) :
  foldl step st items = foldl step st (keep items).
Proof.
  revert st. induction items as [|o items IH]; intros st; [reflexivity|].
  unfold keep, kept in *. simpl.
  destruct (skipped parseDate req o) eqn:E; simpl.
  - rewrite (processItem_skipped st o E). apply IH.
  - apply IH.
Qed.

Lemma run_rows (st : Acc) (items : list OrderData.t) :
  rows (foldl step st items) = (rows st ++ map row (keep items))%list.
Proof.
  revert st. induction items as [|o items IH]; intros st.
  - simpl. now rewrite app_nil_r.
  - unfold keep, kept in *. simpl. rewrite IH.
    destruct (skipped parseDate req o) eqn:E; simpl.
    + now rewrite (processItem_skipped st o E).
    + rewrite (processItem_rows st o E). now rewrite <- app_assoc.
Qed.

Lemma run_shippingTotal (st : Acc) (items : list OrderData.t) :
  (shippingTotal (foldl step st items) ==
   shippingTotal st +
   sumQ (map (shippingCostOf parseDate req prices rateMap) (keep items)))%Q.
Proof.
  revert st. induction items as [|o items IH]; intros st.
  - simpl. ring.
  - unfold keep, kept in *. simpl. rewrite IH.
    destruct (skipped parseDate req o) eqn:E; simpl.
    + now rewrite (processItem_skipped st o E).
    + rewrite (processItem_shippingTotal st o E). ring.
Qed.

Lemma run_codTotal (st : Acc) (items : list OrderData.t) :
  (codTotal (foldl step st items) ==
   codTotal st + sumQ (map (codReceivedOf parseDate req) (keep items)))%Q.
Proof.
  revert st. induction items as [|o items IH]; intros st.
  - simpl. ring.
  - unfold keep, kept in *. simpl. rewrite IH.
    destruct (skipped parseDate req o) eqn:E; simpl.
    + now rewrite (processItem_skipped st o E).
    + rewrite (processItem_codTotal st o E). ring.
Qed.

Lemma run_productCostTotal (st : Acc) (items : list OrderData.t) :
  (productCostTotal (foldl step st items) ==
   productCostTotal st +
   sumQ (map (productCostOf parseDate req priceMap) (keep items)))%Q.
Proof.
  revert st. induction items as [|o items IH]; intros st.
  - simpl. ring.
  - unfold keep, kept in *. simpl. rewrite IH.
    destruct (skipped parseDate req o) eqn:E; simpl.
    + now rewrite (processItem_skipped st o E).
    + rewrite (processItem_productCostTotal st o E). ring.
Qed.

Lemma run_reversalTotal (st : Acc) (items : list OrderData.t) :
  rtsRtoReversalTotal (foldl step st items) = rtsRtoReversalTotal st.
Proof.
  revert st. induction items as [|o items IH]; intros st; [reflexivity|].
  simpl. rewrite IH. apply processItem_reversalTotal.
Qed.

(** An order is in one of the three sets exactly when it was there
    before or one of its line items put it there. *)
Lemma run_set (proj : Acc -> gset string) (adds : OrderData.t -> bool) :
  (forall st o,
     proj (step st o) = if adds o then {[OrderData.orderId o]} ∪ proj st else proj st) ->
  forall (items : list OrderData.t) (st : Acc) (x : string),
    x ∈ proj (foldl step st items) <->
    x ∈ proj st \/ exists o, In o items /\ OrderData.orderId o = x /\ adds o = true.
Proof.
  intros Hstep items. induction items as [|o items IH]; intros st x.
  - simpl. split; [auto | intros [H | (o & [] & _)]; exact H].
  - simpl. rewrite IH, Hstep. split.
    + intros [H | (o' & Hin & Hid & Hadd)].
      * destruct (adds o) eqn:E; [|auto].
        apply elem_of_union in H as [H | H]; [|auto].
        apply elem_of_singleton in H. right. exists o. auto.
      * right. exists o'. auto.
    + intros [H | (o' & [-> | Hin] & Hid & Hadd)].
      * left. destruct (adds o); [|exact H]. apply elem_of_union. auto.
      * left. rewrite Hadd. apply elem_of_union. left.
        apply elem_of_singleton. now symmetry.
      * right. exists o'. auto.
Qed.

Lemma run_uniqueShippingOrders (items : list OrderData.t) (st : Acc) (x : string) :
  x ∈ uniqueShippingOrders (foldl step st items) <->
  x ∈ uniqueShippingOrders st \/
  exists o, In o items /\ OrderData.orderId o = x /\ charges o = true.
Proof. apply run_set, processItem_uniqueShippingOrders. Qed.

Lemma run_uniqueProductAmountOrders (items : list OrderData.t) (st : Acc) (x : string) :
  x ∈ uniqueProductAmountOrders (foldl step st items) <->
  x ∈ uniqueProductAmountOrders st \/
  exists o, In o items /\ OrderData.orderId o = x /\ product o = true.
Proof. apply run_set, processItem_uniqueProductAmountOrders. Qed.

Lemma run_uniqueCodOrders (items : list OrderData.t) (st : Acc) (x : string) :
  x ∈ uniqueCodOrders (foldl step st items) <->
  x ∈ uniqueCodOrders st \/
  exists o, In o items /\ OrderData.orderId o = x /\ cod o = true.
Proof. apply run_set, processItem_uniqueCodOrders. Qed.

End Loop.

(** ** Shipping charge: the rate ladder *)

Lemma flatShippingRate_unconfigured prices rateMap o :
  (exactRate prices rateMap o == 0)%Q -> anyWeightRate rateMap o = None ->
  flatShippingRate prices rateMap o = 0%Q.
Proof.
  intros He Ha. unfold flatShippingRate. rewrite Ha.
  apply Qeq_bool_iff in He. now rewrite He.
Qed.

Lemma shippingCostOf_unconfigured parseDate req prices rateMap o :
  (exactRate prices rateMap o == 0)%Q -> anyWeightRate rateMap o = None ->
  (shippingCostOf parseDate req prices rateMap o == 0)%Q.
Proof.
  intros He Ha. unfold shippingCostOf.
  destruct (inOrderDateRange parseDate req o && negb (isCancelled o)); [|reflexivity].
  rewrite (flatShippingRate_unconfigured _ _ _ He Ha).
  apply round2_zero. ring.
Qed.

Lemma defaultRate_table (provider : string) :
  defaultRate provider =
  match Js.mapGet defaultRates provider with
  | Some rate => RateNumber rate
  | None =>
      if existsb (String.eqb provider) objectMembers
      then InheritedMember provider
      else RateNumber 25
  end.
Proof.
  unfold defaultRate, defaultRates. cbn [Js.mapGet].
  repeat (destruct (String.eqb _ provider); [reflexivity|]). reflexivity.
Qed.

Lemma exactRate_positive prices rateMap o e :
  Js.mapGet rateMap
    (rateKey (OrderData.productUid o) (productWeight prices o)
             (OrderData.shippingProvider o)) = Some e ->
  (0 < e)%Q ->
  exactRate prices rateMap o = e /\ flatShippingRate prices rateMap o = e.
Proof.
  intros G He. unfold flatShippingRate, exactRate. rewrite G. cbn [Js.getOrElse].
  assert (Hz : Qeq_bool e 0 = false).
  { apply Bool.not_true_iff_false. intros H. apply Qeq_bool_iff in H.
    rewrite H in He. now apply Qlt_irrefl in He. }
  unfold Js.orElse. rewrite Hz, (proj2 (positive_iff e) He), Hz. now split.
Qed.

Lemma exactRate_none prices rateMap o :
  (forall e,
     Js.mapGet rateMap
       (rateKey (OrderData.productUid o) (productWeight prices o)
                (OrderData.shippingProvider o)) = Some e -> ~ (0 < e)%Q) ->
  exactRate prices rateMap o = 0%Q.
Proof.
  intros H. unfold exactRate.
  destruct (Js.mapGet rateMap _) as [e|] eqn:G; cbn [Js.getOrElse]; [|reflexivity].
  unfold Js.orElse. destruct (Qeq_bool e 0); [reflexivity|].
  destruct (Js.positive e) eqn:P; [|reflexivity].
  apply positive_iff in P. now destruct (H e eq_refl).
Qed.

Lemma anyWeightRate_step key rate rest o :
  anyWeightRate ((key, rate) :: rest) o =
  if sameProductAndCarrier key o && Js.positive rate then Some rate
  else anyWeightRate rest o.
Proof.
  unfold sameProductAndCarrier. cbn [anyWeightRate].
  destruct (Js.splitPipe key) as [|uid [|w [|provider l]]]; try reflexivity.
Qed.

(** Tier two finds the first entry, in the order of the map, of this
    product and carrier whose rate is positive. *)
Lemma anyWeightRate_first pre key rate post o :
  sameProductAndCarrier key o = true -> (0 < rate)%Q ->
  (forall k' r', In (k', r') pre -> sameProductAndCarrier k' o = true -> ~ (0 < r')%Q) ->
  anyWeightRate (pre ++ (key, rate) :: post) o = Some rate.
Proof.
  intros Hk Hr. induction pre as [|[k' r'] pre IH]; intros Hpre.
  - cbn [app]. rewrite anyWeightRate_step, Hk.
    now rewrite (proj2 (positive_iff rate) Hr).
  - cbn [app]. rewrite anyWeightRate_step.
    destruct (sameProductAndCarrier k' o) eqn:S, (Js.positive r') eqn:P; cbn [andb];
      try (apply IH; intros k r Hin; apply Hpre; now right).
    apply positive_iff in P. now destruct (Hpre k' r' (or_introl eq_refl) S).
Qed.

Lemma anyWeightRate_absent entries o :
  (forall key rate, In (key, rate) entries -> sameProductAndCarrier key o = true ->
                    ~ (0 < rate)%Q) ->
  anyWeightRate entries o = None.
Proof.
  induction entries as [|[k r] entries IH]; intros H; [reflexivity|].
  rewrite anyWeightRate_step.
  destruct (sameProductAndCarrier k o) eqn:S, (Js.positive r) eqn:P; cbn [andb];
    try (apply IH; intros k' r' Hin; apply H; now right).
  apply positive_iff in P. now destruct (H k r (or_introl eq_refl) S).
Qed.

(** C1 (as the code has it).  A line inside the order window that is
    not cancelled is charged by two tiers only.  Tier one: a positive
    rate stored under the exact key of product, weight and carrier is
    the flat rate.  Tier two, when the exact key has no positive rate:
    the first entry of the rate map, in its order, that names this
    product and this carrier and has a positive rate gives the flat
    rate; when there is no such entry the flat rate is 0.  The charge is
    the quantity times the flat rate, rounded to two places: it is the
    row's shipping cost, it is added to the shipping total, and the
    order is added to the set of charged orders exactly when it is
    positive.  With a flat rate of 0 nothing is charged, and the
    carrier default (the table entry of the carrier; for a carrier
    outside the table the member of that name that every object
    inherits, if there is one, and 25 otherwise) only appears as the
    [shippingRate] shown on the row. *)
Theorem shipping_charge_follows_two_tiers
    parseDate req prices priceMap rateMap (st : Acc) (o : OrderData.t) :
  inOrderDateRange parseDate req o = true ->
  isCancelled o = false ->
  let exactKey :=
    rateKey (OrderData.productUid o) (productWeight prices o)
            (OrderData.shippingProvider o) in
  let flat := flatShippingRate prices rateMap o in
  let charge := Js.round2 (inject_Z (OrderData.qty o) * flat)%Q in
  let st' := processItem parseDate req prices priceMap rateMap st o in
  let r := payoutRow parseDate req prices priceMap rateMap o in
  (forall e, Js.mapGet rateMap exactKey = Some e -> (0 < e)%Q -> flat = e) /\
  ((forall e, Js.mapGet rateMap exactKey = Some e -> ~ (0 < e)%Q) ->
   (forall pre key rate post,
      rateMap = (pre ++ (key, rate) :: post)%list ->
      sameProductAndCarrier key o = true -> (0 < rate)%Q ->
      (forall k' r', In (k', r') pre -> sameProductAndCarrier k' o = true ->
                     ~ (0 < r')%Q) ->
      flat = rate) /\
   ((forall key rate, In (key, rate) rateMap -> sameProductAndCarrier key o = true ->
                      ~ (0 < rate)%Q) ->
    flat = 0%Q)) /\
  PayoutRow.shippingCost r = charge /\
  shippingTotal st' = (shippingTotal st + charge)%Q /\
  uniqueShippingOrders st' =
    (if Js.positive charge
     then {[OrderData.orderId o]} ∪ uniqueShippingOrders st
     else uniqueShippingOrders st) /\
  rows st' = (rows st ++ [r])%list /\
  (flat = 0%Q ->
   (charge == 0)%Q /\
   (shippingTotal st' == shippingTotal st)%Q /\
   uniqueShippingOrders st' = uniqueShippingOrders st /\
   PayoutRow.shippingRate r = defaultRate (OrderData.shippingProvider o) /\
   defaultRate (OrderData.shippingProvider o) =
     match Js.mapGet defaultRates (OrderData.shippingProvider o) with
     | Some rate => RateNumber rate
     | None =>
         if existsb (String.eqb (OrderData.shippingProvider o)) objectMembers
         then InheritedMember (OrderData.shippingProvider o)
         else RateNumber 25
     end).
Proof.
  intros Hr Hc exactKey flat charge st' r.
  assert (Hs : skipped parseDate req o = false) by (unfold skipped; now rewrite Hc).
  assert (Hcost : shippingCostOf parseDate req prices rateMap o = charge)
    by (unfold shippingCostOf; now rewrite Hr, Hc).
  assert (Hst : shippingTotal st' = (shippingTotal st + charge)%Q /\
                uniqueShippingOrders st' =
                  (if Js.positive charge
                   then {[OrderData.orderId o]} ∪ uniqueShippingOrders st
                   else uniqueShippingOrders st)).
  { unfold st', processItem. rewrite Hc, Hr, Hcost. cbn [andb negb].
    destruct (isDelivered o && inDeliveredDateRange parseDate req o);
      destruct (isCodOrder o); split; reflexivity. }
  destruct Hst as [Ht Hu].
  split; [|split; [|split; [|split; [|split; [|split]]]]].
  - intros e G He. now apply (exactRate_positive prices rateMap o e G He).
  - intros Hno. pose proof (exactRate_none prices rateMap o Hno) as He.
    assert (Hflat : flat = default 0%Q (anyWeightRate rateMap o))
      by (unfold flat, flatShippingRate; now rewrite He).
    split.
    + intros pre key rate post -> Hk Hp Hpre.
      now rewrite Hflat, (anyWeightRate_first pre key rate post o Hk Hp Hpre).
    + intros Hnone. now rewrite Hflat, (anyWeightRate_absent rateMap o Hnone).
  - exact Hcost.
  - exact Ht.
  - exact Hu.
  - apply processItem_rows, Hs.
  - intros H0.
    assert (Hz : (charge == 0)%Q) by (unfold charge; rewrite H0; apply round2_zero; ring).
    split; [exact Hz|]. split; [rewrite Ht, Hz; ring|]. split.
    + rewrite Hu. now rewrite (positive_compat _ _ Hz).
    + split; [|apply defaultRate_table].
      unfold r, payoutRow, displayShippingRate. cbn [PayoutRow.shippingRate].
      fold flat. now rewrite H0.
Qed.

(** ** Cancelled line items *)

Lemma kept_not_skipped parseDate req items o :
  In o (kept parseDate req items) <-> In o items /\ skipped parseDate req o = false.
Proof.
  unfold kept. rewrite filter_In. now rewrite negb_true_iff.
Qed.

Lemma run_row_In parseDate (db : Database) req (o : OrderData.t) :
  In o (selectOrders (PayoutCalculationRequest.dropshipperEmail req) (orderData db)) ->
  skipped parseDate req o = false ->
  In (payoutRow parseDate req
        (filterPrices (PayoutCalculationRequest.dropshipperEmail req) (productPrices db))
        (buildPriceMap
           (filterPrices (PayoutCalculationRequest.dropshipperEmail req)
                         (productPrices db)))
        (buildRateMap (shippingRates db)) o)
     (rows (runPayouts parseDate db req)).
Proof.
  intros Hin Hs. unfold runPayouts. rewrite run_rows. simpl.
  apply in_map, kept_not_skipped. split; [|exact Hs].
  now apply visitOrder_In.
Qed.

(** C3 (as the code has it).  A cancelled line item whose order date
    is inside the order window has shipping cost 0 and changes neither
    the shipping total nor the set behind [ordersWithShippingCharges],
    whatever rates are configured: the shipping total of the run is
    the sum over the lines that are kept, which it is not one of.  Its
    order is counted in [ordersWithShippingCharges] exactly when
    another selected line of the same order, not cancelled and inside
    the window, carries a positive charge. *)
Theorem cancelled_line_has_no_shipping_charge
    parseDate (db : Database) req (o : OrderData.t) :
  isCancelled o = true ->
  inOrderDateRange parseDate req o = true ->
  let prices :=
    filterPrices (PayoutCalculationRequest.dropshipperEmail req) (productPrices db) in
  let rateMap := buildRateMap (shippingRates db) in
  let items :=
    visitOrder (selectOrders (PayoutCalculationRequest.dropshipperEmail req)
                             (orderData db)) in
  (forall prices' priceMap' rateMap' st,
     shippingCostOf parseDate req prices' rateMap' o = 0%Q /\
     shippingTotal (processItem parseDate req prices' priceMap' rateMap' st o) =
       shippingTotal st /\
     uniqueShippingOrders (processItem parseDate req prices' priceMap' rateMap' st o) =
       uniqueShippingOrders st) /\
  ~ In o (kept parseDate req items) /\
  (shippingTotal (runPayouts parseDate db req) ==
   sumQ (map (shippingCostOf parseDate req prices rateMap) (kept parseDate req items)))%Q /\
  PayoutSummary.ordersWithShippingCharges (summary (calculatePayouts parseDate db req)) =
    size (uniqueShippingOrders (runPayouts parseDate db req)) /\
  (OrderData.orderId o ∈ uniqueShippingOrders (runPayouts parseDate db req) <->
   exists o',
     In o' (selectOrders (PayoutCalculationRequest.dropshipperEmail req) (orderData db)) /\
     o' <> o /\
     OrderData.orderId o' = OrderData.orderId o /\
     isCancelled o' = false /\
     inOrderDateRange parseDate req o' = true /\
     (0 < shippingCostOf parseDate req prices rateMap o')%Q).
Proof.
  intros Hc Hr prices rateMap items.
  assert (Hs : skipped parseDate req o = true) by (unfold skipped; now rewrite Hc, Hr).
  split; [|split; [|split; [|split; [reflexivity|]]]].
  - intros prices' priceMap' rateMap' st.
    rewrite (processItem_skipped _ _ _ _ _ _ _ Hs).
    unfold shippingCostOf. now rewrite Hc, andb_false_r.
  - rewrite kept_not_skipped. intros [_ H]. congruence.
  - unfold runPayouts. rewrite run_shippingTotal.
    change (shippingTotal initAcc) with 0%Q. apply Qplus_0_l.
  - unfold runPayouts. rewrite run_uniqueShippingOrders. split.
    + intros [H | (o' & Hin & Hid & Hch)]; [now apply not_elem_of_empty in H|].
      unfold chargesShipping in Hch.
      apply andb_true_iff in Hch as [Hch Hpos]. apply andb_true_iff in Hch as [Hnc Hin'].
      apply negb_true_iff in Hnc.
      exists o'. repeat split; try assumption.
      * now apply (proj1 (visitOrder_In _ _)) in Hin.
      * intros ->. congruence.
      * now apply positive_iff.
    + intros (o' & Hin & _ & Hid & Hnc & Hin' & Hpos). right. exists o'.
      split; [now apply visitOrder_In|]. split; [exact Hid|].
      unfold chargesShipping. rewrite Hnc, Hin'. cbn [negb andb].
      now apply positive_iff.
Qed.

(** C10.  A cancelled line item whose order date is inside the order
    window leaves no trace: the loop state is the same after it as
    before it, so the run is the run over the remaining lines, [rows]
    holds one row per remaining line and none for this one, and
    [totalOrdersProcessed] counts the remaining lines only. *)
Theorem cancelled_line_emits_no_row
    parseDate (db : Database) req (o : OrderData.t) :
  isCancelled o = true ->
  inOrderDateRange parseDate req o = true ->
  let prices :=
    filterPrices (PayoutCalculationRequest.dropshipperEmail req) (productPrices db) in
  let priceMap := buildPriceMap prices in
  let rateMap := buildRateMap (shippingRates db) in
  let items :=
    visitOrder (selectOrders (PayoutCalculationRequest.dropshipperEmail req)
                             (orderData db)) in
  let result := calculatePayouts parseDate db req in
  (forall prices' priceMap' rateMap' st,
     processItem parseDate req prices' priceMap' rateMap' st o = st) /\
  ~ In o (kept parseDate req items) /\
  runPayouts parseDate db req =
    foldl (processItem parseDate req prices priceMap rateMap) initAcc
          (kept parseDate req items) /\
  resultRows result =
    map (payoutRow parseDate req prices priceMap rateMap) (kept parseDate req items) /\
  PayoutSummary.totalOrdersProcessed (summary result) =
    length (kept parseDate req items).
Proof.
  intros Hc Hr prices priceMap rateMap items result.
  assert (Hs : skipped parseDate req o = true) by (unfold skipped; now rewrite Hc, Hr).
  repeat split.
  - intros. now apply processItem_skipped.
  - rewrite kept_not_skipped. intros [_ H]. congruence.
  - apply run_kept.
  - unfold result, calculatePayouts, runPayouts. simpl. now rewrite run_rows.
  - unfold result, calculatePayouts, runPayouts. simpl.
    rewrite run_rows. simpl. apply length_map.
Qed.

(** ** Delivered line items *)

(** C4.  A delivered line item (not cancelled) whose delivered date is
    inside the delivery window adds quantity times the resolved unit
    cost to [productCostTotal] and its order to the product-orders
    set, whatever its payment mode; when the mode is not cash on
    delivery, the COD total and the COD-orders set stay as they were
    and the row receives 0.  When the line is among the selected
    orders, its row is in the result and its order is in the final
    product-orders set. *)
Theorem delivered_line_accumulates_product_cost
    parseDate (db : Database) req (st : Acc) (o : OrderData.t) :
  isDelivered o = true ->
  isCancelled o = false ->
  inDeliveredDateRange parseDate req o = true ->
  let prices :=
    filterPrices (PayoutCalculationRequest.dropshipperEmail req) (productPrices db) in
  let priceMap := buildPriceMap prices in
  let rateMap := buildRateMap (shippingRates db) in
  let st' := processItem parseDate req prices priceMap rateMap st o in
  let r := payoutRow parseDate req prices priceMap rateMap o in
  let cost := (inject_Z (OrderData.qty o) * resolveUnitCost priceMap o)%Q in
  (productCostTotal st' == productCostTotal st + cost)%Q /\
  uniqueProductAmountOrders st' =
    {[OrderData.orderId o]} ∪ uniqueProductAmountOrders st /\
  rows st' = (rows st ++ [r])%list /\
  PayoutRow.productCost r = cost /\
  (isCodOrder o = false ->
   codTotal st' = codTotal st /\
   uniqueCodOrders st' = uniqueCodOrders st /\
   (PayoutRow.codReceived r == 0)%Q) /\
  (In o (selectOrders (PayoutCalculationRequest.dropshipperEmail req) (orderData db)) ->
   In r (resultRows (calculatePayouts parseDate db req)) /\
   OrderData.orderId o ∈ uniqueProductAmountOrders (runPayouts parseDate db req)).
Proof.
  intros Hd Hc Hw prices priceMap rateMap st' r cost.
  assert (Hs : skipped parseDate req o = false) by (unfold skipped; now rewrite Hc).
  assert (Hcost : productCostOf parseDate req priceMap o = cost)
    by (unfold productCostOf; now rewrite Hd, Hw).
  split; [|split; [|split; [|split; [|split]]]].
  - unfold st'. rewrite (processItem_productCostTotal _ _ _ _ _ _ _ Hs), Hcost.
    reflexivity.
  - unfold st'. rewrite processItem_uniqueProductAmountOrders.
    unfold countsProduct. now rewrite Hs, Hd, Hw.
  - apply processItem_rows, Hs.
  - exact Hcost.
  - intros Hm. split; [|split].
    + unfold st', processItem. rewrite Hc, Hd, Hw, Hm. simpl.
      now destruct (inOrderDateRange parseDate req o).
    + unfold st'. rewrite processItem_uniqueCodOrders.
      unfold countsCod. now rewrite Hm, andb_false_r.
    + unfold r, payoutRow, codReceivedOf. simpl. rewrite Hd, Hw, Hm. simpl.
      apply (round2_decimal 0).
  - intros Hin. split.
    + apply run_row_In; assumption.
    + unfold runPayouts. apply run_uniqueProductAmountOrders. right.
      exists o. split; [now apply visitOrder_In|]. split; [reflexivity|].
      unfold countsProduct. now rewrite Hs, Hd, Hw.
Qed.

(** C5.  For a delivered cash-on-delivery line item whose delivered
    date is inside the delivery window, the [codReceived] of its row is
    the stored [productValue], whatever the quantity, and that same
    amount is added to the COD total.  When the line is among the
    selected orders, that row is in the result and its order is in the
    final COD-orders set. *)
Theorem delivered_cod_line_receives_stored_value
    parseDate (db : Database) req (st : Acc) (o : OrderData.t) :
  isDelivered o = true ->
  isCancelled o = false ->
  inDeliveredDateRange parseDate req o = true ->
  isCodOrder o = true ->
  let prices :=
    filterPrices (PayoutCalculationRequest.dropshipperEmail req) (productPrices db) in
  let priceMap := buildPriceMap prices in
  let rateMap := buildRateMap (shippingRates db) in
  let st' := processItem parseDate req prices priceMap rateMap st o in
  let r := payoutRow parseDate req prices priceMap rateMap o in
  rows st' = (rows st ++ [r])%list /\
  (PayoutRow.codReceived r == parseFloat (OrderData.productValue o))%Q /\
  (codTotal st' == codTotal st + parseFloat (OrderData.productValue o))%Q /\
  uniqueCodOrders st' = {[OrderData.orderId o]} ∪ uniqueCodOrders st /\
  (In o (selectOrders (PayoutCalculationRequest.dropshipperEmail req) (orderData db)) ->
   In r (resultRows (calculatePayouts parseDate db req)) /\
   OrderData.orderId o ∈ uniqueCodOrders (runPayouts parseDate db req)).
Proof.
  intros Hd Hc Hw Hm prices priceMap rateMap st' r.
  assert (Hs : skipped parseDate req o = false) by (unfold skipped; now rewrite Hc).
  assert (Hv : (codReceivedOf parseDate req o == parseFloat (OrderData.productValue o))%Q)
    by (unfold codReceivedOf; rewrite Hd, Hw, Hm; apply orElse_zero).
  split; [|split; [|split; [|split]]].
  - apply processItem_rows, Hs.
  - unfold r, payoutRow. simpl. rewrite (round2_compat _ _ Hv). apply round2_decimal.
  - unfold st'. rewrite (processItem_codTotal _ _ _ _ _ _ _ Hs), Hv. reflexivity.
  - unfold st'. rewrite processItem_uniqueCodOrders.
    unfold countsCod, countsProduct. now rewrite Hs, Hd, Hw, Hm.
  - intros Hin. split.
    + apply run_row_In; assumption.
    + unfold runPayouts. apply run_uniqueCodOrders. right.
      exists o. split; [now apply visitOrder_In|]. split; [reflexivity|].
      unfold countsCod, countsProduct. now rewrite Hs, Hd, Hw, Hm.
Qed.

(** ** The summary *)

(** The totals of the binary64 loop: each is built from its start by
    one addition per line that reaches the [+=], in visiting order. *)
Lemma run_totals64 parseDate req prices priceMap rateMap
    (items : list OrderData.t) (st : Binary64.Totals) :
  let st' := foldl (Binary64.processItem parseDate req prices priceMap rateMap) st items in
  Binary64.shippingTotal st' =
    Binary64.accumulate (Binary64.shippingTotal st)
      (map (Binary64.shippingCostOf prices rateMap)
           (List.filter (fun o => negb (isCancelled o) && inOrderDateRange parseDate req o)
                        items)) /\
  Binary64.codTotal st' =
    Binary64.accumulate (Binary64.codTotal st)
      (map Binary64.codReceivedOf (List.filter (countsCod parseDate req) items)) /\
  Binary64.productCostTotal st' =
    Binary64.accumulate (Binary64.productCostTotal st)
      (map (Binary64.productCostOf priceMap)
           (List.filter (countsProduct parseDate req) items)) /\
  Binary64.rtsRtoReversalTotal st' = Binary64.rtsRtoReversalTotal st.
Proof.
  revert st. induction items as [|o items IH]; intros st; [now cbn|].
  cbn [foldl List.filter]. cbv zeta in IH.
  destruct (IH (Binary64.processItem parseDate req prices priceMap rateMap st o))
    as (H1 & H2 & H3 & H4).
  cbv zeta. rewrite H1, H2, H3, H4. clear IH H1 H2 H3 H4.
  unfold Binary64.processItem, countsCod, countsProduct, skipped.
  destruct (isCancelled o), (inOrderDateRange parseDate req o),
    (isDelivered o), (inDeliveredDateRange parseDate req o), (isCodOrder o);
    cbn; repeat split; reflexivity.
Qed.

(** C6.  [finalPayable] is one rounding of the raw net
    [codTotal - shippingTotal - productCostTotal + rtsRtoReversalTotal]
    of the running totals, each of which is the sum, built line by
    line from 0, of the amounts of the lines that count towards it
    (the reversal total stays 0); it is not the net of the rounded
    totals: with raw totals 1000.6, 200.4, 50 and 0 it is 750, where
    the rounded totals net to 751.  Numbers are binary64 values. *)
Theorem finalPayable_rounds_raw_net_once parseDate (db : Database) req :
  let st := Binary64.runPayouts parseDate db req in
  let s := Binary64.summarize st in
  let prices :=
    filterPrices (PayoutCalculationRequest.dropshipperEmail req) (productPrices db) in
  let lines :=
    visitOrder (selectOrders (PayoutCalculationRequest.dropshipperEmail req)
                             (orderData db)) in
  let zero := Binary64.ofInt 0 in
  let raw := Binary64.runPayouts utcDate Sample.roundingStore Sample.january in
  let sample := Binary64.summarize raw in
  Binary64.PayoutSummary.finalPayable s =
    Binary64.Math_round
      (PrimFloat.add
         (PrimFloat.sub
            (PrimFloat.sub (Binary64.codTotal st) (Binary64.shippingTotal st))
            (Binary64.productCostTotal st))
         (Binary64.rtsRtoReversalTotal st)) /\
  Binary64.codTotal st =
    Binary64.accumulate zero
      (map Binary64.codReceivedOf (List.filter (countsCod parseDate req) lines)) /\
  Binary64.shippingTotal st =
    Binary64.accumulate zero
      (map (Binary64.shippingCostOf prices (Binary64.buildRateMap (shippingRates db)))
           (List.filter
              (fun o => negb (isCancelled o) && inOrderDateRange parseDate req o)
              lines)) /\
  Binary64.productCostTotal st =
    Binary64.accumulate zero
      (map (Binary64.productCostOf (Binary64.buildPriceMap prices))
           (List.filter (countsProduct parseDate req) lines)) /\
  Binary64.rtsRtoReversalTotal st = zero /\
  (Binary64.codTotal raw = Binary64.parseFloat 100060 /\
   Binary64.shippingTotal raw = Binary64.parseFloat 20040 /\
   Binary64.productCostTotal raw = Binary64.ofInt 50 /\
   Binary64.rtsRtoReversalTotal raw = zero /\
   Binary64.PayoutSummary.finalPayable sample = Binary64.ofInt 750 /\
   PrimFloat.add
     (PrimFloat.sub
        (PrimFloat.sub (Binary64.PayoutSummary.codTotal sample)
                       (Binary64.PayoutSummary.shippingTotal sample))
        (Binary64.PayoutSummary.productCostTotal sample))
     (Binary64.PayoutSummary.rtsRtoReversalTotal sample) = Binary64.ofInt 751).
Proof.
  intros st s prices lines zero raw sample. split; [reflexivity|].
  destruct (run_totals64 parseDate req prices (Binary64.buildPriceMap prices)
              (Binary64.buildRateMap (shippingRates db)) lines Binary64.initTotals)
    as (H1 & H2 & H3 & H4).
  split; [exact H2|]. split; [exact H1|]. split; [exact H3|]. split; [exact H4|].
  vm_compute. repeat split.
Qed.

(** The binary64 totals are not the exact ones: two cash lines worth
    978.04 and 903.87, shipped at 16.82 and 14.59, net exactly to
    1850.50, which rounds to 1851; the program's sums give
    [finalPayable] 1850. *)
Lemma binary64_net_differs_from_exact_net :
  let exact := calculatePayouts utcDate Fixture.twoCarrierStore Sample.january in
  let st := Binary64.runPayouts utcDate Fixture.twoCarrierStore Sample.january in
  (sumQ (map PayoutRow.payable (resultRows exact)) == 185050 # 100)%Q /\
  PayoutSummary.finalPayable (summary exact) = 1851%Z /\
  Binary64.PayoutSummary.finalPayable (Binary64.summarize st) = Binary64.ofInt 1850.
Proof.
  vm_compute. repeat split.
Qed.

(** ** Payment mode *)

Lemma isWhiteSpace_lowerAscii (c : ascii) :
  Js.isWhiteSpace (Js.lowerAscii c) = Js.isWhiteSpace c.
Proof. destruct c as [[] [] [] [] [] [] [] []]; reflexivity. Qed.

Lemma trimStart_toLowerCase (s : string) :
  Js.trimStart (Js.toLowerCase s) = Js.toLowerCase (Js.trimStart s).
Proof.
  induction s as [|c r IH]; simpl; [reflexivity|].
  rewrite isWhiteSpace_lowerAscii. destruct (Js.isWhiteSpace c); [exact IH | reflexivity].
Qed.

Lemma trimEnd_toLowerCase (s : string) :
  Js.trimEnd (Js.toLowerCase s) = Js.toLowerCase (Js.trimEnd s).
Proof.
  induction s as [|c r IH]; simpl; [reflexivity|].
  rewrite IH, isWhiteSpace_lowerAscii.
  destruct (Js.trimEnd r); simpl; [|reflexivity].
  destruct (Js.isWhiteSpace c); reflexivity.
Qed.

Lemma trim_toLowerCase (s : string) :
  Js.trim (Js.toLowerCase s) = Js.toLowerCase (Js.trim s).
Proof. unfold Js.trim. now rewrite trimStart_toLowerCase, trimEnd_toLowerCase. Qed.

Lemma toLowerCase_empty (s : string) : Js.toLowerCase s = EmptyString <-> s = EmptyString.
Proof. destruct s; simpl; split; congruence. Qed.

Lemma trimEnd_empty (s : string) : Js.trimEnd s = EmptyString <-> Js.isBlank s = true.
Proof.
  induction s as [|c r IH]; simpl; [tauto|].
  rewrite andb_true_iff, <- IH.
  destruct (Js.trimEnd r); destruct (Js.isWhiteSpace c); split;
    try congruence; try tauto; intros [? ?]; congruence.
Qed.

Lemma isBlank_trimStart (s : string) : Js.isBlank (Js.trimStart s) = Js.isBlank s.
Proof.
  induction s as [|c r IH]; simpl; [reflexivity|].
  destruct (Js.isWhiteSpace c) eqn:E; simpl; [exact IH | now rewrite E].
Qed.

(** [trim] leaves nothing exactly of the blank strings. *)
Lemma trim_empty (s : string) : Js.trim s = EmptyString <-> Js.isBlank s = true.
Proof. unfold Js.trim. now rewrite trimEnd_empty, isBlank_trimStart. Qed.

Lemma trimEnd_idem (s : string) : Js.trimEnd (Js.trimEnd s) = Js.trimEnd s.
Proof.
  induction s as [|c r IH]; simpl; [reflexivity|].
  destruct (Js.trimEnd r) as [|d r'] eqn:E.
  - destruct (Js.isWhiteSpace c) eqn:W; simpl; [reflexivity | now rewrite W].
  - change (Js.trimEnd (String c (String d r')))
      with (match Js.trimEnd (String d r') with
            | EmptyString =>
                if Js.isWhiteSpace c then EmptyString else String c EmptyString
            | String _ _ as t => String c t
            end).
    now rewrite IH.
Qed.

(** What [trimStart] leaves is empty or starts with a character that
    is not white space, and trimming its end keeps that start. *)
Lemma trimStart_trimEnd_trimStart (s : string) :
  Js.trimStart (Js.trimEnd (Js.trimStart s)) = Js.trimEnd (Js.trimStart s).
Proof.
  induction s as [|c r IH]; simpl; [reflexivity|].
  destruct (Js.isWhiteSpace c) eqn:W; [exact IH|].
  change (Js.trimEnd (String c r))
    with (match Js.trimEnd r with
          | EmptyString =>
              if Js.isWhiteSpace c then EmptyString else String c EmptyString
          | String _ _ as t => String c t
          end).
  destruct (Js.trimEnd r); [rewrite W|]; simpl; now rewrite W.
Qed.

(** [s.trim().trim() === s.trim()]. *)
Lemma trim_idem (s : string) : Js.trim (Js.trim s) = Js.trim s.
Proof.
  unfold Js.trim. now rewrite trimStart_trimEnd_trimStart, trimEnd_idem.
Qed.

(** C9.  A line item whose mode is null, blank or "cod" in any case
    counts as cash on delivery.  The upload routes store a mode as
    [String(cell).trim() || null]; of the modes so stored, exactly null
    and the spellings of "cod" in any case count as cash on delivery
    (a blank cell is stored as null), and every other one is not cash
    on delivery.  A line item that is not cash on delivery leaves the
    COD total and the COD-orders set as they were and receives 0. *)
Theorem payment_mode_classification
    parseDate req prices priceMap rateMap (st : Acc) (o : OrderData.t) :
  (OrderData.mode o = None \/
   (exists m, OrderData.mode o = Some m /\
      (m = EmptyString \/ Js.isBlank m = true \/ Js.toLowerCase m = "cod")) ->
   isCodOrder o = true) /\
  (forall cell, OrderData.mode o = orNull (Js.trim cell) ->
   (isCodOrder o = true <->
    OrderData.mode o = None \/
    exists m, OrderData.mode o = Some m /\ Js.toLowerCase m = "cod") /\
   (forall m, OrderData.mode o = Some m -> Js.toLowerCase m <> "cod" ->
    m <> EmptyString /\ isCodOrder o = false)) /\
  (isCodOrder o = false ->
   let st' := processItem parseDate req prices priceMap rateMap st o in
   codTotal st' = codTotal st /\
   uniqueCodOrders st' = uniqueCodOrders st /\
   codReceivedOf parseDate req o = 0%Q).
Proof.
  assert (Hall : isCodOrder o = true <->
                 OrderData.mode o = None \/
                 exists m, OrderData.mode o = Some m /\
                   (Js.isBlank m = true \/ Js.toLowerCase (Js.trim m) = "cod")).
  { unfold isCodOrder, paymentMode. rewrite orb_true_iff, !String.eqb_eq.
    destruct (OrderData.mode o) as [m|]; simpl.
    + rewrite trim_toLowerCase, toLowerCase_empty, trim_empty. split.
      * intros H. right. exists m. tauto.
      * intros [H | (m' & [= <-] & H)]; [discriminate | tauto].
    + split; [auto | intros _; now right]. }
  split; [|split].
  - intros [H | (m & Hm & H)]; apply Hall; [now left|].
    right. exists m. split; [exact Hm|].
    destruct H as [-> | [H | H]]; [now left | now left |].
    right. rewrite <- trim_toLowerCase, H. reflexivity.
  - intros cell Hc.
    assert (Hst : forall m, OrderData.mode o = Some m ->
                            Js.trim m = m /\ Js.isBlank m = false /\ m <> EmptyString).
    { intros m Hm. rewrite Hm in Hc. unfold orNull in Hc.
      destruct (Js.trim cell) as [|c r] eqn:E; [discriminate|].
      injection Hc as ->. rewrite <- E, trim_idem. split; [reflexivity|].
      split; [|rewrite E; discriminate].
      destruct (Js.isBlank (Js.trim cell)) eqn:B; [|reflexivity].
      apply trim_empty in B. rewrite trim_idem in B. congruence. }
    split.
    + rewrite Hall. split.
      * intros [H | (m & Hm & H)]; [now left|]. right. exists m. split; [exact Hm|].
        destruct (Hst m Hm) as (Ht & Hb & _). rewrite Ht in H.
        destruct H as [H | H]; congruence.
      * intros [H | (m & Hm & H)]; [now left|]. right. exists m. split; [exact Hm|].
        destruct (Hst m Hm) as (Ht & _). rewrite Ht. now right.
    + intros m Hm Hn. destruct (Hst m Hm) as (Ht & Hb & Hne). split; [exact Hne|].
      apply not_true_is_false. intros Ho.
      apply Hall in Ho as [Ho | (m' & Hm' & Ho)]; [congruence|].
      assert (m' = m) as -> by congruence. rewrite Ht in Ho.
      destruct Ho; congruence.
  - intros Hm st'. repeat split.
    + unfold st', processItem. rewrite Hm.
      destruct (isCancelled o && inOrderDateRange parseDate req o); [reflexivity|].
      destruct (inOrderDateRange parseDate req o && negb (isCancelled o));
        destruct (isDelivered o && inDeliveredDateRange parseDate req o); reflexivity.
    + unfold st'. rewrite processItem_uniqueCodOrders.
      unfold countsCod. now rewrite Hm, andb_false_r.
    + unfold codReceivedOf. rewrite Hm.
      now destruct (isDelivered o && inDeliveredDateRange parseDate req o).
Qed.

(** ** Ordered maps and the grouping by order *)

Lemma mapSet_keys {V} (m : list (string * V)) (k : string) (v : V) :
  map fst (Js.mapSet m k v) =
  if existsb (String.eqb k) (map fst m) then map fst m else (map fst m ++ [k])%list.
Proof.
  induction m as [|[k' v'] m IH]; simpl; [reflexivity|].
  rewrite (String.eqb_sym k k'). destruct (String.eqb k' k) eqn:E; simpl.
  - reflexivity.
  - rewrite IH. now destruct (existsb (String.eqb k) (map fst m)).
Qed.

Lemma existsb_eqb_In (x : string) (l : list string) :
  existsb (String.eqb x) l = true <-> In x l.
Proof.
  rewrite existsb_exists. split.
  - intros (y & Hy & E). apply String.eqb_eq in E. now subst.
  - intros H. exists x. split; [exact H | apply String.eqb_refl].
Qed.

Lemma NoDup_snoc (l : list string) (x : string) :
  NoDup l -> ~ In x l -> NoDup (l ++ [x]).
Proof.
  intros Hl Hx. apply NoDup_app. split; [exact Hl|]. split.
  - intros y Hy Hy'. apply list_elem_of_In in Hy.
    apply list_elem_of_In in Hy' as [<- | []]. now apply Hx.
  - apply NoDup_singleton.
Qed.

Lemma mapSet_NoDup {V} (m : list (string * V)) (k : string) (v : V) :
  NoDup (map fst m) -> NoDup (map fst (Js.mapSet m k v)).
Proof.
  intros H. rewrite mapSet_keys.
  destruct (existsb (String.eqb k) (map fst m)) eqn:E; [exact H|].
  apply NoDup_snoc; [exact H|]. intros Hin.
  apply existsb_eqb_In in Hin. congruence.
Qed.

Lemma mapGet_mapSet {V} (m : list (string * V)) (k k' : string) (v : V) :
  Js.mapGet (Js.mapSet m k v) k' = if String.eqb k k' then Some v else Js.mapGet m k'.
Proof.
  induction m as [|[k0 v0] m IH]; simpl.
  - reflexivity.
  - destruct (String.eqb k0 k) eqn:E; simpl.
    + apply String.eqb_eq in E. subst k0. now destruct (String.eqb k k').
    + rewrite IH. destruct (String.eqb k k') eqn:E'; [|reflexivity].
      apply String.eqb_eq in E'. subst k'. now rewrite E.
Qed.

Lemma In_mapGet {V} (m : list (string * V)) (k : string) (v : V) :
  NoDup (map fst m) -> In (k, v) m -> Js.mapGet m k = Some v.
Proof.
  induction m as [|[k0 v0] m IH]; simpl; intros Hn []; apply NoDup_cons in Hn as [Hk Hn].
  - injection H as -> ->. now rewrite String.eqb_refl.
  - destruct (String.eqb k0 k) eqn:E; [|now apply IH].
    apply String.eqb_eq in E. subst k0. exfalso. apply Hk.
    apply list_elem_of_In. now apply (in_map fst _ (k, v)).
Qed.

(** The lines of one order, in the order of the query result. *)
Lemma groupOrders_spec (rows : list OrderData.t) :
  NoDup (map fst (groupOrders rows)) /\
  forall k, Js.mapGet (groupOrders rows) k =
            match List.filter (fun o => String.eqb (OrderData.orderId o) k) rows with
            | [] => None
            | l => Some l
            end.
Proof.
  unfold groupOrders. induction rows as [|o rows IH] using rev_ind.
  - split; [apply NoDup_nil_2 | reflexivity].
  - rewrite foldl_app. simpl. destruct IH as [Hn Hg].
    set (g := foldl _ [] rows) in *.
    split.
    + destruct (Js.mapGet g (OrderData.orderId o)); now apply mapSet_NoDup.
    + intros k. rewrite List.filter_app. simpl.
      assert (E : Js.mapGet
                (match Js.mapGet g (OrderData.orderId o) with
                 | Some items => Js.mapSet g (OrderData.orderId o) (items ++ [o])%list
                 | None => Js.mapSet g (OrderData.orderId o) [o]
                 end) k =
              if String.eqb (OrderData.orderId o) k
              then Some (default [] (Js.mapGet g k) ++ [o])%list
              else Js.mapGet g k).
      { destruct (Js.mapGet g (OrderData.orderId o)) eqn:G; rewrite mapGet_mapSet;
          destruct (String.eqb (OrderData.orderId o) k) eqn:E; try reflexivity;
          apply String.eqb_eq in E; subst k; now rewrite G. }
      rewrite E, (Hg k).
      destruct (String.eqb (OrderData.orderId o) k);
        destruct (List.filter _ rows) as [|x l]; simpl; try reflexivity.
      now rewrite app_nil_r.
Qed.

(** ** The detector *)

Lemma insertSorted_perm {A} (cmp : A -> A -> Q) (x : A) (l : list A) :
  Js.insertSorted cmp x l ≡ₚ x :: l.
Proof.
  induction l as [|y l IH]; simpl; [reflexivity|].
  destruct (Qle_bool (cmp x y) 0); [reflexivity|].
  rewrite IH. apply Permutation_swap.
Qed.

(** Sorting rearranges, it neither drops nor adds. *)
Lemma sort_perm {A} (cmp : A -> A -> Q) (l : list A) : Js.sort cmp l ≡ₚ l.
Proof.
  induction l as [|x l IH]; simpl; [reflexivity|].
  unfold Js.sort in *. simpl. now rewrite insertSorted_perm, IH.
Qed.

Lemma sort_In {A} (cmp : A -> A -> Q) (l : list A) (x : A) :
  In x (Js.sort cmp l) <-> In x l.
Proof. rewrite <- !list_elem_of_In. now rewrite sort_perm. Qed.


(** The loop pushes one suggestion for each current row whose order is
    not reconciled, in order. *)
Lemma collectSuggestions_map toNumber reconciledSet history payoutMap (current : list OrderData.t) :
  collectSuggestions toNumber reconciledSet history payoutMap current =
  map (suggest toNumber history payoutMap)
      (List.filter
         (fun o => negb (bool_decide (OrderData.orderId o ∈ reconciledSet)))
         current).
Proof.
  unfold collectSuggestions.
  enough (H : forall acc,
             foldl
               (fun suggestions currentOrder =>
                  if bool_decide (OrderData.orderId currentOrder ∈ reconciledSet)
                  then suggestions
                  else (suggestions ++ [suggest toNumber history payoutMap currentOrder])%list)
               acc current =
             (acc ++ map (suggest toNumber history payoutMap)
                (List.filter
                   (fun o => negb (bool_decide (OrderData.orderId o ∈ reconciledSet)))
                   current))%list)
    by apply (H []).
  induction current as [|o current IH]; intros acc; simpl.
  - now rewrite app_nil_r.
  - rewrite IH. destruct (bool_decide (OrderData.orderId o ∈ reconciledSet)); simpl;
      [reflexivity | now rewrite <- app_assoc].
Qed.

Lemma suggest_orderId toNumber history payoutMap (o : OrderData.t) :
  Suggestion.orderId (suggest toNumber history payoutMap o) = OrderData.orderId o.
Proof.
  unfold suggest.
  destruct (bool_decide _), (payoutMap !! OrderData.orderId o); reflexivity.
Qed.

(** Every suggestion returned comes from a current row of an order
    outside the reconciled set. *)
Lemma autoDetect_In parseDate toNumber (db : Database) params (s : Suggestion.t) :
  In s (autoDetectRtsRtoReconciliations parseDate toNumber db params) <->
  exists o,
    let current := currentRtsRtoOrders parseDate params (detectScope db params) in
    let orderIds := map OrderData.orderId current in
    In o current /\
    (OrderData.orderId o ∉ reconciledSetFor db orderIds) /\
    s = suggest toNumber (groupOrders (detectScope db params)) (payoutMapFor db orderIds) o.
Proof.
  unfold autoDetectRtsRtoReconciliations.
  rewrite sort_In, collectSuggestions_map, in_map_iff. split.
  - intros (o & <- & Hin). apply filter_In in Hin as [Hin Hrec].
    exists o. repeat split; [exact Hin|].
    apply negb_true_iff, bool_decide_eq_false in Hrec. exact Hrec.
  - intros (o & Hin & Hrec & ->). exists o. split; [reflexivity|].
    apply filter_In. split; [exact Hin|].
    now apply negb_true_iff, bool_decide_eq_false.
Qed.

Lemma inArray_In (orderIds : list string) (x : string) :
  inArray orderIds x = true <-> In x orderIds.
Proof.
  unfold inArray. rewrite existsb_exists. split.
  - intros (y & Hin & He). apply String.eqb_eq in He. now subst.
  - intros H. exists x. split; [exact H | apply String.eqb_refl].
Qed.

Lemma reconciledSetFor_elem (db : Database) (orderIds : list string) (x : string) :
  x ∈ reconciledSetFor db orderIds <->
  In x orderIds /\
  exists r, In r (rtsRtoReconciliation db) /\ RtsRtoReconciliation.orderId r = x.
Proof.
  unfold reconciledSetFor. rewrite elem_of_list_to_set, list_elem_of_In, in_map_iff.
  split.
  - intros (r & <- & Hin). apply filter_In in Hin as [Hin Hf].
    apply inArray_In in Hf. eauto.
  - intros (Hx & r & Hin & <-). exists r. split; [reflexivity|].
    apply filter_In. split; [exact Hin | now apply inArray_In].
Qed.

Lemma processRtsRtoReconciliation_inserted (db db' : Database) id data r :
  processRtsRtoReconciliation db id data = (db', Some r) ->
  In r (rtsRtoReconciliation db') /\
  RtsRtoReconciliation.orderId r = InsertRtsRtoReconciliation.orderId data.
Proof.
  unfold processRtsRtoReconciliation.
  destruct (existsb _ (rtsRtoReconciliation db)) eqn:E; [discriminate|].
  intros [= <- Hf]. simpl in *.
  pose proof (find_some _ _ Hf) as [Hin Hid]. split; [exact Hin|].
  apply in_app_or in Hin as [Hin | [<- | []]]; [|reflexivity].
  exfalso. apply Bool.not_true_iff_false in E. apply E.
  apply existsb_exists. eauto.
Qed.

(** C7.  An order with a record in the reconciliation ledger, whether
    the record was already there or has just been inserted by
    [processRtsRtoReconciliation], is in no suggestion that the
    detector returns. *)
Theorem reconciled_order_is_never_suggested
    parseDate toNumber (db : Database) params (O : string) (s : Suggestion.t) :
  (exists r, In r (rtsRtoReconciliation db) /\ RtsRtoReconciliation.orderId r = O) \/
  (exists db0 id data r,
     processRtsRtoReconciliation db0 id data = (db, Some r) /\
     InsertRtsRtoReconciliation.orderId data = O) ->
  In s (autoDetectRtsRtoReconciliations parseDate toNumber db params) ->
  Suggestion.orderId s <> O.
Proof.
  intros Hled Hs.
  assert (exists r, In r (rtsRtoReconciliation db) /\ RtsRtoReconciliation.orderId r = O)
    as (r & Hr & Hid).
  { destruct Hled as [H | (db0 & id & data & r & Hp & Hd)]; [exact H|].
    apply processRtsRtoReconciliation_inserted in Hp as [Hin Ho].
    exists r. split; [exact Hin | congruence]. }
  apply autoDetect_In in Hs as (o & Hin & Hrec & ->).
  rewrite suggest_orderId. intros Heq. apply Hrec.
  apply reconciledSetFor_elem. split.
  - apply in_map, Hin.
  - exists r. split; [exact Hr | congruence].
Qed.

Lemma buildPayoutMap_filter (f : string -> bool) (O : string) (l : list PayoutLog.t) :
  f O = true ->
  buildPayoutMap (List.filter (fun p => f (PayoutLog.orderId p)) l) !! O =
  buildPayoutMap l !! O.
Proof.
  intros HO. unfold buildPayoutMap.
  enough (H : forall m1 m2 : gmap string PayoutLog.t,
             m1 !! O = m2 !! O ->
             foldl (fun m p => <[PayoutLog.orderId p := p]> m) m1
                   (List.filter (fun p => f (PayoutLog.orderId p)) l) !! O =
             foldl (fun m p => <[PayoutLog.orderId p := p]> m) m2 l !! O)
    by now apply H.
  induction l as [|p l IH]; intros m1 m2 Hm; simpl; [exact Hm|].
  destruct (f (PayoutLog.orderId p)) eqn:E; simpl.
  - apply IH. destruct (decide (PayoutLog.orderId p = O)) as [->|Hne].
    + now rewrite !lookup_insert_eq.
    + now rewrite !lookup_insert_ne.
  - apply IH. rewrite lookup_insert_ne; [exact Hm|]. intros Heq. congruence.
Qed.

(** The map built from the payout rows holds, for an order, the last
    row that names it. *)
Lemma buildPayoutMap_last (l : list PayoutLog.t) (O : string) :
  buildPayoutMap l !! O =
  last (List.filter (fun p => String.eqb (PayoutLog.orderId p) O) l).
Proof.
  unfold buildPayoutMap. induction l as [|p l IH] using rev_ind; [reflexivity|].
  rewrite foldl_app, List.filter_app. simpl.
  destruct (String.eqb (PayoutLog.orderId p) O) eqn:E.
  - apply String.eqb_eq in E. subst O. now rewrite lookup_insert_eq, last_snoc.
  - apply String.eqb_neq in E. rewrite lookup_insert_ne by exact E.
    now rewrite app_nil_r.
Qed.

Lemma payoutMapFor_lookup (db : Database) (orderIds : list string) (O : string) :
  In O orderIds -> payoutMapFor db orderIds !! O = priorPayout db O.
Proof.
  intros H. unfold payoutMapFor, priorPayout. rewrite <- buildPayoutMap_last.
  apply (buildPayoutMap_filter (inArray orderIds)). now apply inArray_In.
Qed.

(** A sort moves nothing when its comparator never asks for an
    exchange. *)
Lemma sort_fixed {A} (cmp : A -> A -> Q) (l : list A) :
  (forall x y, In x l -> In y l -> (cmp x y <= 0)%Q) -> Js.sort cmp l = l.
Proof.
  unfold Js.sort. induction l as [|x l IH]; intros H; [reflexivity|].
  simpl. rewrite IH by (intros a b Ha Hb; apply H; now right).
  destruct l as [|y l]; [reflexivity|]. simpl.
  assert (E : Qle_bool (cmp x y) 0 = true).
  { apply Qle_bool_iff, H; [now left | right; now left]. }
  now rewrite E.
Qed.

Lemma detectScope_In (db : Database) params (o : OrderData.t) :
  In o (detectScope db params) -> In o (orderData db).
Proof.
  unfold detectScope. destruct (truthy (DetectParams.dropshipperEmail params));
    [intros H; now apply filter_In in H | auto].
Qed.

(** The history the detector scans is the rows of the order as the
    query returns them: with identifiers that are not numbers every
    comparison is [NaN], and the sort by identifier moves nothing. *)
Lemma historyOf_rowsOf toNumber (db : Database) params (O : string) :
  idsAreNotNumbers toNumber db ->
  historyOf toNumber db params O = rowsOf db params O.
Proof.
  intros Hids. unfold historyOf, rowsOf.
  rewrite (proj2 (groupOrders_spec (detectScope db params)) O).
  set (l := List.filter _ _).
  assert (Hl : forall x, In x l -> In x (orderData db)).
  { intros x Hx. unfold l in Hx. apply filter_In in Hx as [Hx _].
    now apply detectScope_In in Hx. }
  assert (Hs : Js.sort (compareById toNumber) l = l).
  { apply sort_fixed. intros x y Hx Hy. unfold compareById.
    rewrite (Hids x (Hl x Hx)). simpl. apply Qle_refl. }
  destruct l; [reflexivity | exact Hs].
Qed.


(** ** The scan for a transition *)




(** ** The properties on the sample data *)

Import Sample.

(** C1, refuted as stated: four lamps shipped with Delhivery, no rate
    configured for the product.  The claim asks for a shipping total of
    4 x 25 = 100; the engine charges 0 and only shows 25 as the rate of
    the row. *)
Lemma default_rate_is_not_charged :
  let st := runPayouts utcDate unratedStore january in
  let result := calculatePayouts utcDate unratedStore january in
  OrderData.qty unratedLine = 4 /\
  (exactRate lampPrices (buildRateMap []) unratedLine == 0)%Q /\
  anyWeightRate (buildRateMap []) unratedLine = None /\
  defaultRate "Delhivery" = RateNumber 25 /\
  (shippingTotal st == 0)%Q /\
  ~ (shippingTotal st == 4 * 25)%Q /\
  PayoutSummary.shippingTotal (summary result) = 0 /\
  PayoutSummary.ordersWithShippingCharges (summary result) = 0%nat /\
  map PayoutRow.shippingRate (resultRows result) = [RateNumber 25].
Proof.
  vm_compute. repeat split; discriminate.
Qed.

Lemma shipping_charge_follows_two_tiers_witness :
  inOrderDateRange utcDate january unratedLine = true /\
  isCancelled unratedLine = false /\
  Js.mapGet Fixture.heavierRates
    (rateKey "lamp" (productWeight lampPrices unratedLine) "Delhivery") = None /\
  flatShippingRate lampPrices Fixture.heavierRates unratedLine = parseFloat 4000 /\
  (shippingTotal
     (processItem utcDate january lampPrices lampCosts Fixture.heavierRates initAcc
                  unratedLine) == 160)%Q.
Proof.
  pose proof (shipping_charge_follows_two_tiers utcDate january lampPrices lampCosts
                Fixture.heavierRates initAcc unratedLine eq_refl eq_refl)
    as (_ & H2 & _ & H4 & _).
  do 3 (split; [reflexivity|]).
  assert (Hflat : flatShippingRate lampPrices Fixture.heavierRates unratedLine =
                  parseFloat 4000).
  { refine (proj1 (H2 _) [] "lamp|1.000|Delhivery" (parseFloat 4000) [] eq_refl eq_refl
                  eq_refl _).
    - intros e H. discriminate H.
    - intros k' r' []. }
  split; [exact Hflat|].
  etransitivity; [rewrite H4; reflexivity | vm_compute; reflexivity].
Defined.

(** C3, refuted as stated: order K1 has a cancelled line and a shipped
    line, both inside the window, and a rate of 40 is configured.  The
    cancelled line is charged nothing, yet its order identifier is
    counted in [ordersWithShippingCharges], through the shipped line. *)
Lemma cancelled_line_of_a_charged_order_is_counted :
  let st := runPayouts utcDate Fixture.mixedStore january in
  let result := calculatePayouts utcDate Fixture.mixedStore january in
  In cancelledLine (orderData Fixture.mixedStore) /\
  isCancelled cancelledLine = true /\
  inOrderDateRange utcDate january cancelledLine = true /\
  OrderData.orderId cancelledLine = "K1" /\
  elements (uniqueShippingOrders st) = ["K1"] /\
  PayoutSummary.ordersWithShippingCharges (summary result) = 1%nat.
Proof.
  split; [left; reflexivity|]. vm_compute. repeat split.
Qed.

Lemma cancelled_line_has_no_shipping_charge_witness :
  isCancelled cancelledLine = true /\
  inOrderDateRange utcDate january cancelledLine = true /\
  shippingCostOf utcDate january lampPrices
    (buildRateMap (shippingRates Fixture.mixedStore)) cancelledLine = 0%Q /\
  (shippingTotal (runPayouts utcDate Fixture.mixedStore january) == 40)%Q /\
  exists o',
    In o' (orderData Fixture.mixedStore) /\ o' <> cancelledLine /\
    OrderData.orderId o' = OrderData.orderId cancelledLine /\
    isCancelled o' = false.
Proof.
  pose proof (cancelled_line_has_no_shipping_charge utcDate Fixture.mixedStore january
                cancelledLine eq_refl eq_refl) as (Hstep & _ & Hsum & _ & Hrun).
  do 2 (split; [reflexivity|]). split; [|split].
  - apply (Hstep lampPrices lampCosts (buildRateMap (shippingRates Fixture.mixedStore))
             initAcc).
  - rewrite Hsum. vm_compute. reflexivity.
  - assert (E : elements (uniqueShippingOrders (runPayouts utcDate Fixture.mixedStore
                                                           january)) = ["K1"])
      by (vm_compute; reflexivity).
    assert (Hin : OrderData.orderId cancelledLine ∈
                  uniqueShippingOrders (runPayouts utcDate Fixture.mixedStore january)).
    { apply elem_of_elements. rewrite E. apply list_elem_of_In. now left. }
    destruct (proj1 Hrun Hin) as (o' & Ho' & Hne & Hid & Hnc & _).
    exists o'. split; [|split; [exact Hne|split; [exact Hid | exact Hnc]]].
    unfold selectOrders in Ho'. now apply filter_In in Ho'.
Defined.

Lemma cancelled_line_emits_no_row_witness :
  isCancelled cancelledLine = true /\
  inOrderDateRange utcDate january cancelledLine = true /\
  resultRows (calculatePayouts utcDate cancelledStore january) = [] /\
  PayoutSummary.totalOrdersProcessed
    (summary (calculatePayouts utcDate cancelledStore january)) = 0%nat.
Proof.
  pose proof (cancelled_line_emits_no_row utcDate cancelledStore january
                cancelledLine eq_refl eq_refl) as (_ & _ & _ & Hrows & Hcount).
  do 2 (split; [reflexivity|]). split; [exact Hrows | exact Hcount].
Defined.

Lemma delivered_line_accumulates_product_cost_witness :
  isDelivered prepaidLine = true /\
  isCancelled prepaidLine = false /\
  inDeliveredDateRange utcDate january prepaidLine = true /\
  isCodOrder prepaidLine = false /\
  let st' := processItem utcDate january lampPrices lampCosts [] initAcc prepaidLine in
  let r := payoutRow utcDate january lampPrices lampCosts [] prepaidLine in
  (productCostTotal st' == 100)%Q /\
  uniqueProductAmountOrders st' = {["P1"]} ∪ ∅ /\
  (PayoutRow.productCost r == 100)%Q /\
  codTotal st' = 0%Q /\
  uniqueCodOrders st' = ∅ /\
  In r (resultRows (calculatePayouts utcDate prepaidStore january)) /\
  "P1" ∈ uniqueProductAmountOrders (runPayouts utcDate prepaidStore january).
Proof.
  pose proof (delivered_line_accumulates_product_cost utcDate prepaidStore january
                initAcc prepaidLine eq_refl eq_refl eq_refl)
    as (H1 & H2 & _ & H4 & H5 & H8).
  destruct (H5 eq_refl) as (H6 & H7 & _).
  destruct (H8 (or_introl eq_refl)) as [H9 H10].
  do 4 (split; [reflexivity|]).
  split; [etransitivity; [exact H1 | reflexivity]|].
  split; [exact H2|].
  split; [refine (eq_ind_r (fun c : Q => (c == 100)%Q) _ H4); reflexivity|].
  split; [exact H6|].
  split; [exact H7|].
  split; [exact H9 | exact H10].
Defined.

Lemma delivered_cod_line_receives_stored_value_witness :
  isDelivered codLine = true /\
  isCancelled codLine = false /\
  inDeliveredDateRange utcDate january codLine = true /\
  isCodOrder codLine = true /\
  OrderData.qty codLine = 2 /\
  let r := payoutRow utcDate january lampPrices lampCosts [] codLine in
  (PayoutRow.codReceived r == 199)%Q /\
  (codTotal (processItem utcDate january lampPrices lampCosts [] initAcc codLine)
   == 199)%Q /\
  In r (resultRows (calculatePayouts utcDate codStore january)).
Proof.
  pose proof (delivered_cod_line_receives_stored_value utcDate codStore january
                initAcc codLine eq_refl eq_refl eq_refl eq_refl)
    as (_ & H2 & H3 & _ & H5).
  destruct (H5 (or_introl eq_refl)) as [H6 _].
  do 5 (split; [reflexivity|]). split; [|split].
  - etransitivity; [exact H2 | reflexivity].
  - etransitivity; [exact H3 | reflexivity].
  - exact H6.
Defined.

Lemma payment_mode_classification_witness :
  OrderData.mode prepaidLine = orNull (Js.trim " Prepaid ") /\
  isCodOrder prepaidLine = false /\
  codTotal (processItem utcDate january lampPrices lampCosts [] initAcc prepaidLine)
  = 0%Q /\
  OrderData.mode codLine = orNull (Js.trim "COD") /\
  isCodOrder codLine = true.
Proof.
  pose proof (payment_mode_classification utcDate january lampPrices lampCosts []
                initAcc prepaidLine) as (_ & Hstored & Hno).
  destruct (Hstored " Prepaid " eq_refl) as [_ Hother].
  assert (Hp : isCodOrder prepaidLine = false).
  { apply (Hother "Prepaid" eq_refl). vm_compute. discriminate. }
  destruct (Hno Hp) as (H1 & _ & _).
  pose proof (payment_mode_classification utcDate january lampPrices lampCosts []
                initAcc codLine) as (Hcod & _ & _).
  split; [reflexivity|]. split; [exact Hp|]. split; [exact H1|]. split; [reflexivity|].
  apply Hcod. right. exists "COD". split; [reflexivity|]. right. now right.
Defined.



Lemma reconciled_order_is_never_suggested_witness :
  (exists db0 id data r,
     processRtsRtoReconciliation db0 id data = (confirmedStore, Some r) /\
     InsertRtsRtoReconciliation.orderId data = "A1") /\
  exists s,
    In s (autoDetectRtsRtoReconciliations utcDate uuidNumber confirmedStore window) /\
    Suggestion.orderId s = "B1" /\
    Suggestion.orderId s <> "A1".
Proof.
  assert (Hconfirmed :
            exists db0 id data r,
              processRtsRtoReconciliation db0 id data = (confirmedStore, Some r) /\
              InsertRtsRtoReconciliation.orderId data = "A1").
  { exists twoOrderStore, "00000000-0000-4000-8000-0000000000c1", a1Confirmation.
    eexists. split; reflexivity. }
  split; [exact Hconfirmed|].
  eexists. split; [left; reflexivity|]. split; [reflexivity|].
  apply (reconciled_order_is_never_suggested utcDate uuidNumber confirmedStore window).
  - right. exact Hconfirmed.
  - left. reflexivity.
Defined.



(** * Further properties of the payout run *)

(** X1.  Every row of the result belongs to an account that the order
    query selects: never one of the two system accounts, whatever the
    case of its letters, and, when a dropshipper is given, only that
    dropshipper up to case. *)
Theorem rows_only_from_selected_accounts
    parseDate (db : Database) req (r : PayoutRow.t) :
  In r (resultRows (calculatePayouts parseDate db req)) ->
  let e := Js.toLowerCase (PayoutRow.dropshipperEmail r) in
  ~ In e excludedEmails /\
  forall d, truthy (PayoutCalculationRequest.dropshipperEmail req) = Some d ->
            e = Js.toLowerCase d.
Proof.
  unfold calculatePayouts, runPayouts. simpl. rewrite run_rows. simpl.
  intros Hin. apply in_map_iff in Hin as (o & <- & Hin).
  apply kept_not_skipped in Hin as [Hin _].
  apply (proj1 (visitOrder_In _ _)) in Hin.
  unfold selectOrders in Hin. apply filter_In in Hin as [_ Hf].
  apply andb_true_iff in Hf as [Hex Hd]. simpl. split.
  - intros Hin. apply negb_true_iff in Hex.
    apply Bool.not_true_iff_false in Hex. apply Hex.
    apply existsb_exists. eexists. split; [exact Hin | apply String.eqb_refl].
  - intros d Hd'. rewrite Hd' in Hd. now apply String.eqb_eq in Hd.
Qed.

Lemma size_list_to_set_le (l : list string) :
  (size (list_to_set l : gset string) <= length l)%nat.
Proof.
  induction l as [|x l IH].
  - rewrite list_to_set_nil, size_empty. reflexivity.
  - rewrite list_to_set_cons, size_union_alt, size_singleton. simpl.
    assert (list_to_set l ∖ {[x]} ⊆ (list_to_set l : gset string)) as Hs.
    { intros y Hy. now apply elem_of_difference in Hy as [Hy _]. }
    apply subseteq_size in Hs. lia.
Qed.

Lemma run_set_rows parseDate req prices priceMap rateMap
    (proj : Acc -> gset string) (adds : OrderData.t -> bool) (items : list OrderData.t) :
  proj initAcc = ∅ ->
  (forall st o,
     proj (processItem parseDate req prices priceMap rateMap st o) =
     if adds o then {[OrderData.orderId o]} ∪ proj st else proj st) ->
  (forall o, adds o = true -> skipped parseDate req o = false) ->
  (size (proj (foldl (processItem parseDate req prices priceMap rateMap) initAcc items))
   <= length (kept parseDate req items))%nat.
Proof.
  intros H0 Hstep Hkept.
  rewrite <- (length_map OrderData.orderId).
  etransitivity; [|apply size_list_to_set_le].
  apply subseteq_size. intros x Hx.
  apply (run_set parseDate req prices priceMap rateMap proj adds Hstep) in Hx.
  rewrite H0 in Hx. destruct Hx as [Hx | (o & Hin & <- & Ha)]; [set_solver|].
  apply elem_of_list_to_set, list_elem_of_In, in_map, kept_not_skipped.
  split; [exact Hin | now apply Hkept].
Qed.

(** X2.  The order counts of the summary are ordered: an order counted
    for COD is counted for product amount, and none of the three
    counts of distinct orders exceeds the number of rows. *)
Theorem summary_counts_are_ordered parseDate (db : Database) req :
  let st := runPayouts parseDate db req in
  let s := summary (calculatePayouts parseDate db req) in
  uniqueCodOrders st ⊆ uniqueProductAmountOrders st /\
  (PayoutSummary.ordersWithCodAmount s <= PayoutSummary.ordersWithProductAmount s)%nat /\
  (PayoutSummary.ordersWithProductAmount s <= PayoutSummary.totalOrdersProcessed s)%nat /\
  (PayoutSummary.ordersWithShippingCharges s <= PayoutSummary.totalOrdersProcessed s)%nat.
Proof.
  intros st s.
  assert (Hsub : uniqueCodOrders st ⊆ uniqueProductAmountOrders st).
  { intros x Hx. unfold st, runPayouts in *.
    apply run_uniqueCodOrders in Hx. apply run_uniqueProductAmountOrders.
    destruct Hx as [Hx | (o & Hin & Hid & Hc)]; [set_solver|].
    right. exists o. repeat split; try assumption.
    unfold countsCod in Hc. now apply andb_true_iff in Hc as [Hc _]. }
  split; [exact Hsub|].
  unfold s, calculatePayouts, summarize. simpl. fold st.
  split; [now apply subseteq_size|].
  assert (Hrows : length (rows st) =
                  length (kept parseDate req
                            (visitOrder
                               (selectOrders
                                  (PayoutCalculationRequest.dropshipperEmail req)
                                  (orderData db))))).
  { unfold st, runPayouts. rewrite run_rows. simpl. apply length_map. }
  rewrite Hrows. unfold st, runPayouts. split.
  - apply (run_set_rows _ _ _ _ _ uniqueProductAmountOrders (countsProduct parseDate req));
      [reflexivity | apply processItem_uniqueProductAmountOrders |].
    intros o Ho. unfold countsProduct in Ho.
    apply andb_true_iff in Ho as [Ho _]. apply andb_true_iff in Ho as [Ho _].
    now apply negb_true_iff in Ho.
  - apply (run_set_rows _ _ _ _ _ uniqueShippingOrders
             (chargesShipping parseDate req
                (filterPrices (PayoutCalculationRequest.dropshipperEmail req)
                              (productPrices db))
                (buildRateMap (shippingRates db))));
      [reflexivity | apply processItem_uniqueShippingOrders |].
    intros o Ho. unfold chargesShipping in Ho.
    apply andb_true_iff in Ho as [Ho _]. apply andb_true_iff in Ho as [Ho _].
    apply negb_true_iff in Ho. unfold skipped. now rewrite Ho.
Qed.

(** ** Shipping charges are never negative *)

Lemma anyWeightRate_found (entries : list (string * Q)) (o : OrderData.t) (r : Q) :
  anyWeightRate entries o = Some r ->
  (0 < r)%Q /\ exists key, In (key, r) entries.
Proof.
  induction entries as [|[key rate] entries IH]; simpl; [discriminate|].
  assert (Hrest : anyWeightRate entries o = Some r ->
                  (0 < r)%Q /\ exists key0, (key, rate) = (key0, r) \/ In (key0, r) entries).
  { intros H. destruct (IH H) as [Hp (k & Hk)]. split; [exact Hp|]. exists k. now right. }
  destruct (Js.splitPipe key) as [|uid [|w [|provider rest]]]; try exact Hrest.
  destruct (String.eqb uid (OrderData.productUid o) &&
            String.eqb provider (OrderData.shippingProvider o) &&
            Js.positive rate) eqn:E; [|exact Hrest].
  intros [= <-]. apply andb_true_iff in E as [_ E]. apply positive_iff in E.
  split; [exact E|]. exists key. now left.
Qed.

Lemma mapGet_In {V} (m : list (string * V)) (k : string) (v : V) :
  Js.mapGet m k = Some v -> In (k, v) m.
Proof.
  induction m as [|[k' v'] m IH]; simpl; [discriminate|].
  destruct (String.eqb k' k) eqn:E.
  - intros [= <-]. apply String.eqb_eq in E. subst. now left.
  - intros H. right. now apply IH.
Qed.

Lemma flatShippingRate_configured prices rateMap (o : OrderData.t) :
  flatShippingRate prices rateMap o = 0%Q \/
  ((0 < flatShippingRate prices rateMap o)%Q /\
   exists key, In (key, flatShippingRate prices rateMap o) rateMap).
Proof.
  unfold flatShippingRate.
  destruct (Qeq_bool (exactRate prices rateMap o) 0) eqn:E.
  - destruct (anyWeightRate rateMap o) as [r|] eqn:Ea; simpl; [|now left].
    right. now apply (anyWeightRate_found rateMap o).
  - right. revert E. unfold exactRate.
    set (k := rateKey _ _ _).
    destruct (Js.positive (Js.getOrElse (Js.mapGet rateMap k) 0)) eqn:P;
      [|intros E; discriminate E].
    intros _. split; [now apply positive_iff|].
    exists k. revert P. unfold Js.getOrElse.
    destruct (Js.mapGet rateMap k) as [v|] eqn:G; [|intros P; discriminate P].
    unfold Js.orElse. destruct (Qeq_bool v 0); [intros P; discriminate P|].
    intros _. now apply mapGet_In.
Qed.

Lemma Math_round_nonneg (x : Q) : (0 <= x)%Q -> (0 <= Js.Math_round x)%Z.
Proof.
  intros H. unfold Js.Math_round.
  change 0%Z with (Qfloor 0). apply Qfloor_resp_le.
  apply Qle_trans with x; [exact H|].
  rewrite <- (Qplus_0_r x) at 1. apply Qplus_le_r. discriminate.
Qed.

Lemma round2_nonneg (x : Q) : (0 <= x)%Q -> (0 <= Js.round2 x)%Q.
Proof.
  intros H. unfold Js.round2.
  assert (Hz : (0 <= Js.Math_round (x * 100))%Z).
  { apply Math_round_nonneg. apply Qmult_le_0_compat; [exact H | discriminate]. }
  apply Qle_shift_div_l; [reflexivity|]. rewrite Qmult_0_l.
  unfold Qle, inject_Z. simpl. lia.
Qed.

Lemma shippingCostOf_nonneg parseDate req prices rateMap (o : OrderData.t) :
  (0 <= OrderData.qty o)%Z ->
  (0 <= shippingCostOf parseDate req prices rateMap o)%Q.
Proof.
  intros Hq. unfold shippingCostOf.
  destruct (inOrderDateRange parseDate req o && negb (isCancelled o)); [|apply Qle_refl].
  apply round2_nonneg, Qmult_le_0_compat.
  - unfold Qle, inject_Z. simpl. lia.
  - destruct (flatShippingRate_configured prices rateMap o) as [-> | [H _]];
      [apply Qle_refl | now apply Qlt_le_weak].
Qed.

Lemma sumQ_nonneg (l : list Q) : (forall x, In x l -> (0 <= x)%Q) -> (0 <= sumQ l)%Q.
Proof.
  induction l as [|x l IH]; intros H; simpl; [apply Qle_refl|].
  change 0%Q with (0 + 0)%Q. apply Qplus_le_compat.
  - apply H. now left.
  - apply IH. intros y Hy. apply H. now right.
Qed.

(** X3.  The flat rate of a line is 0 or a positive rate stored in the
    rate map: a stored rate that is zero or negative is never used.
    So when no selected line has a negative quantity, no row carries a
    negative shipping cost and the shipping total is not negative. *)
Theorem shipping_is_never_negative parseDate (db : Database) req :
  (forall o, In o (orderData db) -> (0 <= OrderData.qty o)%Z) ->
  let rateMap := buildRateMap (shippingRates db) in
  (forall prices o,
     flatShippingRate prices rateMap o = 0%Q \/
     ((0 < flatShippingRate prices rateMap o)%Q /\
      exists key, In (key, flatShippingRate prices rateMap o) rateMap)) /\
  (forall r, In r (resultRows (calculatePayouts parseDate db req)) ->
             (0 <= PayoutRow.shippingCost r)%Q) /\
  (0 <= shippingTotal (runPayouts parseDate db req))%Q /\
  (0 <= PayoutSummary.shippingTotal (summary (calculatePayouts parseDate db req)))%Z.
Proof.
  intros Hq rateMap.
  assert (Hsel : forall o,
             In o (kept parseDate req
                     (visitOrder
                        (selectOrders (PayoutCalculationRequest.dropshipperEmail req)
                                      (orderData db)))) ->
             (0 <= OrderData.qty o)%Z).
  { intros o Hin. apply kept_not_skipped in Hin as [Hin _].
    apply (proj1 (visitOrder_In _ _)) in Hin. unfold selectOrders in Hin.
    apply filter_In in Hin as [Hin _]. now apply Hq. }
  assert (Htot : (0 <= shippingTotal (runPayouts parseDate db req))%Q).
  { unfold runPayouts. rewrite run_shippingTotal.
    change (shippingTotal initAcc) with 0%Q. rewrite Qplus_0_l.
    apply sumQ_nonneg. intros x Hx. apply in_map_iff in Hx as (o & <- & Hin).
    apply shippingCostOf_nonneg, Hsel, Hin. }
  split; [intros; apply flatShippingRate_configured|].
  split; [|split; [exact Htot | now apply Math_round_nonneg]].
  intros r Hr. unfold calculatePayouts, runPayouts in Hr. simpl in Hr.
  rewrite run_rows in Hr. simpl in Hr. apply in_map_iff in Hr as (o & <- & Hin).
  simpl. apply shippingCostOf_nonneg, Hsel, Hin.
Qed.

(** * Further properties of the detector *)


Section SortBy.

Context {A : Type} (cmp : A -> A -> Q).

Let before (a b : A) : Prop := Qle_bool (cmp a b) 0 = true.

Hypothesis before_total : forall a b, before a b \/ before b a.
Hypothesis before_trans : forall a b c, before a b -> before b c -> before a c.

Lemma insertSorted_sorted (x : A) (l : list A) :
  StronglySorted before l -> StronglySorted before (Js.insertSorted cmp x l).
Proof.
  induction l as [|y l IH]; intros Hs; simpl.
  - constructor; [constructor | constructor].
  - apply StronglySorted_inv in Hs as [Hs Hy].
    destruct (Qle_bool (cmp x y) 0) eqn:E.
    + constructor; [now constructor|].
      constructor; [exact E|].
      apply List.Forall_forall. intros z Hz.
      apply (before_trans x y z E). now apply (proj1 (List.Forall_forall _ _) Hy).
    + constructor; [now apply IH|].
      apply List.Forall_forall. intros z Hz.
      apply list_elem_of_In in Hz. rewrite insertSorted_perm in Hz.
      apply list_elem_of_In in Hz. destruct Hz as [<- | Hz].
      * destruct (before_total x y) as [H | H]; [unfold before in H; congruence | exact H].
      * now apply (proj1 (List.Forall_forall _ _) Hy).
Qed.

Lemma sort_sorted (l : list A) : StronglySorted before (Js.sort cmp l).
Proof.
  induction l as [|x l IH]; [constructor|].
  unfold Js.sort in *. simpl. now apply insertSorted_sorted.
Qed.

End SortBy.

Lemma confidenceOrder_inj (a b : Confidence) :
  confidenceOrder a = confidenceOrder b -> a = b.
Proof. destruct a, b; simpl; intros H; try reflexivity; discriminate H. Qed.

Lemma Qminus_nonpos (x y : Q) : (x - y <= 0)%Q <-> (x <= y)%Q.
Proof.
  rewrite (Qle_minus_iff x y), (Qle_minus_iff (x - y) 0).
  assert (E : (0 + - (x - y) == y + - x)%Q) by ring.
  now rewrite E.
Qed.

Lemma compareSuggestions_before (a b : Suggestion.t) :
  Qle_bool (compareSuggestions a b) 0 = true <-> mayPrecede a b.
Proof.
  rewrite Qle_bool_iff. unfold compareSuggestions, mayPrecede.
  destruct (Z.eqb_spec (confidenceOrder (Suggestion.confidence a))
                       (confidenceOrder (Suggestion.confidence b))) as [E | E].
  - rewrite Qminus_nonpos. split.
    + intros H. right. split; [now apply confidenceOrder_inj | exact H].
    + intros [H | [_ H]]; [lia | exact H].
  - unfold Qle, inject_Z. simpl. split.
    + intros H. left. lia.
    + intros [H | [H _]]; [lia | congruence].
Qed.

Lemma mayPrecede_total (a b : Suggestion.t) : mayPrecede a b \/ mayPrecede b a.
Proof.
  unfold mayPrecede.
  destruct (Z.lt_trichotomy (confidenceOrder (Suggestion.confidence a))
                            (confidenceOrder (Suggestion.confidence b)))
    as [H | [H | H]]; [right; now left | | left; now left].
  apply confidenceOrder_inj in H.
  destruct (Qlt_le_dec (Suggestion.suggestedReversalAmount a)
                       (Suggestion.suggestedReversalAmount b)) as [Hq | Hq].
  - right. right. split; [now symmetry | now apply Qlt_le_weak].
  - left. right. now split.
Qed.

Lemma mayPrecede_trans (a b c : Suggestion.t) :
  mayPrecede a b -> mayPrecede b c -> mayPrecede a c.
Proof.
  unfold mayPrecede. intros [H1 | [E1 H1]] [H2 | [E2 H2]].
  - left. lia.
  - left. now rewrite <- E2.
  - left. now rewrite E1.
  - right. split; [congruence | now apply Qle_trans with (Suggestion.suggestedReversalAmount b)].
Qed.

(** X4.  The suggestions come back ordered: every suggestion stands
    before all those of lower confidence, and among suggestions of
    equal confidence before all those of smaller reversal amount. *)
Theorem suggestions_are_sorted parseDate toNumber (db : Database) params :
  StronglySorted mayPrecede (autoDetectRtsRtoReconciliations parseDate toNumber db params).
Proof.
  unfold autoDetectRtsRtoReconciliations.
  eapply StronglySorted_ind with
    (P := fun l => StronglySorted mayPrecede l);
    [constructor | | apply (sort_sorted compareSuggestions)].
  - intros a l _ IH Hall. constructor; [exact IH|].
    eapply List.Forall_impl; [|exact Hall].
    intros b Hb. now apply compareSuggestions_before.
  - intros a b. destruct (mayPrecede_total a b) as [H | H];
      [left | right]; now apply compareSuggestions_before.
  - intros a b c H1 H2. apply compareSuggestions_before.
    apply compareSuggestions_before in H1, H2. now apply (mayPrecede_trans a b c).
Qed.

(** X5.  The confidence ladder.  For every suggestion returned: when a
    row of the payout log names the order, the reversal and the
    original amount are the amount of the last such row, in the order
    the query returns them, and the confidence is high with a
    transition and medium without; when none does, both amounts are 0,
    since a row of [order_data] carries no [codAmount], and the
    confidence is high with a transition and low without.  Row
    identifiers being UUIDs, which are not numbers, a transition is
    reported exactly when the scan finds one among the rows of the
    order in the order the query returns them. *)
Theorem confidence_ladder parseDate toNumber (db : Database) params (s : Suggestion.t) :
  In s (autoDetectRtsRtoReconciliations parseDate toNumber db params) ->
  (idsAreNotNumbers toNumber db ->
   Suggestion.statusChangeDetected s =
     bool_decide
       (is_Some (detectTransition (rowsOf db params (Suggestion.orderId s))))) /\
  match priorPayout db (Suggestion.orderId s) with
  | Some p =>
      (Suggestion.suggestedReversalAmount s == parseFloat (PayoutLog.paidAmount p))%Q /\
      (Suggestion.originalPaidAmount s == parseFloat (PayoutLog.paidAmount p))%Q /\
      Suggestion.confidence s =
        (if Suggestion.statusChangeDetected s then high else medium)
  | None =>
      (Suggestion.suggestedReversalAmount s == 0)%Q /\
      (Suggestion.originalPaidAmount s == 0)%Q /\
      Suggestion.confidence s =
        (if Suggestion.statusChangeDetected s then high else low)
  end.
Proof.
  intros Hs. apply autoDetect_In in Hs as (o & Hin & _ & ->).
  rewrite suggest_orderId.
  rewrite <- (payoutMapFor_lookup db
                (map OrderData.orderId
                   (currentRtsRtoOrders parseDate params (detectScope db params))))
    by apply in_map, Hin.
  split.
  - intros Hids. rewrite <- (historyOf_rowsOf toNumber) by exact Hids.
    unfold suggest. fold (historyOf toNumber db params (OrderData.orderId o)).
    destruct (bool_decide _), (payoutMapFor db _ !! OrderData.orderId o); reflexivity.
  - unfold suggest. fold (historyOf toNumber db params (OrderData.orderId o)).
    destruct (bool_decide (is_Some (detectTransition
                                      (historyOf toNumber db params
                                                 (OrderData.orderId o)))));
      destruct (payoutMapFor db _ !! OrderData.orderId o) as [p|]; simpl;
      repeat split; try apply round2_decimal; apply (round2_decimal 0).
Qed.

(** * The reconciliation ledger *)

Lemma find_app_fresh {A} (f : A -> bool) (l : list A) (x : A) :
  existsb f l = false -> f x = true -> List.find f (l ++ [x])%list = Some x.
Proof.
  intros E Hx. induction l as [|y l IH]; simpl.
  - now rewrite Hx.
  - simpl in E. apply orb_false_iff in E as [E1 E2]. rewrite E1. now apply IH.
Qed.


(** * Configuration gaps *)

Lemma mapSet_In {V} (m : list (string * V)) (k k' : string) (v v' : V) :
  In (k', v') (Js.mapSet m k v) -> (k' = k /\ v' = v) \/ In (k', v') m.
Proof.
  induction m as [|[k0 v0] m IH]; simpl.
  - intros [[= <- <-] | []]. now left.
  - destruct (String.eqb k0 k) eqn:E.
    + apply String.eqb_eq in E. subst.
      intros [[= <- <-] | H]; [now left | right; now right].
    + intros [H | H]; [right; now left|].
      destruct (IH H) as [H' | H']; [now left | right; now right].
Qed.

Lemma mapSet_key_In {V} (m : list (string * V)) (k k' : string) (v : V) :
  In k' (map fst (Js.mapSet m k v)) <-> k' = k \/ In k' (map fst m).
Proof.
  rewrite mapSet_keys.
  destruct (existsb (String.eqb k) (map fst m)) eqn:E.
  - apply existsb_eqb_In in E. split; [now right | intros [-> | H]; assumption].
  - rewrite in_app_iff. simpl. split; [intros [H | [<- | []]]; auto | intros [-> | H]; auto].
Qed.

Lemma setAdd_In (s : list string) (x y : string) :
  In y (setAdd s x) <-> y = x \/ In y s.
Proof.
  unfold setAdd. destruct (existsb (String.eqb x) s) eqn:E.
  - apply existsb_eqb_In in E. split; [now right | intros [-> | H]; assumption].
  - rewrite in_app_iff. simpl. split; [intros [H | [<- | []]]; auto | intros [-> | H]; auto].
Qed.

Lemma setAdd_NoDup (s : list string) (x : string) :
  NoDup s -> NoDup (setAdd s x).
Proof.
  intros H. unfold setAdd. destruct (existsb (String.eqb x) s) eqn:E; [exact H|].
  apply NoDup_snoc; [exact H|]. intros Hin. apply existsb_eqb_In in Hin. congruence.
Qed.

Lemma existingPrices_elem (prices : list ProductPrice.t) (k : string) :
  k ∈ existingPrices prices <->
  exists p, In p prices /\
    priceKey (ProductPrice.dropshipperEmail p) (ProductPrice.productUid p) = k.
Proof.
  unfold existingPrices. rewrite elem_of_list_to_set, list_elem_of_In, in_map_iff.
  split; intros (p & H1 & H2); exists p; tauto.
Qed.

Lemma existingRates_elem (rates : list ShippingRate.t) (k : string) :
  k ∈ existingRates rates <->
  exists r, In r rates /\
    missingRateKey (ShippingRate.productUid r) (ShippingRate.productWeight r)
                   (ShippingRate.shippingProvider r) = k.
Proof.
  unfold existingRates. rewrite elem_of_list_to_set, list_elem_of_In, in_map_iff.
  split; intros (p & H1 & H2); exists p; tauto.
Qed.

Section MissingLoop.

Variable prices : list ProductPrice.t.
Variable rates : list ShippingRate.t.

Let step := noteMissing prices rates.

(** An order that adds to the report of missing prices. *)
Let lacksPrice (o : OrderData.t) : Prop :=
  isExcluded o = false /\ orderPriceKey o ∉ existingPrices prices.

Let lacksRate (o : OrderData.t) : Prop :=
  isExcluded o = false /\ orderRateKey prices o ∉ existingRates rates.

Lemma noteMissing_products_NoDup (orders : list OrderData.t) st :
  NoDup (map fst (fst st)) ->
  NoDup (map fst (fst (foldl step st orders))).
Proof.
  revert st. induction orders as [|o orders IH]; intros st H; [exact H|].
  simpl. apply IH. unfold step, noteMissing.
  destruct (isExcluded o); [exact H|]. simpl.
  destruct (bool_decide _); [exact H | now apply mapSet_NoDup].
Qed.

Lemma noteMissing_products_sound (orders : list OrderData.t) st k m :
  In (k, m) (fst (foldl step st orders)) ->
  In (k, m) (fst st) \/
  exists o, In o orders /\ lacksPrice o /\ k = orderPriceKey o /\ m = toMissingPrice o.
Proof.
  revert st. induction orders as [|o orders IH]; intros st H; [now left|].
  simpl in H. apply IH in H as [H | (o' & Hin & Ho')];
    [|right; exists o'; split; [now right | exact Ho']].
  unfold step, noteMissing in H.
  destruct (isExcluded o) eqn:E; [now left|]. simpl in H.
  destruct (bool_decide _) eqn:B; [now left|].
  apply mapSet_In in H as [[-> ->] | H]; [|now left].
  right. exists o. split; [now left|]. split; [|now split].
  split; [exact E | now apply bool_decide_eq_false in B].
Qed.

Lemma noteMissing_products_keep (orders : list OrderData.t) st k :
  In k (map fst (fst st)) -> In k (map fst (fst (foldl step st orders))).
Proof.
  revert st. induction orders as [|o orders IH]; intros st H; [exact H|].
  simpl. apply IH. unfold step, noteMissing.
  destruct (isExcluded o); [exact H|]. simpl.
  destruct (bool_decide _); [exact H|]. apply mapSet_key_In. now right.
Qed.

Lemma noteMissing_products_complete (orders : list OrderData.t) st o :
  In o orders -> lacksPrice o ->
  In (orderPriceKey o) (map fst (fst (foldl step st orders))).
Proof.
  revert st. induction orders as [|o' orders IH]; intros st [] Ho.
  - subst o'. simpl. apply noteMissing_products_keep.
    destruct Ho as [E B]. unfold step, noteMissing. rewrite E. simpl.
    rewrite (bool_decide_eq_false_2 _ B). apply mapSet_key_In. now left.
  - simpl. now apply IH.
Qed.

Lemma noteMissing_rates_NoDup (orders : list OrderData.t) st :
  NoDup (snd st) -> NoDup (snd (foldl step st orders)).
Proof.
  revert st. induction orders as [|o orders IH]; intros st H; [exact H|].
  simpl. apply IH. unfold step, noteMissing.
  destruct (isExcluded o); [exact H|]. simpl.
  destruct (bool_decide (orderRateKey prices o ∈ existingRates rates));
    [exact H | now apply setAdd_NoDup].
Qed.

Lemma noteMissing_rates_In (orders : list OrderData.t) st k :
  In k (snd (foldl step st orders)) <->
  In k (snd st) \/ exists o, In o orders /\ lacksRate o /\ k = orderRateKey prices o.
Proof.
  revert st. induction orders as [|o orders IH]; intros st.
  - simpl. split; [now left | intros [H | (o & [] & _)]; exact H].
  - simpl. rewrite IH. unfold step, noteMissing.
    destruct (isExcluded o) eqn:E.
    + split; [intros [H | (o' & Hin & Ho')]; [now left | right; exists o'; split; [now right | exact Ho']]|].
      intros [H | (o' & [<- | Hin] & Ho')]; [now left | | right; exists o'; now split].
      destruct Ho' as [[E' _] _]. congruence.
    + simpl. destruct (bool_decide (orderRateKey prices o ∈ existingRates rates)) eqn:B.
      * split; [intros [H | (o' & Hin & Ho')]; [now left | right; exists o'; split; [now right | exact Ho']]|].
        intros [H | (o' & [<- | Hin] & Ho')]; [now left | | right; exists o'; now split].
        destruct Ho' as [[_ B'] _]. apply bool_decide_eq_true in B. contradiction.
      * rewrite setAdd_In. apply bool_decide_eq_false in B. split.
        -- intros [[-> | H] | (o' & Hin & Ho')].
           ++ right. exists o. split; [now left|]. split; [now split | reflexivity].
           ++ now left.
           ++ right. exists o'. split; [now right | exact Ho'].
        -- intros [H | (o' & [<- | Hin] & Ho')].
           ++ left. now right.
           ++ left. left. now destruct Ho' as [_ ->].
           ++ right. exists o'. now split.
Qed.

End MissingLoop.

Lemma getAllOrderData_In (db : Database) (o : OrderData.t) :
  In o (getAllOrderData db) <-> In o (orderData db).
Proof. apply sort_In. Qed.

Lemma missingPrices_entries (db : Database) (k : string) (m : MissingPrice.t) :
  In (k, m)
     (fst (foldl (noteMissing (productPrices db) (shippingRates db)) ([], [])
                 (getAllOrderData db))) ->
  exists o, In o (orderData db) /\ m = toMissingPrice o /\
    k = priceKey (MissingPrice.dropshipperEmail m) (MissingPrice.productUid m) /\
    isExcluded o = false /\ orderPriceKey o ∉ existingPrices (productPrices db).
Proof.
  intros H. apply noteMissing_products_sound in H as [[] | (o & Hin & [E B] & Hk & Hm)].
  apply getAllOrderData_In in Hin.
  subst k m. exists o. repeat split; assumption.
Qed.

Lemma missingPrices_keys (db : Database) :
  map (fun m => priceKey (MissingPrice.dropshipperEmail m) (MissingPrice.productUid m))
      (missingPrices (getMissingPricesAndRates db)) =
  map fst (fst (foldl (noteMissing (productPrices db) (shippingRates db)) ([], [])
                      (getAllOrderData db))).
Proof.
  unfold getMissingPricesAndRates. simpl.
  rewrite map_map. apply map_ext_in. intros [k m] Hin.
  destruct (missingPrices_entries db k m Hin) as (o & _ & _ & Hk & _). now symmetry.
Qed.

Lemma missingPrices_sound (db : Database) (m : MissingPrice.t) :
  In m (missingPrices (getMissingPricesAndRates db)) ->
  exists o, In o (orderData db) /\ m = toMissingPrice o /\
    isExcluded o = false /\
    forall p, In p (productPrices db) ->
      priceKey (ProductPrice.dropshipperEmail p) (ProductPrice.productUid p) <>
      priceKey (MissingPrice.dropshipperEmail m) (MissingPrice.productUid m).
Proof.
  unfold getMissingPricesAndRates. simpl.
  intros Hm. apply in_map_iff in Hm as ([k m'] & <- & Hin). simpl.
  destruct (missingPrices_entries db k m' Hin) as (o & Ho & Hm & _ & E & B).
  subst m'. exists o. repeat split; try assumption.
  intros p Hp Hk. apply B, existingPrices_elem. exists p. split; [exact Hp|].
  rewrite Hk. reflexivity.
Qed.

(** X9.  The report of missing prices names each unpriced product once
    and only unpriced products: its keys are pairwise distinct; every
    entry repeats the fields of an order of an account that is not
    excluded and whose key [email|productUid] no price row has; and
    every such order has an entry under its key. *)
Theorem missing_prices_are_exactly_the_unpriced (db : Database) :
  let report := missingPrices (getMissingPricesAndRates db) in
  let key m := priceKey (MissingPrice.dropshipperEmail m) (MissingPrice.productUid m) in
  NoDup (map key report) /\
  (forall m, In m report ->
     exists o, In o (orderData db) /\ m = toMissingPrice o /\
       isExcluded o = false /\
       forall p, In p (productPrices db) ->
         priceKey (ProductPrice.dropshipperEmail p) (ProductPrice.productUid p) <> key m) /\
  (forall o, In o (orderData db) -> isExcluded o = false ->
     (forall p, In p (productPrices db) ->
        priceKey (ProductPrice.dropshipperEmail p) (ProductPrice.productUid p) <>
        orderPriceKey o) ->
     exists m, In m report /\ key m = orderPriceKey o).
Proof.
  intros report key. split; [|split].
  - unfold report, key. rewrite missingPrices_keys.
    apply noteMissing_products_NoDup. apply NoDup_nil_2.
  - apply missingPrices_sound.
  - intros o Hin E Hno.
    assert (Hk : In (orderPriceKey o) (map key report)).
    { unfold report, key. rewrite missingPrices_keys.
      apply noteMissing_products_complete; [now apply getAllOrderData_In|].
      split; [exact E|].
      intros He. apply existingPrices_elem in He as (p & Hp & Hk). now apply (Hno p). }
    apply in_map_iff in Hk as (m & Hm & Hin').
    exists m. now split.
Qed.

(** X10.  The report of missing rates lists, each once, exactly the
    keys [productUid + weight + "kg" + carrier] of the orders of
    accounts that are not excluded for which no rate row gives the
    same key, the weight being the one configured for the product, or
    0.5. *)
Theorem missing_rates_are_exactly_the_unrated (db : Database) :
  let report := missingRates (getMissingPricesAndRates db) in
  NoDup report /\
  forall k, In k report <->
    exists o, In o (orderData db) /\ isExcluded o = false /\
      k = orderRateKey (productPrices db) o /\
      forall r, In r (shippingRates db) ->
        missingRateKey (ShippingRate.productUid r) (ShippingRate.productWeight r)
                       (ShippingRate.shippingProvider r) <> k.
Proof.
  intros report. unfold report, getMissingPricesAndRates. simpl. split.
  - apply noteMissing_rates_NoDup. apply NoDup_nil_2.
  - intros k. rewrite noteMissing_rates_In. simpl. split.
    + intros [[] | (o & Hin & [E B] & ->)]. apply getAllOrderData_In in Hin.
      exists o. repeat split; try assumption.
      intros r Hr Hk. apply B, existingRates_elem. now exists r.
    + intros (o & Hin & E & -> & Hno). right. exists o.
      split; [now apply getAllOrderData_In|].
      split; [|reflexivity]. split; [exact E|].
      intros He. apply existingRates_elem in He as (r & Hr & Hk). now apply (Hno r).
Qed.

Lemma buildPriceMap_is_Some (prices : list ProductPrice.t) (k : string) :
  is_Some (buildPriceMap prices !! k) <->
  exists p, In p prices /\
    priceKey (ProductPrice.dropshipperEmail p) (ProductPrice.productUid p) = k.
Proof.
  unfold buildPriceMap.
  enough (H : forall m : gmap string Q,
             is_Some (foldl
                        (fun m p =>
                           <[priceKey (ProductPrice.dropshipperEmail p)
                                      (ProductPrice.productUid p)
                             := parseFloat (ProductPrice.productCostPerUnit p)]> m)
                        m prices !! k) <->
             is_Some (m !! k) \/
             exists p, In p prices /\
               priceKey (ProductPrice.dropshipperEmail p) (ProductPrice.productUid p) = k).
  { rewrite H, lookup_empty. split; [intros [[? [=]] | H']; exact H' | now right]. }
  induction prices as [|p prices IH]; intros m; simpl.
  - split; [now left | intros [H | (p & [] & _)]; exact H].
  - rewrite IH.
    destruct (decide (priceKey (ProductPrice.dropshipperEmail p)
                               (ProductPrice.productUid p) = k)) as [E | E].
    + rewrite E, lookup_insert_eq. split; [|intros _; left; eauto].
      intros _. right. exists p. split; [now left | exact E].
    + rewrite lookup_insert_ne by exact E. split.
      * intros [H | (p' & Hin & Hk)]; [now left | right; exists p'; split; [now right | exact Hk]].
      * intros [H | (p' & [<- | Hin] & Hk)]; [now left | contradiction | right; now exists p'].
Qed.

Lemma filterPrices_In (d : option string) (prices : list ProductPrice.t) p :
  In p (filterPrices d prices) -> In p prices.
Proof.
  unfold filterPrices. destruct (truthy d); [|exact id].
  intros H. now apply filter_In in H.
Qed.

(** X11.  A product that the report of missing prices names is costed
    at nothing by the payout run: for a line item with the reported
    key the resolved unit cost is 0, and so are its product cost and
    the [productCostPerUnit] of its row, with or without a dropshipper
    filter. *)
Theorem unpriced_product_costs_nothing
    parseDate (db : Database) req (m : MissingPrice.t) (o : OrderData.t) :
  In m (missingPrices (getMissingPricesAndRates db)) ->
  priceKey (MissingPrice.dropshipperEmail m) (MissingPrice.productUid m) =
    orderPriceKey o ->
  let prices :=
    filterPrices (PayoutCalculationRequest.dropshipperEmail req) (productPrices db) in
  let priceMap := buildPriceMap prices in
  resolveUnitCost priceMap o = 0%Q /\
  (productCostOf parseDate req priceMap o == 0)%Q /\
  PayoutRow.productCostPerUnit
    (payoutRow parseDate req prices priceMap (buildRateMap (shippingRates db)) o) = 0%Q.
Proof.
  intros Hm Hk prices priceMap.
  destruct (missingPrices_sound db m Hm) as (o' & _ & _ & _ & Hno).
  assert (Hnone : priceMap !! orderPriceKey o = None).
  { apply eq_None_not_Some. intros Hs.
    apply buildPriceMap_is_Some in Hs as (p & Hp & Hpk).
    apply filterPrices_In in Hp. apply (Hno p Hp). now rewrite Hpk, Hk. }
  assert (H0 : resolveUnitCost priceMap o = 0%Q).
  { unfold resolveUnitCost. fold (orderPriceKey o). now rewrite Hnone. }
  split; [exact H0|]. split; [|exact H0].
  unfold productCostOf. rewrite H0.
  destruct (isDelivered o && inDeliveredDateRange parseDate req o); [ring | reflexivity].
Qed.

(** * The product price table *)

Lemma FOP_map {A} (R : A -> A -> Prop) (f : A -> A) (l : list A) :
  (forall a b, In a l -> In b l -> R a b -> R (f a) (f b)) ->
  ForallOrdPairs R l -> ForallOrdPairs R (map f l).
Proof.
  intros Hf H. induction H as [|a l Ha Hl IH]; simpl; constructor.
  - apply List.Forall_forall. intros b Hb. apply in_map_iff in Hb as (b0 & <- & Hb0).
    apply Hf; [now left | now right |]. revert b0 Hb0. now apply List.Forall_forall.
  - apply IH. intros x y Hx Hy. apply Hf; now right.
Qed.

Lemma FOP_snoc {A} (R : A -> A -> Prop) (l : list A) (x : A) :
  ForallOrdPairs R l -> (forall a, In a l -> R a x) -> ForallOrdPairs R (l ++ [x])%list.
Proof.
  induction 1 as [|a l Ha Hl IH]; simpl; intros Hx.
  - constructor; constructor.
  - constructor.
    + apply List.Forall_forall. intros b Hb. apply in_app_iff in Hb as [Hb | [<- | []]].
      * revert b Hb. now apply List.Forall_forall.
      * apply Hx. now left.
    + apply IH. intros b Hb. apply Hx. now right.
Qed.

Lemma FOP_filter {A} (R : A -> A -> Prop) (p : A -> bool) (l : list A) :
  ForallOrdPairs R l -> ForallOrdPairs R (List.filter p l).
Proof.
  induction 1 as [|a l Ha Hl IH]; simpl; [constructor|].
  destruct (p a); [|exact IH]. constructor; [|exact IH].
  apply List.Forall_forall. intros b Hb. apply filter_In in Hb as [Hb _].
  revert b Hb. now apply List.Forall_forall.
Qed.

Lemma find_map_compat {A} (p : A -> bool) (f : A -> A) (l : list A) :
  (forall r, In r l -> p (f r) = p r) ->
  List.find p (map f l) = option_map f (List.find p l).
Proof.
  induction l as [|x l IH]; simpl; intros H; [reflexivity|].
  rewrite (H x (or_introl eq_refl)). destruct (p x); [reflexivity|].
  apply IH. intros r Hr. apply H. now right.
Qed.

Lemma find_app_None {A} (f : A -> bool) (l : list A) (x : A) :
  List.find f l = None -> List.find f (l ++ [x])%list = (if f x then Some x else None).
Proof.
  induction l as [|y l IH]; simpl; [reflexivity|].
  destruct (f y); [discriminate | exact IH].
Qed.

Lemma find_app_keep {A} (f : A -> bool) (l : list A) (x : A) :
  f x = false -> List.find f (l ++ [x])%list = List.find f l.
Proof.
  intros Hx. induction l as [|y l IH]; simpl; [now rewrite Hx|].
  destruct (f y); [reflexivity | exact IH].
Qed.

Section PriceTableFacts.

Variable sqlEq : string -> string -> bool.
Hypothesis sqlEq_refl : forall a, sqlEq a a = true.
Hypothesis sqlEq_sym : forall a b, sqlEq a b = sqlEq b a.
Hypothesis sqlEq_trans : forall a b c, sqlEq a b = true -> sqlEq b c = true -> sqlEq a c = true.

Variable toDecimal2 : Q -> Decimal2.
Variable toDecimal3 : Q -> string.

Local Notation "'upsert'" := (upsertProductPrice sqlEq toDecimal2 toDecimal3).
Local Notation "'updated'" := (updatedRow toDecimal2 toDecimal3).
Local Notation "'inserted'" := (insertedRow toDecimal2 toDecimal3).
Local Notation "'get'" := (getProductPrice sqlEq).
Local Notation "'matches'" := (matchesKey sqlEq).
Local Notation "'withId'" := (hasId sqlEq).
Local Notation "'rewrite_row' i now price" :=
  (fun r => if hasId sqlEq i r then updatedRow toDecimal2 toDecimal3 r now price else r)
  (at level 10, i at level 9, now at level 9, price at level 9).

Lemma sqlEq_compat a b c : sqlEq a b = true -> sqlEq a c = sqlEq b c.
Proof.
  intros H. destruct (sqlEq b c) eqn:E.
  - now apply sqlEq_trans with b.
  - apply Bool.not_true_iff_false. intros H'. rewrite sqlEq_sym in H.
    rewrite (sqlEq_trans _ _ _ H H') in E. discriminate.
Qed.

Lemma matchesKey_compat e u e' u' r :
  sqlEq e e' = true -> sqlEq u u' = true -> matches e u r = matches e' u' r.
Proof.
  intros He Hu. unfold matchesKey.
  rewrite (sqlEq_sym _ e), (sqlEq_sym _ u), (sqlEq_compat _ _ _ He), (sqlEq_compat _ _ _ Hu).
  now rewrite (sqlEq_sym e'), (sqlEq_sym u').
Qed.

Lemma matchesKey_row e u r r' :
  sqlEq (ProductPriceRow.dropshipperEmail r) (ProductPriceRow.dropshipperEmail r') = true ->
  sqlEq (ProductPriceRow.productUid r) (ProductPriceRow.productUid r') = true ->
  matches e u r = matches e u r'.
Proof.
  intros He Hu. unfold matchesKey.
  now rewrite (sqlEq_compat _ _ _ He), (sqlEq_compat _ _ _ Hu).
Qed.

Lemma hasId_self r : withId (ProductPriceRow.id r) r = true.
Proof. apply sqlEq_refl. Qed.

Lemma find_hasId_unique (tbl : list ProductPriceRow.t) (r : ProductPriceRow.t) :
  uniqueIds sqlEq tbl -> In r tbl -> List.find (withId (ProductPriceRow.id r)) tbl = Some r.
Proof.
  unfold uniqueIds. induction 1 as [|x tbl Hx Hn IH]; simpl; intros Hr; [destruct Hr|].
  destruct Hr as [-> | Hr].
  - now rewrite hasId_self.
  - pose proof (proj1 (List.Forall_forall _ _) Hx r Hr) as E. cbv beta in E.
    unfold hasId in E |- *. rewrite sqlEq_sym, E. now apply IH.
Qed.

Lemma same_id_same_row (tbl : list ProductPriceRow.t) (r x : ProductPriceRow.t) :
  uniqueIds sqlEq tbl -> In r tbl -> In x tbl ->
  withId (ProductPriceRow.id x) r = true -> r = x.
Proof.
  unfold uniqueIds, hasId. intros Hn Hr Hx H.
  induction Hn as [|y tbl Hy Hn IH]; [destruct Hr|].
  destruct Hr as [-> | Hr], Hx as [-> | Hx].
  - reflexivity.
  - exfalso. pose proof (proj1 (List.Forall_forall _ _) Hy x Hx) as E. cbv beta in E.
    rewrite sqlEq_sym in E. congruence.
  - exfalso. pose proof (proj1 (List.Forall_forall _ _) Hy r Hr) as E. cbv beta in E.
    congruence.
  - now apply IH.
Qed.

(** The row an update rewrites keeps its account and product, up to
    the comparison of the columns. *)
Lemma rewrite_row_key tbl existing now price r :
  uniqueIds sqlEq tbl -> In existing tbl -> In r tbl ->
  matches (InsertProductPrice.dropshipperEmail price) (InsertProductPrice.productUid price)
          existing = true ->
  sqlEq (ProductPriceRow.dropshipperEmail (rewrite_row (ProductPriceRow.id existing) now price r))
        (ProductPriceRow.dropshipperEmail r) = true /\
  sqlEq (ProductPriceRow.productUid (rewrite_row (ProductPriceRow.id existing) now price r))
        (ProductPriceRow.productUid r) = true.
Proof.
  intros Hn He Hr Hk. cbv beta. destruct (withId (ProductPriceRow.id existing) r) eqn:E.
  - rewrite (same_id_same_row tbl r existing Hn Hr He E). simpl.
    unfold matchesKey in Hk. apply andb_true_iff in Hk as [H1 H2].
    rewrite (sqlEq_sym _ (ProductPriceRow.dropshipperEmail existing)),
            (sqlEq_sym _ (ProductPriceRow.productUid existing)). now split.
  - split; apply sqlEq_refl.
Qed.

Lemma updateById_get tbl existing now price e u :
  uniqueIds sqlEq tbl -> In existing tbl ->
  matches (InsertProductPrice.dropshipperEmail price) (InsertProductPrice.productUid price)
          existing = true ->
  get (updateById sqlEq toDecimal2 toDecimal3 tbl (ProductPriceRow.id existing) now price) e u =
  option_map (rewrite_row (ProductPriceRow.id existing) now price) (get tbl e u).
Proof.
  intros Hn He Hk. unfold getProductPrice, updateById. apply find_map_compat.
  intros r Hr. destruct (rewrite_row_key tbl existing now price r Hn He Hr Hk) as [H1 H2].
  now apply matchesKey_row.
Qed.

Lemma updateById_uniqueIds tbl i now price :
  uniqueIds sqlEq tbl -> uniqueIds sqlEq (updateById sqlEq toDecimal2 toDecimal3 tbl i now price).
Proof.
  unfold uniqueIds, updateById. apply FOP_map. intros a b _ _ H.
  unfold hasId in *. now destruct (sqlEq (ProductPriceRow.id a) i), (sqlEq (ProductPriceRow.id b) i).
Qed.

Lemma updateById_uniqueProducts tbl existing now price :
  uniqueIds sqlEq tbl -> In existing tbl ->
  matches (InsertProductPrice.dropshipperEmail price) (InsertProductPrice.productUid price)
          existing = true ->
  uniqueProducts sqlEq tbl ->
  uniqueProducts sqlEq
    (updateById sqlEq toDecimal2 toDecimal3 tbl (ProductPriceRow.id existing) now price).
Proof.
  intros Hn He Hk. unfold uniqueProducts, updateById. apply FOP_map.
  intros a b Ha Hb.
  destruct (rewrite_row_key tbl existing now price a Hn He Ha Hk) as [A1 A2].
  destruct (rewrite_row_key tbl existing now price b Hn He Hb Hk) as [B1 B2].
  now rewrite (matchesKey_compat _ _ _ _ _ A1 A2), (matchesKey_row _ _ _ _ B1 B2).
Qed.

Lemma existsb_hasId_false (tbl : list ProductPriceRow.t) (id : string) :
  (forall r, In r tbl -> withId id r = false) -> existsb (withId id) tbl = false.
Proof.
  intros H. apply Bool.not_true_iff_false. intros He.
  apply existsb_exists in He as (r & Hr & E). rewrite (H r Hr) in E. discriminate.
Qed.

(** The row an upsert returns, and the lookup that follows it. *)
Lemma upsert_get_same tbl id now price :
  uniqueIds sqlEq tbl ->
  (forall r, In r tbl -> withId id r = false) ->
  let e := InsertProductPrice.dropshipperEmail price in
  let u := InsertProductPrice.productUid price in
  exists row,
    upsert tbl id now price = (fst (upsert tbl id now price), Some row) /\
    get (fst (upsert tbl id now price)) e u = Some row /\
    row = match get tbl e u with
          | Some existing => updated existing now price
          | None => inserted id now price
          end.
Proof.
  intros Hn Hfresh e u. unfold upsertProductPrice. fold e u.
  destruct (get tbl e u) as [existing|] eqn:G.
  - pose proof (find_some _ _ G) as [Hin Hk].
    exists (updated existing now price). cbn [fst].
    split; [|split; [|reflexivity]].
    + f_equal.
      apply (find_hasId_unique
               (updateById sqlEq toDecimal2 toDecimal3 tbl (ProductPriceRow.id existing)
                           now price)
               (updated existing now price)); [now apply updateById_uniqueIds|].
      unfold updateById. apply in_map_iff. exists existing. split; [|exact Hin].
      now rewrite hasId_self.
    + rewrite (updateById_get tbl existing now price e u Hn Hin Hk), G. simpl.
      now rewrite hasId_self.
  - rewrite (existsb_hasId_false tbl id Hfresh). cbn [fst].
    exists (inserted id now price). split; [|split; [|reflexivity]].
    + f_equal. apply find_app_fresh; [now apply existsb_hasId_false | apply sqlEq_refl].
    + unfold getProductPrice in *. rewrite (find_app_None _ _ _ G).
      unfold matchesKey. simpl. fold e u. now rewrite !sqlEq_refl.
Qed.

Lemma upsert_get_other tbl id now price e' u' :
  uniqueIds sqlEq tbl ->
  (forall r, In r tbl -> withId id r = false) ->
  sqlEq (InsertProductPrice.dropshipperEmail price) e' &&
  sqlEq (InsertProductPrice.productUid price) u' = false ->
  get (fst (upsert tbl id now price)) e' u' = get tbl e' u'.
Proof.
  intros Hn Hfresh Hne. unfold upsertProductPrice.
  destruct (get tbl _ _) as [existing|] eqn:G.
  - pose proof (find_some _ _ G) as [Hin Hk]. cbn [fst].
    rewrite (updateById_get tbl existing now price e' u' Hn Hin Hk).
    destruct (get tbl e' u') as [r|] eqn:G'; [|reflexivity]. simpl.
    pose proof (find_some _ _ G') as [Hr Hk'].
    destruct (withId (ProductPriceRow.id existing) r) eqn:E; [|reflexivity].
    exfalso. rewrite (same_id_same_row tbl r existing Hn Hr Hin E) in Hk'.
    unfold matchesKey in Hk, Hk'.
    apply andb_true_iff in Hk as [H1 H2]. apply andb_true_iff in Hk' as [H3 H4].
    rewrite sqlEq_sym in H1, H2.
    rewrite (sqlEq_trans _ _ _ H1 H3), (sqlEq_trans _ _ _ H2 H4) in Hne. discriminate.
  - rewrite (existsb_hasId_false tbl id Hfresh). cbn [fst].
    unfold getProductPrice. apply find_app_keep. exact Hne.
Qed.

Lemma upsert_uniqueIds tbl id now price :
  uniqueIds sqlEq tbl ->
  (forall r, In r tbl -> withId id r = false) ->
  uniqueIds sqlEq (fst (upsert tbl id now price)).
Proof.
  intros Hn Hfresh. unfold upsertProductPrice.
  destruct (get tbl _ _) as [existing|] eqn:G; cbn [fst].
  - now apply updateById_uniqueIds.
  - rewrite (existsb_hasId_false tbl id Hfresh). cbn [fst].
    apply FOP_snoc; [exact Hn|]. intros a Ha. unfold hasId. simpl.
    rewrite sqlEq_sym. now apply Hfresh.
Qed.

Lemma upsert_uniqueProducts tbl id now price :
  uniqueIds sqlEq tbl ->
  (forall r, In r tbl -> withId id r = false) ->
  uniqueProducts sqlEq tbl ->
  uniqueProducts sqlEq (fst (upsert tbl id now price)).
Proof.
  intros Hn Hfresh Hu. unfold upsertProductPrice.
  destruct (get tbl _ _) as [existing|] eqn:G; cbn [fst].
  - pose proof (find_some _ _ G) as [Hin Hk]. now apply updateById_uniqueProducts.
  - rewrite (existsb_hasId_false tbl id Hfresh). cbn [fst].
    apply FOP_snoc; [exact Hu|]. intros a Ha.
    pose proof (find_none _ _ G a Ha) as E. unfold matchesKey in *. simpl.
    now rewrite (sqlEq_sym _ (ProductPriceRow.dropshipperEmail a)),
                (sqlEq_sym _ (ProductPriceRow.productUid a)).
Qed.

(** The ids of the table after an upsert are those it had, and the
    one handed in. *)
Lemma upsert_ids tbl id now price r :
  In r (fst (upsert tbl id now price)) ->
  ProductPriceRow.id r = id \/ exists r0, In r0 tbl /\ ProductPriceRow.id r = ProductPriceRow.id r0.
Proof.
  unfold upsertProductPrice. destruct (get tbl _ _) as [existing|]; cbn [fst].
  - unfold updateById. intros H. apply in_map_iff in H as (r0 & <- & H0).
    right. exists r0. split; [exact H0|].
    now destruct (withId (ProductPriceRow.id existing) r0).
  - destruct (existsb (withId id) tbl); cbn [fst]; intros H.
    + right. now exists r.
    + apply in_app_iff in H as [H | [<- | []]]; [right; now exists r | now left].
Qed.

(** X12.  Writing a price and reading it back.  On a table whose rows
    have distinct ids, with a new id at hand, [upsertProductPrice]
    returns a row, and [getProductPrice] for the same account and
    product then returns that very row: it carries the account,
    product, name, weight and cost just written and the time of the
    write; it keeps the id of the row that was there, or else takes
    the new id, has the default currency when none is given, and is
    added last. *)
Theorem upsert_then_get_returns_the_price
    (tbl : list ProductPriceRow.t) (id : string) (now : Timestamp)
    (price : InsertProductPrice.t) :
  uniqueIds sqlEq tbl ->
  (forall r, In r tbl -> withId id r = false) ->
  let e := InsertProductPrice.dropshipperEmail price in
  let u := InsertProductPrice.productUid price in
  let tbl' := fst (upsert tbl id now price) in
  exists row,
    upsert tbl id now price = (tbl', Some row) /\
    get tbl' e u = Some row /\
    ProductPriceRow.dropshipperEmail row = e /\
    ProductPriceRow.productUid row = u /\
    ProductPriceRow.productName row = InsertProductPrice.productName price /\
    ProductPriceRow.productCostPerUnit row =
      toDecimal2 (InsertProductPrice.productCostPerUnit price) /\
    ProductPriceRow.productWeight row =
      (toDecimal3 <$> InsertProductPrice.productWeight price) /\
    ProductPriceRow.updatedAt row = now /\
    match get tbl e u with
    | Some existing =>
        ProductPriceRow.id row = ProductPriceRow.id existing /\
        length tbl' = length tbl
    | None =>
        ProductPriceRow.id row = id /\
        ProductPriceRow.currency row = default "INR" (InsertProductPrice.currency price) /\
        tbl' = (tbl ++ [row])%list
    end.
Proof.
  intros Hn Hfresh e u tbl'.
  destruct (upsert_get_same tbl id now price Hn Hfresh) as (row & H1 & H2 & H3).
  exists row. split; [exact H1|]. split; [exact H2|].
  fold e u in H3. subst tbl'. unfold upsertProductPrice. fold e u.
  destruct (get tbl e u) as [existing|]; subst row.
  - do 6 (split; [reflexivity|]). split; [reflexivity|].
    cbn [fst]. unfold updateById. apply length_map.
  - do 6 (split; [reflexivity|]). split; [reflexivity|]. split; [reflexivity|].
    now rewrite (existsb_hasId_false tbl id Hfresh).
Qed.

(** X13.  What an upsert leaves alone.  Under the same conditions the
    lookup of every other account or product gives what it gave
    before, the ids stay distinct, a table with at most one row for
    each account and product stays so, and the table grows by one row
    exactly when the account and product had none. *)
Theorem upsert_leaves_other_prices
    (tbl : list ProductPriceRow.t) (id : string) (now : Timestamp)
    (price : InsertProductPrice.t) :
  uniqueIds sqlEq tbl ->
  (forall r, In r tbl -> withId id r = false) ->
  let e := InsertProductPrice.dropshipperEmail price in
  let u := InsertProductPrice.productUid price in
  let tbl' := fst (upsert tbl id now price) in
  (forall e' u', sqlEq e e' && sqlEq u u' = false -> get tbl' e' u' = get tbl e' u') /\
  uniqueIds sqlEq tbl' /\
  (uniqueProducts sqlEq tbl -> uniqueProducts sqlEq tbl') /\
  length tbl' = (length tbl + match get tbl e u with Some _ => 0 | None => 1 end)%nat.
Proof.
  intros Hn Hfresh e u tbl'. split; [|split; [|split]].
  - intros e' u' Hne. now apply upsert_get_other.
  - now apply upsert_uniqueIds.
  - now apply upsert_uniqueProducts.
  - subst tbl'. unfold upsertProductPrice. fold e u.
    destruct (get tbl e u) as [existing|]; cbn [fst].
    + unfold updateById. rewrite length_map. lia.
    + rewrite (existsb_hasId_false tbl id Hfresh). cbn [fst]. rewrite length_app. simpl. lia.
Qed.

Lemma get_compat tbl e u e' u' :
  sqlEq e e' = true -> sqlEq u u' = true -> get tbl e u = get tbl e' u'.
Proof.
  intros He Hu. unfold getProductPrice.
  induction tbl as [|x tbl IH]; simpl; [reflexivity|].
  now rewrite (matchesKey_compat e u e' u' x He Hu), IH.
Qed.

Lemma freshIds_step tbl id now price ids :
  freshIds sqlEq tbl (id :: ids) ->
  (forall r, In r tbl -> withId id r = false) /\
  freshIds sqlEq (fst (upsert tbl id now price)) ids.
Proof.
  intros [Hf Hd]. inversion Hf as [|? ? Hid Hrest]; subst.
  inversion Hd as [|? ? Hhead Htail]; subst.
  split; [exact Hid|]. split; [|exact Htail].
  apply List.Forall_forall. intros j Hj r Hr.
  apply upsert_ids in Hr as [E | (r0 & Hr0 & E)]; unfold hasId; rewrite E.
  - exact (proj1 (List.Forall_forall _ _) Hhead j Hj).
  - exact (proj1 (List.Forall_forall _ _) Hrest j Hj r0 Hr0).
Qed.

(** X14.  A batch of prices: the last entry wins.  On a table whose
    rows have distinct ids, with new and distinct ids at hand,
    [bulkUpsertProductPrices] runs to its end; afterwards the lookup
    of an account and product that the batch names returns a row with
    the name, cost and weight of the last entry of the batch for
    them, written at that entry's time, and the lookup of any other
    account and product gives what it gave before.  The ids stay
    distinct, and a table with one row for each account and product
    stays so. *)
Theorem bulk_upsert_last_write_wins
    (prices : list (string * Timestamp * InsertProductPrice.t))
    (tbl : list ProductPriceRow.t) :
  uniqueIds sqlEq tbl ->
  freshIds sqlEq tbl (map (fun x => fst (fst x)) prices) ->
  let res := bulkUpsertProductPrices sqlEq toDecimal2 toDecimal3 tbl prices in
  snd res = true /\
  uniqueIds sqlEq (fst res) /\
  (uniqueProducts sqlEq tbl -> uniqueProducts sqlEq (fst res)) /\
  forall e u,
    match lastWrite sqlEq e u prices with
    | Some (_, now, price) =>
        exists row,
          get (fst res) e u = Some row /\
          ProductPriceRow.productName row = InsertProductPrice.productName price /\
          ProductPriceRow.productCostPerUnit row =
            toDecimal2 (InsertProductPrice.productCostPerUnit price) /\
          ProductPriceRow.productWeight row =
            (toDecimal3 <$> InsertProductPrice.productWeight price) /\
          ProductPriceRow.updatedAt row = now
    | None => get (fst res) e u = get tbl e u
    end.
Proof.
  revert tbl. induction prices as [|[[id now] price] rest IH]; intros tbl Hn Hf; cbn zeta.
  - simpl. repeat split; auto.
  - cbn [map fst] in Hf. apply (freshIds_step tbl id now price) in Hf as [Hid Hf].
    destruct (upsert_get_same tbl id now price Hn Hid) as (row & H1 & H2 & H3).
    pose proof (upsert_uniqueIds tbl id now price Hn Hid) as Hn1.
    cbn [bulkUpsertProductPrices]. rewrite H1.
    destruct (IH _ Hn1 Hf) as (I1 & I2 & I3 & I4).
    split; [exact I1|]. split; [exact I2|]. split.
    + intros Hu. apply I3. now apply upsert_uniqueProducts.
    + intros e u. specialize (I4 e u). cbn [lastWrite snd].
      destruct (lastWrite sqlEq e u rest) as [[[i n] p]|]; [exact I4|].
      rewrite I4.
      destruct (sqlEq (InsertProductPrice.dropshipperEmail price) e &&
                sqlEq (InsertProductPrice.productUid price) u) eqn:E.
      * apply andb_true_iff in E as [E1 E2]. exists row.
        rewrite <- (get_compat _ _ _ _ _ E1 E2). split; [exact H2|].
        rewrite H3. now destruct (get tbl _ _).
      * now apply upsert_get_other.
Qed.

Lemma find_filter_keep {A} (p q : A -> bool) (l : list A) :
  (forall x, In x l -> p x = false -> q x = false) ->
  List.find q (List.filter p l) = List.find q l.
Proof.
  induction l as [|x l IH]; simpl; intros H; [reflexivity|].
  destruct (p x) eqn:P; simpl.
  - destruct (q x); [reflexivity|]. apply IH. intros y Hy. apply H. now right.
  - rewrite (H x (or_introl eq_refl) P). apply IH. intros y Hy. apply H. now right.
Qed.

Lemma delete_length tbl r :
  uniqueIds sqlEq tbl -> In r tbl ->
  (length (deleteProductPrice sqlEq tbl (ProductPriceRow.id r)) + 1)%nat = length tbl.
Proof.
  unfold uniqueIds, deleteProductPrice.
  induction 1 as [|a l Ha Hl IH]; intros Hr; [destruct Hr|]. simpl.
  pose proof (proj1 (List.Forall_forall _ _) Ha) as Hall. cbv beta in Hall.
  destruct Hr as [-> | Hr].
  - rewrite hasId_self. simpl. rewrite Nat.add_1_r. f_equal. f_equal.
    apply forallb_filter_id. apply forallb_forall. intros b Hb. now rewrite (Hall b Hb).
  - assert (E : withId (ProductPriceRow.id r) a = false).
    { unfold hasId. rewrite sqlEq_sym. exact (Hall r Hr). }
    rewrite E. simpl. f_equal. now apply IH.
Qed.

(** X15.  Deleting a price.  On a table whose rows have distinct ids
    and which has one row for each account and product,
    [deleteProductPrice] with the id of a row of the table takes out
    that one row: the lookup of its account and product then finds
    nothing, every other lookup gives what it gave before, and the
    table is one row shorter and still has distinct ids and one row
    for each account and product. *)
Theorem delete_removes_the_price (tbl : list ProductPriceRow.t) (r : ProductPriceRow.t) :
  uniqueIds sqlEq tbl -> uniqueProducts sqlEq tbl -> In r tbl ->
  let tbl' := deleteProductPrice sqlEq tbl (ProductPriceRow.id r) in
  get tbl' (ProductPriceRow.dropshipperEmail r) (ProductPriceRow.productUid r) = None /\
  (forall e u, matches e u r = false -> get tbl' e u = get tbl e u) /\
  (length tbl' + 1)%nat = length tbl /\
  uniqueIds sqlEq tbl' /\ uniqueProducts sqlEq tbl'.
Proof.
  intros Hn Hu Hr tbl'. split; [|split; [|split; [|split]]].
  - destruct (get tbl' _ _) as [x|] eqn:G; [exfalso|reflexivity].
    apply find_some in G as [Hx Hk]. unfold tbl', deleteProductPrice in Hx.
    apply filter_In in Hx as [Hx Hid]. apply negb_true_iff in Hid.
    destruct (ForallOrdPairs_In Hu r x Hr Hx) as [<- | [H | H]]; cbv beta in *.
    + rewrite hasId_self in Hid. discriminate.
    + congruence.
    + unfold matchesKey in *.
      rewrite (sqlEq_sym (ProductPriceRow.dropshipperEmail r)),
              (sqlEq_sym (ProductPriceRow.productUid r)) in H. congruence.
  - intros e u Hk. unfold tbl', deleteProductPrice, getProductPrice.
    apply find_filter_keep. intros x Hx Hid. apply negb_false_iff in Hid.
    now rewrite (same_id_same_row tbl x r Hn Hx Hr Hid).
  - now apply delete_length.
  - now apply FOP_filter.
  - now apply FOP_filter.
Qed.

End PriceTableFacts.

(** * The COD breakdown *)

Lemma groupOrders_group (rows : list OrderData.t) (k : string) (items : list OrderData.t) :
  In (k, items) (groupOrders rows) ->
  items = List.filter (fun o => String.eqb (OrderData.orderId o) k) rows /\ items <> [].
Proof.
  intros H. destruct (groupOrders_spec rows) as [Hn Hg].
  pose proof (In_mapGet _ _ _ Hn H) as G. rewrite Hg in G.
  destruct (List.filter _ rows) as [|x l]; [discriminate|].
  injection G as <-. now split.
Qed.

Lemma find_filter_hd {A} (p : A -> bool) (l : list A) :
  List.find p l = hd_error (List.filter p l).
Proof.
  induction l as [|x l IH]; simpl; [reflexivity|]. now destruct (p x).
Qed.

Lemma sumQ_perm (l l' : list Q) : l ≡ₚ l' -> (sumQ l == sumQ l')%Q.
Proof.
  induction 1 as [|x l l' _ IH|x y l|l l' l'' _ IH1 _ IH2]; simpl.
  - reflexivity.
  - now rewrite IH.
  - ring.
  - now rewrite IH1.
Qed.

Lemma round2_hundredths (n : Z) :
  (Js.round2 (inject_Z n / 100) == inject_Z n / 100)%Q.
Proof.
  rewrite (round2_compat _ (parseFloat n)).
  - rewrite round2_decimal. unfold parseFloat, Qeq, Qdiv, Qmult, Qinv, inject_Z. simpl. lia.
  - unfold parseFloat, Qeq, Qdiv, Qmult, Qinv, inject_Z. simpl. lia.
Qed.

Lemma sumQ_hundredths (l : list Q) :
  Forall (fun x => exists n, (x == inject_Z n / 100)%Q) l ->
  exists n, (sumQ l == inject_Z n / 100)%Q.
Proof.
  induction 1 as [|x l [n Hx] _ [m IH]]; simpl.
  - exists 0%Z. reflexivity.
  - exists (n + m)%Z. rewrite Hx, IH, inject_Z_plus. field.
Qed.

Lemma rawProductValue_round2 (o : OrderData.t) :
  (Js.round2 (rawProductValue o) == rawProductValue o)%Q.
Proof.
  unfold rawProductValue.
  rewrite (round2_compat _ _ (orElse_zero _)), round2_decimal. symmetry. apply orElse_zero.
Qed.

Section CodBreakdownFacts.

Variable parseDate : string -> option Timestamp.
Variable isoDay : Timestamp -> string.
Variable atLeast : Timestamp -> string -> bool.
Variable atMost : Timestamp -> string -> bool.

Local Notation "'detail'" := (codDetail isoDay).
Local Notation "'item'" := (codItem isoDay).
Local Notation "'group'" := (codGroup isoDay).

Lemma codItem_fold first items acc :
  snd (foldl (item first) acc items) =
    (snd acc ++ map (detail (rawProductValue first)) items)%list /\
  (fst (foldl (item first) acc items) ==
     fst acc + sumQ (map (fun _ => rawProductValue first) items))%Q.
Proof.
  revert acc. induction items as [|o items IH]; intros acc; simpl.
  - split; [now rewrite app_nil_r | ring].
  - destruct (IH (item first acc o)) as [H1 H2]. rewrite H1, H2. simpl. split.
    + now rewrite <- app_assoc.
    + ring.
Qed.

Lemma group_firstLine (rows : list OrderData.t) k first rest o :
  List.filter (fun x => String.eqb (OrderData.orderId x) k) rows = first :: rest ->
  In o (first :: rest) -> firstLine rows o = first.
Proof.
  intros E Ho. rewrite <- E in Ho. apply filter_In in Ho as [_ Hk].
  apply String.eqb_eq in Hk. unfold firstLine. rewrite Hk, find_filter_hd, E. reflexivity.
Qed.

Lemma filter_all {A} (p : A -> bool) (l : list A) (b : bool) :
  (forall x, In x l -> p x = b) -> List.filter p l = if b then l else [].
Proof.
  induction l as [|x l IH]; simpl; intros H; [now destruct b|].
  rewrite (H x (or_introl eq_refl)), IH by (intros y Hy; apply H; now right).
  now destruct b.
Qed.

Lemma filter_perm {A} (p : A -> bool) (l l' : list A) :
  l ≡ₚ l' -> List.filter p l ≡ₚ List.filter p l'.
Proof.
  induction 1 as [|x l l' _ IH|x y l|l l' l'' _ IH1 _ IH2]; simpl.
  - reflexivity.
  - destruct (p x); [now rewrite IH | exact IH].
  - destruct (p x), (p y); try reflexivity. apply Permutation_swap.
  - now rewrite IH1.
Qed.

Lemma sumQ_map_ext {A} (f g : A -> Q) (l : list A) :
  (forall x, In x l -> (f x == g x)%Q) -> (sumQ (map f l) == sumQ (map g l))%Q.
Proof.
  induction l as [|x l IH]; simpl; intros H; [reflexivity|].
  rewrite (H x (or_introl eq_refl)), IH by (intros y Hy; apply H; now right). reflexivity.
Qed.

(** The state after the groups [gs] of the lines [rows]. *)
Lemma codGroups_spec (rows : list OrderData.t) (gs : list (string * list OrderData.t)) :
  (forall g, In g gs ->
     snd g = List.filter (fun o => String.eqb (OrderData.orderId o) (fst g)) rows /\
     snd g <> []) ->
  forall acc,
  exists acc',
    foldl (fun a g => a ≫= fun a => group a g) (Some acc) gs = Some acc' /\
    snd acc' =
      (snd acc ++
       map (fun o => detail (rawProductValue (firstLine rows o)) o)
           (List.filter (listed rows) (concat (map snd gs))))%list /\
    (fst acc' ==
       fst acc +
       sumQ (map (fun o => rawProductValue (firstLine rows o))
                 (List.filter (listed rows) (concat (map snd gs)))))%Q.
Proof.
  induction gs as [|[k items] gs IH]; intros Hg acc.
  - exists acc. simpl. split; [reflexivity|]. split; [now rewrite app_nil_r | ring].
  - destruct (Hg (k, items) (or_introl eq_refl)) as [Hitems Hne]. simpl in Hitems, Hne.
    destruct items as [|first rest]; [congruence|].
    assert (Hfirst : forall o, In o (first :: rest) -> firstLine rows o = first)
      by (intros o; now apply (group_firstLine rows k first rest o)).
    assert (Hl : List.filter (listed rows) (first :: rest) =
                 if isCodMode (breakdownMode first) then first :: rest else []).
    { apply filter_all. intros o Ho. unfold listed. now rewrite (Hfirst o Ho). }
    cbn [foldl mbind option_bind]. unfold codGroup at 2. cbn [snd concat map].
    rewrite List.filter_app, Hl.
    destruct (isCodMode (breakdownMode first)).
    + destruct (codItem_fold first (first :: rest) acc) as [H1 H2].
      destruct (IH (fun g H => Hg g (or_intror H)) (foldl (item first) acc (first :: rest)))
        as (acc' & E & E1 & E2).
      exists acc'. split; [exact E|]. split.
      * rewrite E1, H1, map_app, app_assoc. f_equal. f_equal.
        apply map_ext_in. intros o Ho. now rewrite (Hfirst o Ho).
      * rewrite E2, H2, map_app, sumQ_app.
        rewrite (sumQ_map_ext (fun o => rawProductValue (firstLine rows o))
                              (fun _ => rawProductValue first) (first :: rest)).
        -- ring.
        -- intros o Ho. now rewrite (Hfirst o Ho).
    + destruct (IH (fun g H => Hg g (or_intror H)) acc) as (acc' & E & E1 & E2).
      exists acc'. split; [exact E|]. split; [exact E1 | exact E2].
Qed.

(** X16.  The COD breakdown lists an order by its first line.  The
    function returns a result (no group is empty); the orders listed
    are, in some order, the lines of the query result whose order's
    first line has mode COD or none, each with the order id, quantity
    and product name of the line and, as amount, the product value of
    the first line of its order; [orderCount] is their number, and
    [totalCod] is the sum of the listed amounts. *)
Theorem cod_breakdown_values_orders_by_first_line
    (db : Database) (params : CodRangeParams.t) :
  let rows := codRows atLeast atMost db params in
  let shown := List.filter (listed rows) rows in
  exists res,
    getCodBreakdownForRange parseDate isoDay atLeast atMost db params = Some res /\
    CodBreakdown.orders res ≡ₚ
      map (fun o => detail (rawProductValue (firstLine rows o)) o) shown /\
    CodBreakdown.orderCount res = length shown /\
    (CodBreakdown.totalCod res == sumQ (map CodDetail.codAmount (CodBreakdown.orders res)))%Q.
Proof.
  intros rows shown. unfold getCodBreakdownForRange, codGroups. fold rows.
  destruct (codGroups_spec rows (groupOrders rows)
              (fun g H => groupOrders_group rows (fst g) (snd g)
                            (eq_ind _ (fun x => In x _) H _ (surjective_pairing g)))
              (0%Q, [])) as (acc & E & E1 & E2).
  rewrite E. cbn [mbind option_bind]. eexists. split; [reflexivity|].
  cbn [CodBreakdown.orders CodBreakdown.orderCount CodBreakdown.totalCod].
  fold (visitOrder rows) in E1, E2. cbn [snd fst app] in E1, E2.
  assert (P : List.filter (listed rows) (visitOrder rows) ≡ₚ shown).
  { unfold shown. apply filter_perm, visitOrder_perm. }
  split; [|split].
  - rewrite sort_perm, E1. now apply Permutation_map.
  - rewrite E1, length_map. now apply Permutation_length.
  - rewrite (sumQ_perm _ _ (Permutation_map CodDetail.codAmount (sort_perm _ (snd acc)))).
    rewrite E1, map_map. cbn [codDetail CodDetail.codAmount].
    rewrite (sumQ_map_ext _ (fun o => rawProductValue (firstLine rows o)))
      by (intros o _; apply rawProductValue_round2).
    destruct (sumQ_hundredths
                (map (fun o => rawProductValue (firstLine rows o))
                     (List.filter (listed rows) (visitOrder rows)))) as [n Hn].
    { apply List.Forall_forall. intros x Hx. apply in_map_iff in Hx as (o & <- & _).
      exists (OrderData.productValue (firstLine rows o)). unfold rawProductValue.
      rewrite orElse_zero. unfold parseFloat, Qeq, Qdiv, Qmult, Qinv, inject_Z. simpl. lia. }
    rewrite (round2_compat _ (inject_Z n / 100)) by (rewrite E2, Hn; ring).
    now rewrite round2_hundredths, Hn.
Qed.

End CodBreakdownFacts.

(** ** The two COD tests *)

Lemma isWhiteSpace_upper (c : ascii) : Js.isWhiteSpace (upperAscii c) = Js.isWhiteSpace c.
Proof. destruct c as [[] [] [] [] [] [] [] []]; reflexivity. Qed.

Lemma lower_upper (c : ascii) : Js.lowerAscii (upperAscii c) = Js.lowerAscii c.
Proof. destruct c as [[] [] [] [] [] [] [] []]; reflexivity. Qed.

Lemma upper_lower (c : ascii) : upperAscii (Js.lowerAscii c) = upperAscii c.
Proof. destruct c as [[] [] [] [] [] [] [] []]; reflexivity. Qed.

Lemma toLowerCase_toUpperCase (s : string) :
  Js.toLowerCase (toUpperCase s) = Js.toLowerCase s.
Proof. induction s as [|c s IH]; simpl; [reflexivity|]. now rewrite lower_upper, IH. Qed.

Lemma toUpperCase_toLowerCase (s : string) :
  toUpperCase (Js.toLowerCase s) = toUpperCase s.
Proof. induction s as [|c s IH]; simpl; [reflexivity|]. now rewrite upper_lower, IH. Qed.

Lemma trim_toUpperCase (s : string) : Js.trim (toUpperCase s) = toUpperCase (Js.trim s).
Proof.
  unfold Js.trim.
  assert (S : forall s, Js.trimStart (toUpperCase s) = toUpperCase (Js.trimStart s)).
  { induction s0 as [|c r IH]; simpl; [reflexivity|].
    rewrite isWhiteSpace_upper. now destruct (Js.isWhiteSpace c). }
  assert (E : forall s, Js.trimEnd (toUpperCase s) = toUpperCase (Js.trimEnd s)).
  { induction s0 as [|c r IH]; simpl; [reflexivity|].
    rewrite IH, isWhiteSpace_upper.
    destruct (Js.trimEnd r); simpl; [now destruct (Js.isWhiteSpace c) | reflexivity]. }
  now rewrite S, E.
Qed.

Lemma eqb_case (t : string) (U L : string) :
  toUpperCase L = U -> Js.toLowerCase U = L ->
  String.eqb (toUpperCase t) U = String.eqb (Js.toLowerCase t) L.
Proof.
  intros HU HL.
  destruct (String.eqb (toUpperCase t) U) eqn:E1, (String.eqb (Js.toLowerCase t) L) eqn:E2;
    try reflexivity; exfalso.
  - apply String.eqb_eq in E1. apply String.eqb_neq in E2. apply E2.
    now rewrite <- toLowerCase_toUpperCase, E1.
  - apply String.eqb_eq in E2. apply String.eqb_neq in E1. apply E1.
    now rewrite <- toUpperCase_toLowerCase, E2.
Qed.

(** X17.  The COD breakdown and the payout run agree on what a COD
    line is: the test of the upper-cased trimmed mode against COD made
    by [getCodBreakdownForRange] and the test of the lower-cased
    trimmed mode against cod made by [calculatePayouts] give the same
    answer for every line. *)
Theorem cod_tests_agree (o : OrderData.t) :
  isCodMode (breakdownMode o) = isCodOrder o.
Proof.
  unfold isCodMode, breakdownMode, isCodOrder, paymentMode.
  rewrite trim_toUpperCase, trim_toLowerCase.
  f_equal; now apply eqb_case.
Qed.

(** * The session store *)

Lemma find_map_skip {A} (p : A -> bool) (f : A -> A) (l : list A) :
  (forall r, In r l -> f r = r \/ (p r = false /\ p (f r) = false)) ->
  List.find p (map f l) = List.find p l.
Proof.
  induction l as [|x l IH]; simpl; intros H; [reflexivity|].
  destruct (H x (or_introl eq_refl)) as [-> | [H1 H2]].
  - destruct (p x); [reflexivity|]. apply IH. intros r Hr. apply H. now right.
  - rewrite H1, H2. apply IH. intros r Hr. apply H. now right.
Qed.

Lemma find_existsb_false {A} (p q : A -> bool) (l : list A) :
  existsb q l = false -> (forall x, p x = true -> q x = true) -> List.find p l = None.
Proof.
  intros E H. destruct (List.find p l) as [x|] eqn:F; [exfalso|reflexivity].
  apply find_some in F as [Hx Hp].
  assert (existsb q l = true) by (apply existsb_exists; exists x; auto). congruence.
Qed.

Lemma find_ext {A} (p q : A -> bool) (l : list A) :
  (forall x, p x = q x) -> List.find p l = List.find q l.
Proof.
  intros H. induction l as [|x l IH]; simpl; [reflexivity|]. now rewrite H, IH.
Qed.

Section SessionStoreFacts.

Import MySQLSessionStore.

Variable sqlEq : string -> string -> bool.
Hypothesis sqlEq_refl : forall a, sqlEq a a = true.
Hypothesis sqlEq_sym : forall a b, sqlEq a b = sqlEq b a.
Hypothesis sqlEq_trans : forall a b c, sqlEq a b = true -> sqlEq b c = true -> sqlEq a c = true.

Variable SessionData : Type.
Variable emptySession : SessionData.
Variable stringify : SessionData -> string.
Variable parse : string -> option SessionData.
Variable cookieExpires : SessionData -> option Z.

Local Notation "'getSession'" := (get sqlEq emptySession parse).
Local Notation "'setSession'" := (set sqlEq stringify cookieExpires).
Local Notation "'touchSession'" := (touch sqlEq cookieExpires).
Local Notation "'decode'" := (readData emptySession parse).
Local Notation "'expiry'" := (expiryOf cookieExpires).
Local Notation "'withSid'" := (hasSid sqlEq).
Local Notation "'unique'" := (uniqueSessions sqlEq).

Lemma hasSid_other sid sid' r :
  sqlEq sid sid' = false -> withSid sid r = true -> withSid sid' r = false.
Proof.
  unfold hasSid. intros Hne H. apply Bool.not_true_iff_false. intros H'.
  rewrite sqlEq_sym in H. rewrite (sqlEq_trans _ _ _ H H') in Hne. discriminate.
Qed.

(** Rows rewritten under [sid] are not seen by a lookup of [sid']. *)
Lemma find_rewritten_other sid sid' now (f : SessionRow.t -> SessionRow.t) tbl :
  sqlEq sid sid' = false ->
  (forall r, SessionRow.session_id (f r) = SessionRow.session_id r) ->
  List.find (fun r => withSid sid' r && (now <? SessionRow.expires r)%Z)
            (map (fun r => if withSid sid r then f r else r) tbl) =
  List.find (fun r => withSid sid' r && (now <? SessionRow.expires r)%Z) tbl.
Proof.
  intros Hne Hf. apply find_map_skip. intros r _.
  destruct (withSid sid r) eqn:E; [right | now left].
  unfold hasSid at 2. rewrite Hf. fold (withSid sid' r).
  now rewrite (hasSid_other sid sid' r Hne E).
Qed.

(** A lookup of [sid] after the rows under [sid] were given the expiry
    [e] and their data rewritten by [g]. *)
Lemma find_rewritten_same sid now e (g : SessionRow.t -> option string) tbl :
  option_map SessionRow.data
    (List.find (fun r => withSid sid r && (now <? SessionRow.expires r)%Z)
       (map (fun r => if withSid sid r
                      then SessionRow.mk (SessionRow.session_id r) e (g r) else r) tbl)) =
  if (now <? e)%Z then option_map g (List.find (withSid sid) tbl) else None.
Proof.
  induction tbl as [|r tbl IH]; simpl; [now destruct (now <? e)%Z|].
  destruct (withSid sid r) eqn:E.
  - unfold hasSid at 1. cbn [SessionRow.session_id SessionRow.expires].
    fold (withSid sid r). rewrite E. cbn [andb].
    destruct (now <? e)%Z eqn:T; [reflexivity|]. exact IH.
  - rewrite E. cbn [andb]. exact IH.
Qed.

Lemma unique_map_sid (f : SessionRow.t -> SessionRow.t) tbl :
  (forall r, SessionRow.session_id (f r) = SessionRow.session_id r) ->
  unique tbl -> unique (map f tbl).
Proof.
  intros Hf. unfold uniqueSessions. apply FOP_map. intros a b _ _.
  unfold hasSid. now rewrite !Hf.
Qed.

(** X18.  Writing a session and reading it back.  After [set] at time
    [t], [get] of the same id returns the session as [JSON.parse]
    reads the stored text (or the error of [JSON.parse], should it
    refuse that text), at every time before the expiry, and no session
    at any time from the expiry on; the expiry is the cookie's, or 24
    hours after [t] when the cookie has none.  The sessions under
    other ids read as before, and the primary key stays unique. *)
Theorem session_set_then_get
    (tbl : list SessionRow.t) (sid : string) (session : SessionData) (t : Z) :
  let tbl' := setSession tbl sid session t in
  (forall t',
     getSession tbl' sid t' =
     if (t' <? expiry session t)%Z
     then parsed (decode (Some (stringify session))) else Done None) /\
  (forall session', decode (Some (stringify session)) = Some session' ->
     forall t', (t' < expiry session t)%Z -> getSession tbl' sid t' = Done (Some session')) /\
  (cookieExpires session = None -> expiry session t = t + 86400000) /\
  (forall sid' t', sqlEq sid sid' = false -> getSession tbl' sid' t' = getSession tbl sid' t') /\
  (unique tbl -> unique tbl').
Proof.
  intros tbl'.
  assert (Hget : forall t',
             getSession tbl' sid t' =
             if (t' <? expiry session t)%Z
             then parsed (decode (Some (stringify session))) else Done None);
    [|split; [exact Hget|]; split;
      [intros session' Hd t' Ht; rewrite Hget, Hd;
       apply Z.ltb_lt in Ht; now rewrite Ht|]];
    subst tbl'; unfold set;
    destruct (existsb (withSid sid) tbl) eqn:Ex; [| |split; [|split]|split; [|split]].
  - intros t'. unfold get.
    pose proof (find_rewritten_same sid t' (expiry session t)
                  (fun _ => Some (stringify session)) tbl) as H.
    destruct (List.find (withSid sid) tbl) as [r0|] eqn:F.
    + destruct (t' <? expiry session t)%Z;
        destruct (List.find _ (map _ tbl)) as [r|]; simpl in H; try discriminate;
        [injection H as ->; reflexivity | reflexivity].
    + exfalso. apply existsb_exists in Ex as (r & Hr & Hs).
      pose proof (find_none _ _ F r Hr). congruence.
  - intros t'. unfold get.
    rewrite find_app_None
      by (apply (find_existsb_false _ (withSid sid)); [exact Ex|];
          intros x Hx; now apply andb_true_iff in Hx as [Hx _]).
    unfold hasSid at 1. cbn [SessionRow.session_id SessionRow.expires SessionRow.data].
    rewrite sqlEq_refl. cbn [andb]. now destruct (t' <? expiry session t)%Z.
  - intros H. unfold expiryOf. rewrite H. lia.
  - intros sid' t' Hne. unfold get.
    now rewrite (find_rewritten_other sid sid' t'
                   (fun r => SessionRow.mk (SessionRow.session_id r) (expiry session t)
                                           (Some (stringify session)))).
  - apply unique_map_sid. intros r. now destruct (withSid sid r).
  - intros H. unfold expiryOf. rewrite H. lia.
  - intros sid' t' Hne. unfold get. rewrite find_app_keep; [reflexivity|].
    unfold hasSid. cbn [SessionRow.session_id]. now rewrite Hne.
  - intros Hu. apply FOP_snoc; [exact Hu|]. intros a Ha. unfold hasSid. simpl.
    apply Bool.not_true_iff_false. intros H.
    assert (existsb (withSid sid) tbl = true); [|congruence].
    apply existsb_exists. exists a. split; [exact Ha|]. unfold hasSid.
    now rewrite sqlEq_sym.
Qed.

Lemma find_unique_sid tbl r :
  unique tbl -> In r tbl -> List.find (withSid (SessionRow.session_id r)) tbl = Some r.
Proof.
  unfold uniqueSessions. induction 1 as [|x tbl Hx Hn IH]; simpl; intros Hr; [destruct Hr|].
  destruct Hr as [-> | Hr].
  - unfold hasSid. now rewrite sqlEq_refl.
  - pose proof (proj1 (List.Forall_forall _ _) Hx r Hr) as E. cbv beta in E.
    unfold hasSid in E |- *. rewrite sqlEq_sym, E. now apply IH.
Qed.

(** X19.  [touch] moves the expiry and nothing else.  It adds no row:
    a session that is not stored stays unreadable.  For a stored row,
    whatever its old expiry, [get] of its id after [touch] reads the
    stored text at every time before the new expiry, returning the
    session when the text parses and the error of [JSON.parse] when it
    does not, and returns no session from then on; other ids read as
    before. *)
Theorem session_touch_moves_expiry
    (tbl : list SessionRow.t) (sid : string) (session : SessionData) (t : Z) :
  unique tbl ->
  let tbl' := touchSession tbl sid session t in
  List.length tbl' = List.length tbl /\
  map SessionRow.session_id tbl' = map SessionRow.session_id tbl /\
  map SessionRow.data tbl' = map SessionRow.data tbl /\
  (existsb (withSid sid) tbl = false -> tbl' = tbl) /\
  (forall r t', In r tbl ->
     getSession tbl' (SessionRow.session_id r) t' =
     if withSid sid r
     then if (t' <? expiry session t)%Z
          then match decode (SessionRow.data r) with
               | Some stored => Done (Some stored)
               | None => Failed
               end
          else Done None
     else getSession tbl (SessionRow.session_id r) t').
Proof.
  intros Hu tbl'. subst tbl'. unfold touch. split; [|split; [|split; [|split]]].
  - apply length_map.
  - rewrite map_map. apply map_ext. intros r. now destruct (withSid sid r).
  - rewrite map_map. apply map_ext. intros r. now destruct (withSid sid r).
  - intros Ex. rewrite <- (map_id tbl) at 2. apply map_ext_in. intros r Hr.
    destruct (withSid sid r) eqn:E; [|reflexivity].
    assert (existsb (withSid sid) tbl = true); [|congruence].
    apply existsb_exists. now exists r.
  - intros r t' Hr. unfold get. destruct (withSid sid r) eqn:E.
    + assert (Hsame : forall x, withSid (SessionRow.session_id r) x = withSid sid x).
      { intros x. unfold hasSid in *. rewrite !(sqlEq_sym (SessionRow.session_id x)).
        destruct (sqlEq sid (SessionRow.session_id x)) eqn:E1.
        - rewrite sqlEq_sym in E. now apply sqlEq_trans with sid; [rewrite sqlEq_sym|].
        - apply Bool.not_true_iff_false. intros H.
          rewrite sqlEq_sym in E. rewrite (sqlEq_trans _ _ _ E H) in E1. discriminate. }
      pose proof (find_rewritten_same sid t' (expiry session t) SessionRow.data tbl) as H.
      rewrite <- (find_ext _ _ tbl Hsame), (find_unique_sid tbl r Hu Hr) in H.
      rewrite (find_ext (fun x => withSid (SessionRow.session_id r) x &&
                                  (t' <? SessionRow.expires x)%Z)
                        (fun x => withSid sid x && (t' <? SessionRow.expires x)%Z))
        by (intros x; now rewrite Hsame).
      destruct (t' <? expiry session t)%Z;
        destruct (List.find _ (map _ tbl)) as [x|]; simpl in H; try discriminate;
        [injection H as ->; reflexivity | reflexivity].
    + rewrite (find_rewritten_other sid (SessionRow.session_id r) t'
                 (fun x => SessionRow.mk (SessionRow.session_id x) (expiry session t)
                                         (SessionRow.data x))); [reflexivity | | reflexivity].
      unfold hasSid in E. now rewrite sqlEq_sym.
Qed.

(** X20.  [destroy] removes a session for good: [get] of the id
    returns nothing at any time, other ids read as before, and the
    primary key stays unique. *)
Theorem session_destroy_forgets (tbl : list SessionRow.t) (sid : string) :
  let tbl' := destroy sqlEq tbl sid in
  (forall t', getSession tbl' sid t' = Done None) /\
  (forall sid' t', sqlEq sid sid' = false -> getSession tbl' sid' t' = getSession tbl sid' t') /\
  (unique tbl -> unique tbl').
Proof.
  intros tbl'. subst tbl'. unfold destroy. split; [|split].
  - intros t'. unfold get.
    destruct (List.find _ (List.filter _ tbl)) as [r|] eqn:F; [exfalso|reflexivity].
    apply find_some in F as [Hr Hp]. apply filter_In in Hr as [_ Hn].
    apply andb_true_iff in Hp as [Hp _]. rewrite Hp in Hn. discriminate.
  - intros sid' t' Hne. unfold get. rewrite find_filter_keep; [reflexivity|].
    intros x _ Hx. apply negb_false_iff in Hx.
    now rewrite (hasSid_other sid sid' x Hne Hx).
  - apply FOP_filter.
Qed.

Lemma find_unique_sid_if tbl r (c : SessionRow.t -> bool) :
  unique tbl -> In r tbl ->
  List.find (fun x => withSid (SessionRow.session_id r) x && c x) tbl =
  if c r then Some r else None.
Proof.
  unfold uniqueSessions. induction 1 as [|x tbl Hx Hn IH]; simpl; intros Hr; [destruct Hr|].
  pose proof (proj1 (List.Forall_forall _ _) Hx) as Hall. cbv beta in Hall.
  destruct Hr as [-> | Hr].
  - unfold hasSid at 1. rewrite sqlEq_refl. cbn [andb].
    destruct (c r); [reflexivity|]. apply (find_existsb_false _ (withSid (SessionRow.session_id r))).
    + apply Bool.not_true_iff_false. intros H. apply existsb_exists in H as (y & Hy & E).
      rewrite (Hall y Hy) in E. discriminate.
    + intros y Hy. now apply andb_true_iff in Hy as [Hy _].
  - assert (E : withSid (SessionRow.session_id r) x = false).
    { unfold hasSid. rewrite sqlEq_sym. exact (Hall r Hr). }
    rewrite E. cbn [andb]. now apply IH.
Qed.

Lemma unique_NoDup tbl : unique tbl -> NoDup (map SessionRow.session_id tbl).
Proof.
  unfold uniqueSessions. induction 1 as [|x tbl Hx Hn IH]; simpl.
  - apply NoDup_nil_2.
  - apply NoDup_cons. split; [|exact IH]. intros H.
    apply list_elem_of_In, in_map_iff in H as (y & Hy & Hin).
    pose proof (proj1 (List.Forall_forall _ _) Hx y Hin) as E. cbv beta in E.
    unfold hasSid in E. rewrite Hy, sqlEq_refl in E. discriminate.
Qed.

Local Notation "'decoded'" := (fun row => default emptySession (decode (SessionRow.data row))).
Local Notation "'allStep'" :=
  (fun (acc : Outcome (gmap string SessionData)) row =>
     match acc, decode (SessionRow.data row) with
     | Done sessions, Some session =>
         Done (setProperty sessions (SessionRow.session_id row) session)
     | _, _ => Failed
     end).

Lemma allStep_Failed (l : list SessionRow.t) : foldl allStep Failed l = Failed.
Proof. induction l as [|x l IH]; [reflexivity | exact IH]. Qed.

(** The loop of [all] fails exactly when the text of a row does not
    parse, and otherwise sets one property per row. *)
Lemma all_loop (l : list SessionRow.t) (m : gmap string SessionData) :
  foldl allStep (Done m) l =
  if forallb (fun r => bool_decide (is_Some (decode (SessionRow.data r)))) l
  then Done (foldl (fun sessions row =>
                      setProperty sessions (SessionRow.session_id row) (decoded row))
                   m l)
  else Failed.
Proof.
  revert m. induction l as [|x l IH]; intros m; [reflexivity|]. cbn [foldl forallb].
  destruct (decode (SessionRow.data x)) as [s|] eqn:E.
  - rewrite IH. rewrite bool_decide_eq_true_2 by eauto. cbn [andb default].
    reflexivity.
  - rewrite allStep_Failed.
    rewrite bool_decide_eq_false_2 by (intros [? ?]; discriminate). reflexivity.
Qed.

Lemma setProperty_fold (l : list SessionRow.t) (m : gmap string SessionData) :
  foldl (fun sessions row =>
           setProperty sessions (SessionRow.session_id row) (decoded row)) m l =
  foldl (fun sessions row => <[SessionRow.session_id row := decoded row]> sessions) m
        (List.filter (fun r => negb (String.eqb (SessionRow.session_id r) "__proto__")) l).
Proof.
  revert m. induction l as [|x l IH]; intros m; [reflexivity|]. cbn [foldl List.filter].
  unfold setProperty at 2.
  destruct (String.eqb (SessionRow.session_id x) "__proto__"); cbn [negb foldl]; apply IH.
Qed.

Lemma insert_fold (l : list SessionRow.t) :
  NoDup (map SessionRow.session_id l) ->
  let m := foldl (fun (sessions : gmap string SessionData) row =>
                    <[SessionRow.session_id row := decoded row]> sessions)
                 ∅ l in
  size m = List.length l /\
  (forall r, In r l -> m !! SessionRow.session_id r = Some (decoded r)) /\
  (forall k, ~ In k (map SessionRow.session_id l) -> m !! k = None).
Proof.
  induction l as [|x l IH] using rev_ind; intros Hn; cbn zeta.
  - simpl. split; [apply map_size_empty|]. split; [intros r []|]. intros k _. apply lookup_empty.
  - rewrite map_app in Hn. apply NoDup_app in Hn as (Hl & Hx & _).
    destruct (IH Hl) as (I1 & I2 & I3). rewrite foldl_app. cbn [foldl].
    assert (Hnew : ~ In (SessionRow.session_id x) (map SessionRow.session_id l)).
    { intros H. apply list_elem_of_In in H. apply (Hx _ H). simpl. left. }
    split; [|split].
    + rewrite map_size_insert_None by (now apply I3).
      rewrite I1, length_app. simpl. lia.
    + intros r Hr. apply in_app_iff in Hr as [Hr | [<- | []]].
      * rewrite lookup_insert_ne; [now apply I2|].
        intros E. apply Hnew. rewrite E. now apply in_map.
      * apply lookup_insert_eq.
    + intros k Hk. rewrite map_app, in_app_iff in Hk.
      rewrite lookup_insert_ne; [apply I3; intros H; apply Hk; now left|].
      intros <-. apply Hk. right. now left.
Qed.

(** X21.  [length], [all] and [get] agree.  On a table with a unique
    primary key, [all] hands over the error of [JSON.parse] exactly
    when the text of some row that has not expired does not parse.
    Otherwise it returns an object with one session for every such
    row, except a row named [__proto__], which sets no property:
    [length] is the number of sessions returned plus the number of
    such rows, and every other row that has not expired is in the
    object under its id, with the session [get] returns for that id. *)
Theorem session_length_counts_all (tbl : list SessionRow.t) (t : Z) :
  unique tbl ->
  let live := List.filter (fun r => (t <? SessionRow.expires r)%Z) tbl in
  (all emptySession parse tbl t = Failed <->
   exists r, In r live /\ decode (SessionRow.data r) = None) /\
  (forall r, In r live -> decode (SessionRow.data r) = None ->
     getSession tbl (SessionRow.session_id r) t = Failed) /\
  forall sessions, all emptySession parse tbl t = Done sessions ->
    length tbl t =
      (size sessions +
       List.length
         (List.filter (fun r => String.eqb (SessionRow.session_id r) "__proto__") live))%nat /\
    forall r, In r live -> SessionRow.session_id r <> "__proto__" ->
      exists session,
        decode (SessionRow.data r) = Some session /\
        sessions !! SessionRow.session_id r = Some session /\
        getSession tbl (SessionRow.session_id r) t = Done (Some session).
Proof.
  intros Hu live.
  assert (Hget : forall r, In r live ->
             getSession tbl (SessionRow.session_id r) t = parsed (decode (SessionRow.data r))).
  { intros r Hr. unfold live in Hr. apply filter_In in Hr as [Hr Ht]. unfold get.
    rewrite (find_unique_sid_if tbl r (fun x => (t <? SessionRow.expires x)%Z) Hu Hr).
    now rewrite Ht. }
  unfold all. fold live. rewrite all_loop.
  destruct (forallb _ live) eqn:Hall.
  - pose proof (proj1 (forallb_forall _ _) Hall) as Hok. cbv beta in Hok.
    split; [|split].
    + split; [discriminate|]. intros (r & Hr & Hd).
      specialize (Hok r Hr). rewrite Hd in Hok.
      apply bool_decide_eq_true in Hok as [? ?]. discriminate.
    + intros r Hr Hd. rewrite (Hget r Hr), Hd. reflexivity.
    + intros sessions [= <-]. rewrite setProperty_fold.
      set (named := List.filter _ live).
      destruct (insert_fold named) as (H1 & H2 & _).
      { apply unique_NoDup. unfold named, live. now do 2 apply FOP_filter. }
      split.
      * rewrite H1. unfold length. fold live. unfold named.
        clear. induction live as [|x l IH]; simpl; [reflexivity|].
        destruct (String.eqb (SessionRow.session_id x) "__proto__"); simpl; lia.
      * intros r Hr Hn. specialize (Hok r Hr).
        apply bool_decide_eq_true in Hok as [session Hs].
        exists session. split; [exact Hs|]. split.
        -- rewrite (H2 r).
           ++ now rewrite Hs.
           ++ apply filter_In. split; [exact Hr|].
              apply negb_true_iff, String.eqb_neq, Hn.
        -- rewrite (Hget r Hr), Hs. reflexivity.
  - split; [|split].
    + split; [|reflexivity]. intros _.
      destruct (existsb (fun r => negb (bool_decide (is_Some (decode (SessionRow.data r)))))
                        live) eqn:Ex.
      * apply existsb_exists in Ex as (r & Hr & Hb). exists r. split; [exact Hr|].
        apply negb_true_iff, bool_decide_eq_false in Hb.
        destruct (decode (SessionRow.data r)); [exfalso; apply Hb; eauto | reflexivity].
      * exfalso. assert (forallb (fun r => bool_decide (is_Some (decode (SessionRow.data r))))
                                 live = true); [|congruence].
        apply forallb_forall. intros r Hr.
        pose proof (proj2 (Bool.not_true_iff_false _) Ex) as Hno.
        destruct (bool_decide (is_Some (decode (SessionRow.data r)))) eqn:B; [reflexivity|].
        exfalso. apply Hno, existsb_exists. exists r. split; [exact Hr | now rewrite B].
    + intros r Hr Hd. rewrite (Hget r Hr), Hd. reflexivity.
    + intros sessions H. discriminate.
Qed.

End SessionStoreFacts.

(** * Upload: column detection and row conversion *)

Lemma findIndex_Some {A} (p : A -> bool) (l : list A) (i : nat) :
  findIndex p l = Some i ->
  (exists x, l !! i = Some x /\ p x = true) /\
  (forall j y, (j < i)%nat -> l !! j = Some y -> p y = false).
Proof.
  revert i. induction l as [|x l IH]; simpl; intros i; [discriminate|].
  destruct (p x) eqn:E.
  - intros [= <-]. split; [now exists x | intros j y Hj; lia].
  - destruct (findIndex p l) as [k|]; [|discriminate]. simpl. intros [= <-].
    destruct (IH k eq_refl) as [Hx Hmin]. split; [exact Hx|].
    intros [|j] y Hj; simpl; [now intros [= <-] | apply Hmin; lia].
Qed.

Lemma findIndex_None {A} (p : A -> bool) (l : list A) :
  findIndex p l = None <-> (forall x, In x l -> p x = false).
Proof.
  induction l as [|x l IH]; simpl; [now split|].
  destruct (p x) eqn:E.
  - split; [discriminate|]. intros H. rewrite (H x (or_introl eq_refl)) in E. discriminate.
  - destruct (findIndex p l) as [k|]; simpl.
    + split; [discriminate|]. intros H.
      assert (Some k = None) by (apply IH; intros y Hy; apply H; now right). discriminate.
    + split; [|reflexivity]. intros _ y [<- | Hy]; [exact E | now apply IH].
Qed.

Lemma startsWith_refl (s : string) : Js.startsWith s s = true.
Proof. induction s as [|c s IH]; simpl; [reflexivity|]. now rewrite Ascii.eqb_refl. Qed.

Lemma includes_refl (s : string) : Js.includes s s = true.
Proof. destruct s; simpl; [reflexivity|]. now rewrite Ascii.eqb_refl, startsWith_refl. Qed.

Lemma exactMatch_contains variations h :
  exactMatch variations h = true -> containsMatch variations h = true.
Proof.
  unfold exactMatch, containsMatch. intros H. apply existsb_exists in H as (v & Hv & E).
  apply existsb_exists. exists v. split; [exact Hv|].
  apply String.eqb_eq in E. rewrite <- E. apply includes_refl.
Qed.

Lemma mapField_get headers m e f :
  Js.mapGet m (fst e) = None ->
  Js.mapGet (mapField headers m e) f =
  if String.eqb (fst e) f then fieldColumn headers (snd e) else Js.mapGet m f.
Proof.
  intros Hm. unfold mapField, fieldColumn.
  destruct (findIndex (exactMatch (snd e)) headers) as [i|].
  - rewrite bool_decide_eq_true_2 by (rewrite mapGet_mapSet, String.eqb_refl; eauto).
    apply mapGet_mapSet.
  - rewrite bool_decide_eq_false_2 by (rewrite Hm; intros [? ?]; discriminate).
    destruct (findIndex (containsMatch (snd e)) headers) as [i|].
    + apply mapGet_mapSet.
    + destruct (String.eqb (fst e) f) eqn:E; [|reflexivity].
      apply String.eqb_eq in E. now rewrite <- E.
Qed.

Lemma mapFields_get headers es : forall m f,
  NoDup (map fst es) ->
  (forall e, In e es -> Js.mapGet m (fst e) = None) ->
  Js.mapGet (foldl (mapField headers) m es) f =
  match List.find (fun e => String.eqb (fst e) f) es with
  | Some e => fieldColumn headers (snd e)
  | None => Js.mapGet m f
  end.
Proof.
  induction es as [|e es IH]; intros m f Hn Hm; [reflexivity|].
  cbn [foldl List.find map] in *. apply NoDup_cons in Hn as [He Hn].
  rewrite IH; [|exact Hn|].
  - rewrite (mapField_get headers m e f) by (apply Hm; now left).
    destruct (String.eqb (fst e) f) eqn:E;
      destruct (List.find _ es) as [e'|] eqn:F; try reflexivity.
    exfalso. apply find_some in F as [Hin E']. apply String.eqb_eq in E, E'. apply He.
    rewrite E, <- E'. now apply list_elem_of_In, in_map.
  - intros e' He'. rewrite (mapField_get headers m e (fst e')) by (apply Hm; now left).
    destruct (String.eqb (fst e) (fst e')) eqn:E; [|apply Hm; now right].
    exfalso. apply String.eqb_eq in E. apply He. rewrite E.
    now apply list_elem_of_In, in_map.
Qed.

Lemma mapColumns_get headers field variations :
  In (field, variations) COLUMN_MAPPINGS ->
  Js.mapGet (mapColumns headers) field = fieldColumn headers variations.
Proof.
  intros H. unfold mapColumns. rewrite mapFields_get.
  - unfold COLUMN_MAPPINGS in H. cbn [In] in H.
    repeat (destruct H as [[= <- <-] | H]; [reflexivity|]). destruct H.
  - apply (bool_decide_unpack (NoDup (map fst COLUMN_MAPPINGS))). vm_compute. exact I.
  - intros e _. reflexivity.
Qed.

Lemma fieldColumn_found headers variations :
  is_Some (fieldColumn headers variations) <->
  exists h, In h headers /\ containsMatch variations h = true.
Proof.
  unfold fieldColumn. split.
  - destruct (findIndex (exactMatch variations) headers) as [i|] eqn:E1.
    + intros _. destruct (findIndex_Some _ _ _ E1) as [(h & Hh & He) _].
      exists h. split; [|now apply exactMatch_contains].
      apply list_elem_of_In. now apply list_elem_of_lookup_2 in Hh.
    + destruct (findIndex (containsMatch variations) headers) as [i|] eqn:E2.
      * intros _. destruct (findIndex_Some _ _ _ E2) as [(h & Hh & He) _].
        exists h. split; [|exact He].
        apply list_elem_of_In. now apply list_elem_of_lookup_2 in Hh.
      * intros [? ?]. discriminate.
  - intros (h & Hin & Hc).
    destruct (findIndex (exactMatch variations) headers) as [i|]; [eauto|].
    destruct (findIndex (containsMatch variations) headers) as [i|] eqn:E2; [eauto|].
    rewrite (proj1 (findIndex_None _ _) E2 h Hin) in Hc. discriminate.
Qed.

(** X22.  Column detection.  For every field of [COLUMN_MAPPINGS],
    [mapColumns] maps the field to the first header that equals one of
    its variations after lower-casing and trimming; when no header
    equals one, to the first header that contains one; and to no
    column exactly when no header contains one. *)
Theorem mapColumns_prefers_exact_header
    (headers : list string) (field : string) (variations : list string) :
  In (field, variations) COLUMN_MAPPINGS ->
  match Js.mapGet (mapColumns headers) field with
  | Some i =>
      exists h,
        headers !! i = Some h /\
        containsMatch variations h = true /\
        (forall j h', (j < i)%nat -> headers !! j = Some h' ->
                      exactMatch variations h' = false) /\
        (exactMatch variations h = true \/
         (forall h', In h' headers -> exactMatch variations h' = false) /\
         (forall j h', (j < i)%nat -> headers !! j = Some h' ->
                       containsMatch variations h' = false))
  | None => forall h, In h headers -> containsMatch variations h = false
  end.
Proof.
  intros Hin. rewrite (mapColumns_get headers field variations Hin). unfold fieldColumn.
  destruct (findIndex (exactMatch variations) headers) as [i|] eqn:E1.
  - destruct (findIndex_Some _ _ _ E1) as [(h & Hh & He) Hmin].
    exists h. split; [exact Hh|]. split; [now apply exactMatch_contains|].
    split; [exact Hmin | now left].
  - pose proof (proj1 (findIndex_None _ _) E1) as Hno.
    destruct (findIndex (containsMatch variations) headers) as [i|] eqn:E2.
    + destruct (findIndex_Some _ _ _ E2) as [(h & Hh & Hc) Hmin].
      exists h. split; [exact Hh|]. split; [exact Hc|]. split.
      * intros j h' _ Hj. apply Hno, list_elem_of_In. now apply list_elem_of_lookup_2 in Hj.
      * right. split; [exact Hno | exact Hmin].
    + now apply findIndex_None.
Qed.

Lemma required_in_mappings field :
  In field requiredFields -> exists variations, In (field, variations) COLUMN_MAPPINGS.
Proof.
  unfold requiredFields. cbn [In]. intros H.
  repeat (destruct H as [<- | H];
          [eexists; unfold COLUMN_MAPPINGS; cbn [In];
           repeat (first [left; reflexivity | right]) |]).
  destruct H.
Qed.

Lemma mapping_unique field variations variations' :
  In (field, variations) COLUMN_MAPPINGS -> In (field, variations') COLUMN_MAPPINGS ->
  variations = variations'.
Proof.
  intros H H'.
  assert (Hn : NoDup (map fst COLUMN_MAPPINGS))
    by (apply (bool_decide_unpack (NoDup (map fst COLUMN_MAPPINGS))); vm_compute; exact I).
  revert H H' Hn. generalize COLUMN_MAPPINGS as l.
  induction l as [|[f v] l IH]; simpl; [intros []|].
  intros H H' Hn. apply NoDup_cons in Hn as [Hf Hn].
  destruct H as [H | H], H' as [H' | H'].
  - congruence.
  - exfalso. injection H as -> _. apply Hf, list_elem_of_In.
    now apply (in_map fst _ (field, variations')).
  - exfalso. injection H' as -> _. apply Hf, list_elem_of_In.
    now apply (in_map fst _ (field, variations)).
  - now apply IH.
Qed.

Section UploadFacts.

Variable parseInt : string -> option Z.
Variable parseNumber : string -> option Q.
Variable numberToString : Q -> string.
Variable parseUploadDate : string -> option Timestamp.

Context {Buffer : Type}.
Variable sheetRows : Buffer -> list (list string).
Variable csvRecords : Buffer -> list (list string).

Local Notation "'upload'" :=
  (processUpload parseInt parseNumber numberToString parseUploadDate).
Local Notation "'route'" :=
  (uploadFile parseInt parseNumber numberToString parseUploadDate sheetRows csvRecords).
Local Notation "'order'" := (toOrder parseInt parseNumber numberToString parseUploadDate).

Lemma processUpload_rows (uploadSessionId : string) (now : nat -> Timestamp)
    (headerRow row : list string) (rows : list (list string)) :
  let found field :=
    exists variations h,
      In (field, variations) COLUMN_MAPPINGS /\ In h headerRow /\
      containsMatch variations h = true in
  match upload uploadSessionId now (headerRow :: row :: rows) with
  | inr (orders, cancelled) =>
      (forall field, In field requiredFields -> found field) /\
      List.length orders = S (List.length rows) /\
      (cancelled <= List.length orders)%nat
  | inl (MissingRequiredColumns missing) =>
      missing <> [] /\
      forall field, In field missing <-> In field requiredFields /\ ~ found field
  | inl _ => False
  end.
Proof.
  intros found. unfold processUpload.
  replace (map (fun h => cellText (Some h)) headerRow) with headerRow
    by (symmetry; apply map_id).
  assert (Hmapped : forall field, In field requiredFields ->
            (is_Some (Js.mapGet (mapColumns headerRow) field) <-> found field)).
  { intros field Hf. destruct (required_in_mappings field Hf) as [v Hv].
    rewrite (mapColumns_get headerRow field v Hv), fieldColumn_found. split.
    - intros (h & Hh & Hc). exists v, h. auto.
    - intros (v' & h & Hv' & Hh & Hc). exists h.
      now rewrite (mapping_unique field v v' Hv Hv'). }
  assert (Hmissing : forall field,
            In field (missingFields (mapColumns headerRow)) <->
            In field requiredFields /\ ~ found field).
  { intros field. unfold missingFields. rewrite filter_In. split.
    - intros [Hf Hn]. split; [exact Hf|]. rewrite <- (Hmapped field Hf).
      apply negb_true_iff, bool_decide_eq_false in Hn. exact Hn.
    - intros [Hf Hn]. split; [exact Hf|]. apply negb_true_iff, bool_decide_eq_false.
      now rewrite (Hmapped field Hf). }
  destruct (missingFields (mapColumns headerRow)) as [|f missing] eqn:M.
  - split; [|split].
    + intros field Hf. apply (Hmapped field Hf).
      destruct (Js.mapGet (mapColumns headerRow) field) as [i|] eqn:G; [eauto|].
      exfalso. apply (in_nil (a := field)). rewrite <- M. unfold missingFields.
      apply filter_In. split; [exact Hf|]. now rewrite G.
    + now rewrite length_imap.
    + apply List.filter_length_le.
  - split; [discriminate | exact Hmissing].
Qed.

(** X23.  When an upload is accepted.  A file that is neither a
    spreadsheet nor CSV is refused.  Of a spreadsheet the route reads
    the rows of the first sheet, of a CSV file the records that
    [csv()] emits, which are the lines after the header line.  When
    these are fewer than two the upload is refused for want of a data
    row; otherwise the first of them is read as the header row (for a
    CSV file that is the first record, not the header line), and the
    rest are turned into orders exactly when every required field has
    a header containing one of its variations; there is then one order
    for each remaining row, and the rows counted as cancelled are
    among them.  Otherwise the upload is refused with the list of the
    required fields no header matches, which is not empty. *)
Theorem upload_needs_every_required_column
    (uploadSessionId : string) (now : nat -> Timestamp)
    (mimetype originalname : string) (buffer : Buffer) :
  let found headerRow field :=
    exists variations h,
      In (field, variations) COLUMN_MAPPINGS /\ In h headerRow /\
      containsMatch variations h = true in
  let result := route uploadSessionId now mimetype originalname buffer in
  let data :=
    match parserFor mimetype originalname with
    | Some ReadSpreadsheet => Some (sheetRows buffer)
    | Some ReadCsv => Some (csvRecords buffer)
    | None => None
    end in
  match data with
  | None => result = inl UnsupportedFileType
  | Some [] | Some [_] => result = inl NoDataRow
  | Some (headerRow :: row :: rows) =>
      match result with
      | inr (orders, cancelled) =>
          (forall field, In field requiredFields -> found headerRow field) /\
          List.length orders = S (List.length rows) /\
          (cancelled <= List.length orders)%nat
      | inl (MissingRequiredColumns missing) =>
          missing <> [] /\
          forall field,
            In field missing <-> In field requiredFields /\ ~ found headerRow field
      | inl _ => False
      end
  end.
Proof.
  intros found result data. subst result data. unfold uploadFile, parseFile.
  destruct (parserFor mimetype originalname) as [[]|]; [| |reflexivity].
  - destruct (sheetRows buffer) as [|headerRow [|row rows]]; [reflexivity..|].
    apply processUpload_rows.
  - destruct (csvRecords buffer) as [|headerRow [|row rows]]; [reflexivity..|].
    apply processUpload_rows.
Qed.

(** A file with every required column and one data row is accepted as
    a spreadsheet and refused as CSV, where the parser has consumed
    the header line and the data row is the only record. *)
Lemma csv_with_one_data_row_is_refused (uploadSessionId : string)
    (now : nat -> Timestamp) :
  let asSheet :=
    uploadFile parseInt parseNumber numberToString parseUploadDate
               Fixture.linesOf Fixture.recordsOf uploadSessionId now
               "application/vnd.ms-excel" "orders.xls" Fixture.oneOrderFile in
  let asCsv :=
    uploadFile parseInt parseNumber numberToString parseUploadDate
               Fixture.linesOf Fixture.recordsOf uploadSessionId now
               "text/csv" "orders.csv" Fixture.oneOrderFile in
  (exists o, asSheet = inr ([o], if Js.includes (Js.toLowerCase (UploadedOrder.status o))
                                               "cancelled" then 1%nat else 0%nat)) /\
  asCsv = inl NoDataRow.
Proof.
  split; [|reflexivity]. eexists. unfold uploadFile, parseFile.
  change (parserFor "application/vnd.ms-excel" "orders.xls") with (Some ReadSpreadsheet).
  unfold Fixture.linesOf, Fixture.oneOrderFile, processUpload.
  match goal with
  | |- context [missingFields ?m] =>
      replace (missingFields m) with (@nil string) by (vm_compute; reflexivity)
  end.
  cbn [imap]. cbn [List.filter List.length].
  match goal with
  | |- context [Js.includes ?a ?b] => destruct (Js.includes a b) eqn:E
  end; cbn [List.length]; rewrite ?E; reflexivity.
Qed.

(** X24.  An optional column in first place is dropped.  When the
    first header of the file equals a variation of the payment mode
    (of the waybill, the delivery date, the return date), the field
    is mapped to column 0, and the order built from any data row has
    no payment mode (no waybill, no delivery date, no return date),
    whatever the row holds in that column; a stored line with that
    mode counts as COD in the payout run. *)
Theorem first_column_optional_field_is_dropped
    (uploadSessionId : string) (now : Timestamp)
    (h : string) (rest row : list string) (field : string) (variations : list string) :
  In (field, variations) COLUMN_MAPPINGS ->
  exactMatch variations h = true ->
  let o := order uploadSessionId now (mapColumns (h :: rest)) row in
  Js.mapGet (mapColumns (h :: rest)) field = Some 0%nat /\
  (field = "mode" ->
     UploadedOrder.mode o = None /\
     forall line, OrderData.mode line = UploadedOrder.mode o -> isCodOrder line = true) /\
  (field = "waybill" -> UploadedOrder.waybill o = None) /\
  (field = "deliveredDate" -> UploadedOrder.deliveredDate o = None) /\
  (field = "rtsDate" -> UploadedOrder.rtsDate o = None).
Proof.
  intros Hin He o.
  assert (G : Js.mapGet (mapColumns (h :: rest)) field = Some 0%nat).
  { rewrite (mapColumns_get _ field variations Hin). unfold fieldColumn. simpl.
    now rewrite He. }
  assert (P : mappedPastFirst (mapColumns (h :: rest)) field = false)
    by (unfold mappedPastFirst; now rewrite G).
  split; [exact G|]. subst o. unfold toOrder. cbn [UploadedOrder.mode UploadedOrder.waybill
    UploadedOrder.deliveredDate UploadedOrder.rtsDate].
  split; [|split; [|split]]; intros ->; rewrite P; try reflexivity.
  split; [reflexivity|]. intros line Hm. unfold isCodOrder, paymentMode. now rewrite Hm.
Qed.

End UploadFacts.

(** * The properties on sample data *)

Import Fixture.

Lemma eqb_trans (a b c : string) :
  String.eqb a b = true -> String.eqb b c = true -> String.eqb a c = true.
Proof. rewrite !String.eqb_eq. congruence. Qed.

Lemma rows_only_from_selected_accounts_witness :
  let r := payoutRow utcDate january lampPrices lampCosts [] codLine in
  In r (resultRows (calculatePayouts utcDate codStore january)) /\
  ~ In (Js.toLowerCase (PayoutRow.dropshipperEmail r)) excludedEmails.
Proof.
  assert (H : In (payoutRow utcDate january lampPrices lampCosts [] codLine)
                 (resultRows (calculatePayouts utcDate codStore january)))
    by (left; reflexivity).
  split; [exact H|].
  exact (proj1 (rows_only_from_selected_accounts utcDate codStore january _ H)).
Defined.

Lemma shipping_is_never_negative_witness :
  (forall o, In o (orderData roundingStore) -> (0 <= OrderData.qty o)%Z) /\
  (0 <= shippingTotal (runPayouts utcDate roundingStore january))%Q.
Proof.
  assert (H : forall o, In o (orderData roundingStore) -> (0 <= OrderData.qty o)%Z).
  { intros o [<- | []]. simpl. lia. }
  split; [exact H|].
  exact (proj1 (proj2 (proj2 (shipping_is_never_negative utcDate roundingStore january H)))).
Defined.

Lemma confidence_ladder_witness :
  idsAreNotNumbers uuidNumber a1Store /\
  exists s,
    In s (autoDetectRtsRtoReconciliations utcDate uuidNumber a1Store window) /\
    Suggestion.statusChangeDetected s = true /\
    Suggestion.confidence s = high /\
    (Suggestion.suggestedReversalAmount s == 300)%Q.
Proof.
  assert (Hids : idsAreNotNumbers uuidNumber a1Store) by (intros r _; reflexivity).
  split; [exact Hids|].
  eexists. split; [left; reflexivity|].
  pose proof (confidence_ladder utcDate uuidNumber a1Store window _ (or_introl eq_refl))
    as (H1 & H2 & _ & H3).
  split; [|split].
  - etransitivity; [exact (H1 Hids) | reflexivity].
  - etransitivity; [exact H3 | reflexivity].
  - etransitivity; [exact H2 | vm_compute; reflexivity].
Defined.


Lemma unpriced_product_costs_nothing_witness :
  In (toMissingPrice codLine) (missingPrices (getMissingPricesAndRates unpricedStore)) /\
  resolveUnitCost
    (buildPriceMap
       (filterPrices (PayoutCalculationRequest.dropshipperEmail january)
                     (productPrices unpricedStore)))
    codLine = 0%Q.
Proof.
  assert (H : In (toMissingPrice codLine)
                 (missingPrices (getMissingPricesAndRates unpricedStore)))
    by (left; reflexivity).
  split; [exact H|].
  exact (proj1 (unpriced_product_costs_nothing utcDate unpricedStore january
                  (toMissingPrice codLine) codLine H eq_refl)).
Defined.

Lemma upsert_then_get_returns_the_price_witness :
  uniqueIds String.eqb priceTable /\
  exists row,
    getProductPrice String.eqb
      (fst (upsertProductPrice String.eqb cents halfKilo priceTable
              "00000000-0000-4000-8000-0000000000d2" (jan 2) (lampAt 55)))
      "seller@example.com" "lamp" = Some row /\
    ProductPriceRow.productCostPerUnit row = 5500 /\
    ProductPriceRow.id row = "00000000-0000-4000-8000-0000000000d1".
Proof.
  assert (Hu : uniqueIds String.eqb priceTable) by (repeat constructor).
  split; [exact Hu|].
  destruct (upsert_then_get_returns_the_price String.eqb String.eqb_refl String.eqb_sym
              eqb_trans cents halfKilo priceTable "00000000-0000-4000-8000-0000000000d2"
              (jan 2) (lampAt 55) Hu)
    as (row & _ & G & _ & _ & _ & C & _ & _ & I).
  { intros r [<- | []]. reflexivity. }
  exists row. split; [exact G|]. split; [exact C | exact (proj1 I)].
Defined.

Lemma upsert_leaves_other_prices_witness :
  uniqueIds String.eqb priceTable /\
  getProductPrice String.eqb
    (fst (upsertProductPrice String.eqb cents halfKilo priceTable
            "00000000-0000-4000-8000-0000000000d2" (jan 2) (vaseAt 80)))
    "seller@example.com" "lamp" = Some lampRow.
Proof.
  assert (Hu : uniqueIds String.eqb priceTable) by (repeat constructor).
  split; [exact Hu|].
  refine (proj1 (upsert_leaves_other_prices String.eqb String.eqb_refl String.eqb_sym
                   eqb_trans cents halfKilo priceTable
                   "00000000-0000-4000-8000-0000000000d2" (jan 2) (vaseAt 80) Hu _)
                "seller@example.com" "lamp" eq_refl).
  intros r [<- | []]. reflexivity.
Defined.

Lemma bulk_upsert_last_write_wins_witness :
  uniqueIds String.eqb priceTable /\
  freshIds String.eqb priceTable (map (fun x => fst (fst x)) batch) /\
  exists row,
    getProductPrice String.eqb
      (fst (bulkUpsertProductPrices String.eqb cents halfKilo priceTable batch))
      "seller@example.com" "vase" = Some row /\
    ProductPriceRow.productCostPerUnit row = 9000.
Proof.
  assert (Hu : uniqueIds String.eqb priceTable) by (repeat constructor).
  assert (Hf : freshIds String.eqb priceTable (map (fun x => fst (fst x)) batch)).
  { split.
    - repeat constructor; intros r [<- | []]; reflexivity.
    - repeat constructor. }
  split; [exact Hu|]. split; [exact Hf|].
  destruct (bulk_upsert_last_write_wins String.eqb String.eqb_refl String.eqb_sym eqb_trans
              cents halfKilo batch priceTable Hu Hf) as (_ & _ & _ & H).
  destruct (H "seller@example.com" "vase") as (row & G & _ & C & _).
  exists row. split; [exact G | exact C].
Defined.

Lemma delete_removes_the_price_witness :
  uniqueIds String.eqb priceTable /\ uniqueProducts String.eqb priceTable /\
  In lampRow priceTable /\
  getProductPrice String.eqb
    (deleteProductPrice String.eqb priceTable (ProductPriceRow.id lampRow))
    "seller@example.com" "lamp" = None.
Proof.
  assert (Hi : uniqueIds String.eqb priceTable) by (repeat constructor).
  assert (Hp : uniqueProducts String.eqb priceTable) by (repeat constructor).
  assert (Hr : In lampRow priceTable) by (left; reflexivity).
  split; [exact Hi|]. split; [exact Hp|]. split; [exact Hr|].
  exact (proj1 (delete_removes_the_price String.eqb String.eqb_refl String.eqb_sym
                  priceTable lampRow Hi Hp Hr)).
Defined.

Lemma session_set_then_get_witness :
  let tbl' :=
    MySQLSessionStore.set String.eqb toJson noCookie sessionTable "s2" (Some 8) 5000 in
  MySQLSessionStore.get String.eqb None fromJson tbl' "s2" 86404999 = Done (Some (Some 8)) /\
  MySQLSessionStore.get String.eqb None fromJson tbl' "s2" 86405000 = Done None.
Proof.
  pose proof (session_set_then_get String.eqb String.eqb_refl String.eqb_sym eqb_trans
                Session None toJson fromJson noCookie sessionTable "s2" (Some 8) 5000)
    as [H _].
  split; [exact (H 86404999) | exact (H 86405000)].
Defined.

Lemma session_touch_moves_expiry_witness :
  MySQLSessionStore.uniqueSessions String.eqb brokenTable /\
  let tbl' := MySQLSessionStore.touch String.eqb noCookie brokenTable "s1" (Some 7) 5000 in
  MySQLSessionStore.get String.eqb None fromJson brokenTable "s1" 5000 = Done None /\
  MySQLSessionStore.get String.eqb None fromJson tbl' "s1" 5000 = Done (Some (Some 7)) /\
  MySQLSessionStore.get String.eqb None fromJson
    (MySQLSessionStore.touch String.eqb noCookie brokenTable "s3" None 5000) "s3" 5000
  = Failed.
Proof.
  assert (Hu : MySQLSessionStore.uniqueSessions String.eqb brokenTable)
    by (repeat constructor).
  split; [exact Hu|]. split; [reflexivity|]. split.
  - pose proof (session_touch_moves_expiry String.eqb String.eqb_refl String.eqb_sym
                  eqb_trans Session None fromJson noCookie brokenTable "s1" (Some 7) 5000 Hu)
      as (_ & _ & _ & _ & H).
    exact (H (SessionRow.mk "s1" 1000 (Some (toJson (Some 7)))) 5000 (or_introl eq_refl)).
  - pose proof (session_touch_moves_expiry String.eqb String.eqb_refl String.eqb_sym
                  eqb_trans Session None fromJson noCookie brokenTable "s3" None 5000 Hu)
      as (_ & _ & _ & _ & H).
    exact (H (SessionRow.mk "s3" 1000 (Some "user=7")) 5000 (or_intror (or_introl eq_refl))).
Defined.

Lemma session_destroy_forgets_witness :
  MySQLSessionStore.get String.eqb None fromJson sessionTable "s1" 500 = Done (Some (Some 7)) /\
  MySQLSessionStore.get String.eqb None fromJson
    (MySQLSessionStore.destroy String.eqb sessionTable "s1") "s1" 500 = Done None.
Proof.
  split; [reflexivity|].
  exact (proj1 (session_destroy_forgets String.eqb String.eqb_sym eqb_trans
                  Session None fromJson sessionTable "s1") 500).
Defined.

Lemma session_length_counts_all_witness :
  MySQLSessionStore.uniqueSessions String.eqb sessionTable /\
  MySQLSessionStore.uniqueSessions String.eqb brokenTable /\
  (exists sessions,
     MySQLSessionStore.all None fromJson sessionTable 500 = Done sessions /\
     MySQLSessionStore.length sessionTable 500 = size sessions /\
     sessions !! "s1" = Some (Some 7)) /\
  MySQLSessionStore.all None fromJson brokenTable 500 = Failed.
Proof.
  assert (Hu : MySQLSessionStore.uniqueSessions String.eqb sessionTable)
    by (repeat constructor).
  assert (Hb : MySQLSessionStore.uniqueSessions String.eqb brokenTable)
    by (repeat constructor).
  split; [exact Hu|]. split; [exact Hb|]. split.
  - pose proof (session_length_counts_all String.eqb String.eqb_refl String.eqb_sym
                  Session None fromJson sessionTable 500 Hu) as (_ & _ & H).
    eexists. split; [reflexivity|].
    match goal with
    | |- _ = size ?m /\ _ => destruct (H m eq_refl) as [H1 H2]
    end.
    split.
    + etransitivity; [exact H1 | vm_compute; reflexivity].
    + destruct (H2 (SessionRow.mk "s1" 1000 (Some (toJson (Some 7))))
                   (or_introl eq_refl)) as (session & Hd & Hs & _); [discriminate|].
      etransitivity; [exact Hs|]. rewrite <- Hd. reflexivity.
  - pose proof (session_length_counts_all String.eqb String.eqb_refl String.eqb_sym
                  Session None fromJson brokenTable 500 Hb) as (H & _).
    apply H. exists (SessionRow.mk "s3" 1000 (Some "user=7")).
    split; [right; left; reflexivity | reflexivity].
Defined.

Lemma mapColumns_prefers_exact_header_witness :
  let headers := ["Order Type"; "Payment Mode"; "Mode"] in
  In ("mode", modeVariations) COLUMN_MAPPINGS /\
  Js.mapGet (mapColumns headers) "mode" = Some 1%nat /\
  containsMatch modeVariations "Order Type" = true /\
  match Js.mapGet (mapColumns headers) "mode" with
  | Some i =>
      exists h,
        headers !! i = Some h /\
        containsMatch modeVariations h = true /\
        (forall j h', (j < i)%nat -> headers !! j = Some h' ->
                      exactMatch modeVariations h' = false) /\
        (exactMatch modeVariations h = true \/
         (forall h', In h' headers -> exactMatch modeVariations h' = false) /\
         (forall j h', (j < i)%nat -> headers !! j = Some h' ->
                       containsMatch modeVariations h' = false))
  | None => forall h, In h headers -> containsMatch modeVariations h = false
  end.
Proof.
  assert (Hin : In ("mode", modeVariations) COLUMN_MAPPINGS)
    by (do 8 right; left; reflexivity).
  split; [exact Hin|]. split; [vm_compute; reflexivity|]. split; [vm_compute; reflexivity|].
  exact (mapColumns_prefers_exact_header ["Order Type"; "Payment Mode"; "Mode"]
           "mode" modeVariations Hin).
Defined.

Lemma first_column_optional_field_is_dropped_witness :
  In ("mode", modeVariations) COLUMN_MAPPINGS /\
  exactMatch modeVariations "Mode" = true /\
  cell (mapColumns modeFirst) "mode" prepaidRow = Some "Prepaid" /\
  UploadedOrder.mode
    (toOrder (fun _ => None) (fun _ => None) (fun _ => "0") utcDate "u1" (jan 20)
             (mapColumns modeFirst) prepaidRow) = None.
Proof.
  assert (Hin : In ("mode", modeVariations) COLUMN_MAPPINGS)
    by (do 8 right; left; reflexivity).
  split; [exact Hin|]. split; [reflexivity|]. split; [reflexivity|].
  destruct (first_column_optional_field_is_dropped
              (fun _ => None) (fun _ => None) (fun _ => "0") utcDate "u1" (jan 20)
              "Mode" (tl modeFirst) prepaidRow "mode" modeVariations Hin eq_refl)
    as (_ & H & _).
  exact (proj1 (H eq_refl)).
Defined.
